(** * ralph-mem: the Ralph loop core

    A shallow embedding of the iterate-until-success driver of ralph-mem
    and of its three support mechanisms:

    - [StopConditions]  src/features/ralph/stop-conditions.ts
    - [Criteria]        src/features/ralph/criteria.ts
    - [Snapshot]        src/features/ralph/snapshot.ts
    - [Engine]          src/features/ralph/engine.ts

    JavaScript values are modelled as the code has them: a string is its
    sequence of UTF-16 code units, integral numbers are [Z], arrays are
    lists, [null]/[undefined] are [None].  Asynchronous functions are
    modelled by the value their promise settles with. *)

From Stdlib Require Import ZArith NArith Lia Bool Ascii String DecimalString.
From stdpp Require Import base option list strings gmap.

Local Open Scope Z_scope.

(* ===================================================================== *)
(** * JavaScript strings and regular expressions                          *)
(* ===================================================================== *)

Module JS.

(** A JavaScript string: a sequence of 16-bit code units. *)
Definition jsstring := list N.

(** ** String literals

    Literals of the source are written as Rocq strings (UTF-8 bytes) and
    decoded to code units. *)

Definition bytes_of_string (s : string) : list N :=
  map N_of_ascii (list_ascii_of_string s).

(** Decode UTF-8 into code points (ill-formed tails are dropped). *)
Fixpoint utf8_decode (bs : list N) : list N :=
  match bs with
  | [] => []
  | b0 :: rest =>
      if (b0 <? 128)%N then b0 :: utf8_decode rest
      else if (b0 <? 224)%N then
        match rest with
        | b1 :: rest1 =>
            ((b0 - 192) * 64 + (b1 - 128))%N :: utf8_decode rest1
        | [] => []
        end
      else if (b0 <? 240)%N then
        match rest with
        | b1 :: b2 :: rest2 =>
            ((b0 - 224) * 4096 + (b1 - 128) * 64 + (b2 - 128))%N
              :: utf8_decode rest2
        | _ => []
        end
      else
        match rest with
        | b1 :: b2 :: b3 :: rest3 =>
            ((b0 - 240) * 262144 + (b1 - 128) * 4096
             + (b2 - 128) * 64 + (b3 - 128))%N :: utf8_decode rest3
        | _ => []
        end
  end.

(** Encode one code point as UTF-16. *)
Definition utf16_units (cp : N) : list N :=
  if (cp <? 65536)%N then [cp]
  else [(55296 + (cp - 65536) / 1024)%N; (56320 + (cp - 65536) mod 1024)%N].

Definition lit (s : string) : jsstring :=
  flat_map utf16_units (utf8_decode (bytes_of_string s)).

(** [a === b] on strings. *)
Definition str_eqb (a b : jsstring) : bool := bool_decide (a = b).

(** A string is truthy iff it is not empty. *)
Definition truthy (s : jsstring) : bool :=
  match s with [] => false | _ :: _ => true end.

(** [String(n)] for an integral number. *)
Definition num_to_string (n : Z) : jsstring :=
  lit (NilZero.string_of_int (Z.to_int n)).

(** The line feed and the blank line used as separators. *)
Definition LF : jsstring := [10%N].

(** [xs.join(sep)] *)
Fixpoint join (sep : jsstring) (xs : list jsstring) : jsstring :=
  match xs with
  | [] => []
  | [x] => x
  | x :: rest => x ++ sep ++ join sep rest
  end.

(** ** [String.prototype.trim]

    White space and line terminators of ECMAScript. *)
Definition is_white_space (c : N) : bool :=
  ((9 <=? c) && (c <=? 13) || (c =? 32) || (c =? 160) || (c =? 5760)
   || (8192 <=? c) && (c <=? 8202) || (c =? 8232) || (c =? 8233)
   || (c =? 8239) || (c =? 8287) || (c =? 12288) || (c =? 65279))%N.

Fixpoint trimStart (s : jsstring) : jsstring :=
  match s with
  | [] => []
  | c :: rest => if is_white_space c then trimStart rest else s
  end.

Definition trimEnd (s : jsstring) : jsstring := rev (trimStart (rev s)).

Definition trim (s : jsstring) : jsstring := trimEnd (trimStart s).

(** [s.includes(t)] *)
Fixpoint is_prefix (t s : jsstring) : bool :=
  match t, s with
  | [], _ => true
  | _ :: _, [] => false
  | a :: t', b :: s' => (a =? b)%N && is_prefix t' s'
  end.

Fixpoint includes (s t : jsstring) : bool :=
  is_prefix t s || match s with [] => false | _ :: s' => includes s' t end.

(** ** Regular expressions

    The fragment of the regular-expression syntax the sources use, with a
    backtracking matcher in continuation-passing style.  None of the
    patterns has a capturing group. *)

Inductive regex : Type :=
  | Eps                               (* the empty pattern *)
  | Chr (c : N)                       (* one literal code unit *)
  | Cls (p : N -> bool)               (* one code unit of a class *)
  | WordB                             (* \b *)
  | Seq (a b : regex)                 (* ab *)
  | Alt (a b : regex)                 (* a|b *)
  | Opt (a : regex)                   (* (?:a)? , greedy *)
  | Plus (p : N -> bool).             (* [class]+ , greedy *)

(** A RegExp object: the pattern and its [i] and [g] flags. *)
Record RegExp : Type := mkRegExp {
  source : regex;
  ignoreCase : bool;
  global : bool
}.

(** \w, \d and \s (no [u] flag). *)
Definition is_word_char (c : N) : bool :=
  ((97 <=? c) && (c <=? 122) || (65 <=? c) && (c <=? 90)
   || (48 <=? c) && (c <=? 57) || (c =? 95))%N.

Definition is_digit (c : N) : bool := ((48 <=? c) && (c <=? 57))%N.

Definition is_word_opt (c : option N) : bool :=
  match c with Some x => is_word_char x | None => false end.

(** Canonicalize of the [i] flag without [u]: upper-casing that never maps
    a non-ASCII unit to an ASCII one.  The patterns matched under [i] here
    are ASCII only, so that only ASCII case matters. *)
Definition canonicalize (c : N) : N :=
  if ((97 <=? c) && (c <=? 122))%N then (c - 32)%N else c.

Definition char_matches (ic : bool) (pat c : N) : bool :=
  if ic then (canonicalize pat =? canonicalize c)%N else (pat =? c)%N.

(** Greedy [class+]: consume as many units as possible, give back one at
    a time while the continuation fails. *)
Fixpoint plus_class (p : N -> bool) (s : jsstring)
    (k : option N -> jsstring -> option jsstring) : option jsstring :=
  match s with
  | [] => None
  | c :: rest =>
      if p c then
        match plus_class p rest k with
        | Some r => Some r
        | None => k (Some c) rest
        end
      else None
  end.

(** [rmatch r ic prev s k]: match [r] at the start of [s], where [prev] is
    the code unit just before it; on success call [k] with the last unit
    consumed and the remaining input.  The result is the input left after
    the whole match. *)
Fixpoint rmatch (r : regex) (ic : bool) (prev : option N) (s : jsstring)
    (k : option N -> jsstring -> option jsstring) : option jsstring :=
  match r with
  | Eps => k prev s
  | Chr c =>
      match s with
      | x :: rest => if char_matches ic c x then k (Some x) rest else None
      | [] => None
      end
  | Cls p =>
      match s with
      | x :: rest => if p x then k (Some x) rest else None
      | [] => None
      end
  | WordB =>
      if xorb (is_word_opt prev) (is_word_opt (head s)) then k prev s
      else None
  | Seq a b => rmatch a ic prev s (fun prev' s' => rmatch b ic prev' s' k)
  | Alt a b =>
      match rmatch a ic prev s k with
      | Some r => Some r
      | None => rmatch b ic prev s k
      end
  | Opt a =>
      match rmatch a ic prev s k with
      | Some r => Some r
      | None => k prev s
      end
  | Plus p => plus_class p s k
  end.

(** The substring matched at the current position, if any. *)
Definition match_here (re : RegExp) (prev : option N) (s : jsstring)
  : option jsstring :=
  match rmatch (source re) (ignoreCase re) prev s (fun _ rest => Some rest) with
  | Some rest => Some (take (length s - length rest)%nat s)
  | None => None
  end.

(** [RegExp.prototype.exec] from the start of the input: the leftmost
    match. *)
Fixpoint exec_from (re : RegExp) (prev : option N) (s : jsstring)
  : option jsstring :=
  match match_here re prev s with
  | Some m => Some m
  | None =>
      match s with
      | [] => None
      | c :: rest => exec_from re (Some c) rest
      end
  end.

(** All matches of a global pattern, left to right, without overlap:
    after a match of length [n > 0] the next [n - 1] units are skipped;
    after an empty match the scan advances by one unit. *)
Fixpoint match_all (re : RegExp) (prev : option N) (skip : nat)
    (s : jsstring) : list jsstring :=
  match skip with
  | S n =>
      match s with
      | [] => []
      | c :: rest => match_all re (Some c) n rest
      end
  | O =>
      match match_here re prev s with
      | Some m =>
          m :: match s with
               | [] => []
               | c :: rest => match_all re (Some c) (pred (length m)) rest
               end
      | None =>
          match s with
          | [] => []
          | c :: rest => match_all re (Some c) O rest
          end
      end
  end.

(** [s.match(re)]: with the [g] flag the array of all matches, without it
    the array of the first match and its (here: no) capture groups;
    [null] when there is no match. *)
Definition str_match (s : jsstring) (re : RegExp) : option (list jsstring) :=
  if global re then
    match match_all re None O s with
    | [] => None
    | ms => Some ms
    end
  else
    match exec_from re None s with
    | Some m => Some [m]
    | None => None
    end.

(** Pattern syntax helpers. *)
Definition str (s : string) : regex :=
  fold_right (fun c r => Seq (Chr c) r) Eps (lit s).

Definition re_i (r : regex) : RegExp := mkRegExp r true false.
Definition re_gi (r : regex) : RegExp := mkRegExp r true true.
Definition re_g (r : regex) : RegExp := mkRegExp r false true.
Definition re_plain (r : regex) : RegExp := mkRegExp r false false.

(** \bWORD\b and \bWORD(?:SUFFIX)?\b *)
Definition word (w : regex) : regex := Seq WordB (Seq w WordB).

(** The code unit every match of a pattern has to begin with, where the
    pattern fixes it. *)
Fixpoint first_unit (r : regex) : option N :=
  match r with
  | Chr a => Some a
  | Seq a b =>
      match a with
      | WordB => first_unit b
      | _ => first_unit a
      end
  | _ => None
  end.

(** The number of occurrences of a pattern in a text. *)
Definition occurrences (pattern : RegExp) (s : jsstring) : nat :=
  length (match_all pattern None O s).

End JS.

(* ===================================================================== *)
(** * Overbaking prevention: stop conditions (stop-conditions.ts)         *)
(* ===================================================================== *)

Module StopConditions.
Import JS.

(** Configuration for stop conditions. *)
Record StopConditions : Type := mkStopConditions {
  maxIterations : Z;
  maxDurationMs : Z;
  noProgressThreshold : Z
}.

(** Reason for stopping the loop. *)
Inductive StopReasonType : Type := max_iterations | max_duration | no_progress.

Record StopReason : Type := mkStopReason {
  reason : StopReasonType;
  details : jsstring
}.

(** Loop run state for stop condition evaluation; [startedAt] is the
    time value of the Date in milliseconds. *)
Record LoopRunState : Type := mkLoopRunState {
  iterations : Z;
  startedAt : Z;
  noProgressCount : Z
}.

Definition DEFAULT_STOP_CONDITIONS : StopConditions :=
  {| maxIterations := 10; maxDurationMs := 1800000; noProgressThreshold := 3 |}.

(** The [ralph] section of the configuration, every key optional. *)
Record RalphConfig : Type := mkRalphConfig {
  max_iterations_cfg : option Z;
  max_duration_ms_cfg : option Z;
  no_progress_threshold_cfg : option Z
}.

Definition loadStopConditions (ralph : option RalphConfig) : StopConditions :=
  match ralph with
  | None => DEFAULT_STOP_CONDITIONS
  | Some r =>
      {| maxIterations :=
           default (maxIterations DEFAULT_STOP_CONDITIONS) (max_iterations_cfg r);
         maxDurationMs :=
           default (maxDurationMs DEFAULT_STOP_CONDITIONS) (max_duration_ms_cfg r);
         noProgressThreshold :=
           default (noProgressThreshold DEFAULT_STOP_CONDITIONS)
                   (no_progress_threshold_cfg r) |}
  end.

(** [shouldStop]; [now] is the reading of [new Date()] taken by the call. *)
Definition shouldStop (now : Z) (state : LoopRunState)
    (conditions : StopConditions) : option StopReason :=
  if maxIterations conditions <=? iterations state then
    Some {| reason := max_iterations;
            details := lit "Reached maximum iterations ("
                       ++ num_to_string (iterations state) ++ lit "/"
                       ++ num_to_string (maxIterations conditions) ++ lit ")" |}
  else
    let durationMs := now - startedAt state in
    if maxDurationMs conditions <=? durationMs then
      let durationMinutes := durationMs / 60000 in
      let maxMinutes := maxDurationMs conditions / 60000 in
      Some {| reason := max_duration;
              details := lit "Reached maximum duration ("
                         ++ num_to_string durationMinutes ++ lit "min/"
                         ++ num_to_string maxMinutes ++ lit "min)" |}
    else if noProgressThreshold conditions <=? noProgressCount state then
      Some {| reason := no_progress;
              details := lit "No progress detected for "
                         ++ num_to_string (noProgressCount state)
                         ++ lit " consecutive iterations" |}
    else None.

(** ** The heuristic progress detector *)

(** [(output.match(pattern) || []).length] *)
Definition matchCount (output : jsstring) (pattern : RegExp) : nat :=
  length (default [] (str_match output pattern)).

Definition errorPatterns : list RegExp :=
  [ re_gi (word (str "error"));
    re_gi (word (Seq (str "fail")
                     (Opt (Alt (str "ed") (Alt (str "ure") (str "s"))))));
    re_gi (word (str "exception"));
    re_gi (word (str "stack trace"));
    re_g (str "✗");
    re_g (str "✘") ].

(** Count error-like patterns in output. *)
Definition countErrors (output : jsstring) : nat :=
  fold_left
    (fun count pattern =>
       match str_match output pattern with
       | Some matches => (count + length matches)%nat
       | None => count
       end)
    errorPatterns O.

Definition progressPatterns : list RegExp :=
  [ re_i (word (Seq (str "passe") (Opt (str "d"))));
    re_i (word (str "success"));
    re_i (word (str "fixed"));
    re_i (word (str "resolved"));
    re_i (word (Seq (str "complete") (Opt (str "d"))));
    re_i (word (str "working"));
    re_plain (str "✓");
    re_plain (str "✔") ].

Definition regressionPatterns : list RegExp :=
  [ re_i (word (Seq (str "faile") (Opt (str "d"))));
    re_i (word (str "error"));
    re_i (word (str "exception"));
    re_plain (str "✗");
    re_plain (str "✘") ].

(** The loop [for (const pattern of patterns) { if (currentMatches >
    prevMatches) return ... }]: does some pattern, in order, match more
    often in the current output? *)
Fixpoint someIncrease (patterns : list RegExp)
    (prevOutput currentOutput : jsstring) : bool :=
  match patterns with
  | [] => false
  | pattern :: rest =>
      let prevMatches := matchCount prevOutput pattern in
      let currentMatches := matchCount currentOutput pattern in
      if (prevMatches <? currentMatches)%nat then true
      else someIncrease rest prevOutput currentOutput
  end.

(** [createSimpleProgressDetector().detectProgress] *)
Definition simpleDetectProgress (prevOutput currentOutput : jsstring) : bool :=
  if str_eqb prevOutput currentOutput then false
  else if negb (truthy (trim currentOutput)) && truthy (trim prevOutput)
  then false
  else
    let prevErrors := countErrors prevOutput in
    let currentErrors := countErrors currentOutput in
    if (currentErrors <? prevErrors)%nat then true
    else if (prevErrors <? currentErrors)%nat then false
    else if someIncrease progressPatterns prevOutput currentOutput then true
    else if someIncrease regressionPatterns prevOutput currentOutput then false
    else true.

(** ** The detector interface

    A detector may have state of its own (a delegate that is called, a
    log); [detectProgress] threads it.  The asynchronous result is the
    boolean the promise resolves with. *)
Record ProgressDetector (D : Type) : Type := mkProgressDetector {
  detectProgress : jsstring -> jsstring -> D -> bool * D
}.
Arguments mkProgressDetector {D} _.
Arguments detectProgress {D} _ _ _ _.

Definition createSimpleProgressDetector {D : Type} : ProgressDetector D :=
  mkProgressDetector
    (fun prevOutput currentOutput d =>
       (simpleDetectProgress prevOutput currentOutput, d)).

(** The delegated judge: resolves with a boolean or rejects ([None]). *)
Definition ClaudeProgressJudge (D : Type) : Type :=
  jsstring -> jsstring -> D -> option bool * D.

Definition createClaudeProgressDetector {D : Type}
    (judge : ClaudeProgressJudge D) : ProgressDetector D :=
  let simpleDetector := @createSimpleProgressDetector D in
  mkProgressDetector
    (fun prevOutput currentOutput d =>
       if str_eqb prevOutput currentOutput then (false, d)
       else
         match judge prevOutput currentOutput d with
         | (Some verdict, d') => (verdict, d')
         | (None, d') =>
             detectProgress simpleDetector prevOutput currentOutput d'
         end).

(** ** The stop condition manager

    The closure of [createStopConditionManager]: its captured variables. *)
Record StopConditionManager (D : Type) : Type := mkManager {
  conditions : StopConditions;
  detector : ProgressDetector D;
  state : LoopRunState;
  lastOutput : jsstring;
  detectorState : D
}.
Arguments mkManager {D} _ _ _ _ _.
Arguments conditions {D} _.
Arguments detector {D} _.
Arguments state {D} _.
Arguments lastOutput {D} _.
Arguments detectorState {D} _.

Definition createStopConditionManager {D : Type} (now : Z)
    (conds : StopConditions) (progressDetector : option (ProgressDetector D))
    (d0 : D) : StopConditionManager D :=
  {| conditions := conds;
     detector := default createSimpleProgressDetector progressDetector;
     state := {| iterations := 0; startedAt := now; noProgressCount := 0 |};
     lastOutput := [];
     detectorState := d0 |}.

Definition getState {D : Type} (m : StopConditionManager D) : LoopRunState :=
  state m.

Definition set_iterations (s : LoopRunState) (n : Z) : LoopRunState :=
  {| iterations := n; startedAt := startedAt s;
     noProgressCount := noProgressCount s |}.

Definition set_noProgressCount (s : LoopRunState) (n : Z) : LoopRunState :=
  {| iterations := iterations s; startedAt := startedAt s;
     noProgressCount := n |}.

(** [recordIteration(output)]: the value the promise resolves with and the
    manager afterwards. *)
Definition recordIteration {D : Type} (m : StopConditionManager D)
    (output : jsstring) : Z * StopConditionManager D :=
  let state1 := set_iterations (state m) (iterations (state m) + 1) in
  if iterations state1 =? 1 then
    (noProgressCount state1,
     mkManager (conditions m) (detector m) state1 output (detectorState m))
  else
    let '(hasProgress, d') :=
      detectProgress (detector m) (lastOutput m) output (detectorState m) in
    let state2 :=
      if hasProgress then set_noProgressCount state1 0
      else set_noProgressCount state1 (noProgressCount state1 + 1) in
    (noProgressCount state2,
     mkManager (conditions m) (detector m) state2 output d').

Definition managerShouldStop {D : Type} (now : Z) (m : StopConditionManager D)
  : option StopReason :=
  shouldStop now (state m) (conditions m).

Definition resetNoProgressCount {D : Type} (m : StopConditionManager D)
  : StopConditionManager D :=
  mkManager (conditions m) (detector m) (set_noProgressCount (state m) 0)
            (lastOutput m) (detectorState m).

(** The operations a caller can apply to a manager, and their effect in
    sequence. *)
Inductive ManagerCall : Type :=
  | CallRecord (output : jsstring)
  | CallReset.

Definition applyCall {D : Type} (m : StopConditionManager D) (c : ManagerCall)
  : StopConditionManager D :=
  match c with
  | CallRecord output => snd (recordIteration m output)
  | CallReset => resetNoProgressCount m
  end.

Definition applyCalls {D : Type} (m : StopConditionManager D)
    (cs : list ManagerCall) : StopConditionManager D :=
  fold_left applyCall cs m.

(** ** Further definitions for the statements *)

(** The number of [recordIteration] calls among the calls made. *)
Fixpoint records (cs : list ManagerCall) : Z :=
  match cs with
  | [] => 0
  | CallRecord _ :: rest => 1 + records rest
  | CallReset :: rest => records rest
  end.

(** Judges for the examples; their state counts how often they were
    asked.  One answers, the other fails. *)
Definition answeringJudge (verdict : bool) : ClaudeProgressJudge nat :=
  fun _ _ asked => (Some verdict, S asked).

Definition failingJudge : ClaudeProgressJudge nat :=
  fun _ _ asked => (None, S asked).

(** The no-progress counter lies between 0 and the number of
    comparisons made. *)
Definition counterInRange {D : Type} (m : StopConditionManager D) : Prop :=
  0 <= iterations (state m)
  /\ 0 <= noProgressCount (state m) <= Z.max 0 (iterations (state m) - 1).

(** A detector that reports no progress for identical outputs and
    leaves its state alone then. *)
Definition staleOnRepeat {D : Type} (det : ProgressDetector D) : Prop :=
  forall (output : jsstring) (d : D),
    detectProgress det output output d = (false, d).

(** A pattern that fixes the code unit its matches begin with, and that
    unit is not white space. *)
Definition beginsVisibly (p : RegExp) : Prop :=
  exists a, first_unit (source p) = Some a /\ is_white_space a = false.

End StopConditions.

(* ===================================================================== *)
(** * Success criteria evaluator (criteria.ts)                            *)
(* ===================================================================== *)

Module Criteria.
Import JS.

Inductive SuccessCriteriaType : Type :=
  | test_pass | build_success | lint_clean | type_check | custom.

Global Instance SuccessCriteriaType_eq_dec : EqDecision SuccessCriteriaType.
Proof. solve_decision. Defined.

(** The string value of a criteria type. *)
Definition typeName (t : SuccessCriteriaType) : jsstring :=
  match t with
  | test_pass => lit "test_pass"
  | build_success => lit "build_success"
  | lint_clean => lit "lint_clean"
  | type_check => lit "type_check"
  | custom => lit "custom"
  end.

Record SuccessCriteria : Type := mkCriteria {
  type : SuccessCriteriaType;
  command : option jsstring;
  timeout : option Z;
  expectedExitCode : option Z
}.

(** Result of evaluating a success criterion. *)
Record EvaluationResult : Type := mkResult {
  success : bool;
  output : jsstring;
  reason : jsstring;
  exitCode : option Z;
  suggestions : option (list jsstring)
}.

(** Options for criteria evaluation. *)
Record EvaluationOptions : Type := mkOptions {
  opt_timeout : option Z;
  opt_cwd : option jsstring
}.

Record CommandConfig : Type := mkCommand {
  cmd : jsstring;
  args : list jsstring
}.

(** Default commands for the built-in criteria types. *)
Definition DEFAULT_COMMANDS (t : SuccessCriteriaType) : CommandConfig :=
  match t with
  | test_pass => mkCommand (lit "npm") [lit "test"]
  | build_success => mkCommand (lit "npm") [lit "run"; lit "build"]
  | lint_clean => mkCommand (lit "npm") [lit "run"; lit "lint"]
  | type_check => mkCommand (lit "npx") [lit "tsc"; lit "--noEmit"]
  | custom => mkCommand [] []        (* not in the table; never looked up *)
  end.

(** Default timeout in milliseconds (2 minutes). *)
Definition DEFAULT_TIMEOUT : Z := 120000.

(** ** The process execution facility

    What a spawned shell command does, as [executeCommand] observes it:
    the data it has written to its pipes by a given time, and how it ends
    when left alone.  A process that is sent SIGTERM closes [closeDelay]
    milliseconds later. *)
Inductive ProcessEnd : Type :=
  | ExitsAt (t : Z) (code : option Z)   (* 'close' at time t; the code is
                                           null when a signal ended it *)
  | SpawnFails (message : jsstring)     (* 'error' *)
  | RunsForever.

Record Process : Type := mkProcess {
  stdoutBy : Z -> jsstring;
  stderrBy : Z -> jsstring;
  ending : ProcessEnd;
  closeDelay : Z
}.

(** What [executeCommand] does to the system, in order. *)
Inductive ProcEvent : Type :=
  | Spawned (fullCommand cwd : jsstring)
  | Killed (fullCommand signal : jsstring).

(** The system: which process a command spawns, given what happened so
    far, and the working directory of the host process. *)
Record OS : Type := mkOS {
  spawn : list ProcEvent -> jsstring -> jsstring -> Process;
  process_cwd : jsstring
}.

Record CommandResult : Type := mkCommandResult {
  res_exitCode : Z;
  res_stdout : jsstring;
  res_stderr : jsstring
}.

(** Does the process close or fail before the timer fires? *)
Definition settlesBefore (p : Process) (deadline : Z) : bool :=
  match ending p with
  | ExitsAt t _ => t <? deadline
  | SpawnFails _ => true
  | RunsForever => false
  end.

(** The full command string for shell execution. *)
Definition fullCommandLine (command : jsstring) (arguments : list jsstring)
  : jsstring :=
  match arguments with
  | [] => command
  | _ :: _ => command ++ lit " " ++ join (lit " ") arguments
  end.

(** Execute a command and return the result; the promise always
    resolves.  [log] is the history of process events. *)
Definition executeCommand (os : OS) (command : jsstring) (arguments : list jsstring)
    (options : EvaluationOptions) (log : list ProcEvent)
  : CommandResult * list ProcEvent :=
  let timeout := default DEFAULT_TIMEOUT (opt_timeout options) in
  let cwd := default (process_cwd os) (opt_cwd options) in
  let fullCommand := fullCommandLine command arguments in
  let proc := spawn os log fullCommand cwd in
  let log1 := log ++ [Spawned fullCommand cwd] in
  match ending proc with
  | SpawnFails message =>
      (mkCommandResult 1 [] message, log1)
  | ExitsAt t code =>
      if t <? timeout then
        (* closed before the timer: killed = false *)
        (mkCommandResult (default 1 code) (stdoutBy proc t) (stderrBy proc t),
         log1)
      else
        (* the timer fires first: killed = true, SIGTERM, then 'close' *)
        let closed := timeout + closeDelay proc in
        (mkCommandResult (-1) (stdoutBy proc closed) (stderrBy proc closed),
         log1 ++ [Killed fullCommand (lit "SIGTERM")])
  | RunsForever =>
      let closed := timeout + closeDelay proc in
      (mkCommandResult (-1) (stdoutBy proc closed) (stderrBy proc closed),
       log1 ++ [Killed fullCommand (lit "SIGTERM")])
  end.

(** [s.split(/\s+/)]: the pieces between maximal runs of white space. *)
Fixpoint split_ws (s : jsstring) (in_ws : bool) : list jsstring :=
  match s with
  | [] => [[]]
  | c :: rest =>
      if is_white_space c then
        if in_ws then split_ws rest true else [] :: split_ws rest true
      else
        match split_ws rest false with
        | p :: ps => (c :: p) :: ps
        | [] => [[c]]
        end
  end.

(** Parse a command string into command and args. *)
Definition parseCommand (commandStr : jsstring) : CommandConfig :=
  let parts := split_ws (trim commandStr) false in
  {| cmd := match parts with
            | p :: _ => if truthy p then p else []
            | [] => []
            end;
     args := drop 1 parts |}.

(** Get the command configuration for a criteria. *)
Definition getCommandConfig (criteria : SuccessCriteria) : CommandConfig :=
  match command criteria with
  | Some c =>
      if truthy c then parseCommand c
      else if decide (type criteria = custom) then mkCommand [] []
      else DEFAULT_COMMANDS (type criteria)
  | None =>
      if decide (type criteria = custom) then mkCommand [] []
      else DEFAULT_COMMANDS (type criteria)
  end.

(** [[...new Set(xs)]]: the distinct elements in order of first
    occurrence. *)
Fixpoint unique (seen xs : list jsstring) : list jsstring :=
  match xs with
  | [] => []
  | x :: rest =>
      if bool_decide (x ∈ seen) then unique seen rest
      else x :: unique (x :: seen) rest
  end.

Definition re_failed_test : RegExp :=
  re_g (Seq (str "FAIL")
            (Seq (Plus is_white_space)
                 (Plus (fun c => is_word_char c || (c =? 46)%N || (c =? 47)%N)))).

Definition re_ts_error : RegExp :=
  re_g (Seq (str "TS") (Seq (Plus is_digit) (str ":"))).

(** Analyze command output to extract suggestions. *)
Definition extractSuggestions (criteriaType : SuccessCriteriaType)
    (stdout stderr : jsstring) : list jsstring :=
  let out := stdout ++ stderr in
  let s1 :=
    if decide (criteriaType = test_pass) then
      match str_match out re_failed_test with
      | Some failedTests =>
          [lit "Fix failing tests: " ++ join (lit ", ") (take 3 failedTests)]
      | None => []
      end
      ++ (if includes out (lit "TypeError") || includes out (lit "ReferenceError")
          then [lit "Check for runtime errors in test files"] else [])
    else [] in
  let s2 :=
    if decide (criteriaType = build_success) then
      (if includes out (lit "Cannot find module")
       then [lit "Install missing dependencies"] else [])
      ++ (if includes out (lit "SyntaxError")
          then [lit "Fix syntax errors in source files"] else [])
    else [] in
  let s3 :=
    if decide (criteriaType = type_check) then
      match str_match out re_ts_error with
      | Some tsErrors =>
          let uniqueErrors := take 3 (unique [] tsErrors) in
          [lit "Fix TypeScript errors: " ++ join (lit ", ") uniqueErrors]
      | None => []
      end
    else [] in
  let s4 :=
    if decide (criteriaType = lint_clean) then
      (if includes out (lit "error") then [lit "Fix linting errors"] else [])
      ++ (if includes out (lit "warning")
          then [lit "Consider fixing linting warnings"] else [])
    else [] in
  s1 ++ s2 ++ s3 ++ s4.

(** [xs?.length ? xs : undefined] *)
Definition nonempty_or_undefined (xs : list jsstring) : option (list jsstring) :=
  match xs with [] => None | _ :: _ => Some xs end.

(** [criteria.timeout ?? options.timeout ?? DEFAULT_TIMEOUT] *)
Definition resolveTimeout (criteria : SuccessCriteria)
    (options : EvaluationOptions) : Z :=
  match timeout criteria with
  | Some t => t
  | None => default DEFAULT_TIMEOUT (opt_timeout options)
  end.

(** Evaluate a single criterion. *)
Definition evaluate (os : OS) (criteria : SuccessCriteria)
    (options : EvaluationOptions) (log : list ProcEvent)
  : EvaluationResult * list ProcEvent :=
  let commandConfig := getCommandConfig criteria in
  if bool_decide (type criteria = custom) && negb (truthy (cmd commandConfig))
  then
    (mkResult false [] (lit "Custom criteria requires a command") None None, log)
  else if negb (truthy (cmd commandConfig)) then
    (mkResult false [] (lit "No command specified") None None, log)
  else
    let timeout := resolveTimeout criteria options in
    let '(result, log') :=
      executeCommand os (cmd commandConfig) (args commandConfig)
        {| opt_timeout := Some timeout; opt_cwd := opt_cwd options |} log in
    if res_exitCode result =? -1 then
      (mkResult false (res_stdout result ++ res_stderr result)
                (lit "Command timed out") (Some (-1))
                (Some [lit "Increase timeout or optimize the command"]),
       log')
    else
      let expected := default 0 (expectedExitCode criteria) in
      let ok := res_exitCode result =? expected in
      let out := res_stdout result ++ res_stderr result in
      let suggestions :=
        if ok then None
        else Some (extractSuggestions (type criteria)
                     (res_stdout result) (res_stderr result)) in
      let reason :=
        if ok then typeName (type criteria) ++ lit " passed"
        else typeName (type criteria) ++ lit " failed with exit code "
             ++ num_to_string (res_exitCode result) in
      (mkResult ok out reason (Some (res_exitCode result))
                (match suggestions with
                 | Some xs => nonempty_or_undefined xs
                 | None => None
                 end),
       log').

(** One block of the combined output. *)
Definition outputBlock (criterion : SuccessCriteria) (result : EvaluationResult)
  : jsstring :=
  lit "[" ++ typeName (type criterion) ++ lit "]" ++ LF ++ output result.

Section EvaluateAll.
(** The state the evaluation threads ([W]) and the single-criterion
    evaluation [this.evaluate]. *)
Context {W : Type}.
Variable this_evaluate :
  SuccessCriteria -> EvaluationOptions -> W -> EvaluationResult * W.

(** The [for] loop of [evaluateAll] with its accumulators; [total] is
    [criteria.length]. *)
Fixpoint evaluateAllLoop (total : nat) (remaining : list SuccessCriteria)
    (options : EvaluationOptions)
    (allOutput allSuggestions : list jsstring) (w : W)
  : EvaluationResult * W :=
  match remaining with
  | [] =>
      (mkResult true (join (LF ++ LF) allOutput)
         (lit "All " ++ num_to_string (Z.of_nat total) ++ lit " criteria passed")
         None None,
       w)
  | criterion :: rest =>
      let '(result, w') := this_evaluate criterion options w in
      let allOutput' := allOutput ++ [outputBlock criterion result] in
      let allSuggestions' :=
        allSuggestions ++ default [] (suggestions result) in
      if negb (success result) then
        (mkResult false (join (LF ++ LF) allOutput') (reason result)
           (exitCode result) (nonempty_or_undefined allSuggestions'),
         w')
      else
        evaluateAllLoop total rest options allOutput' allSuggestions' w'
  end.

(** Evaluate multiple criteria (all must pass). *)
Definition evaluateAllWith (criteria : list SuccessCriteria)
    (options : EvaluationOptions) (w : W) : EvaluationResult * W :=
  match criteria with
  | [] => (mkResult true [] (lit "No criteria to evaluate") None None, w)
  | _ :: _ => evaluateAllLoop (length criteria) criteria options [] [] w
  end.
End EvaluateAll.

(** [createCriteriaEvaluator().evaluateAll] *)
Definition evaluateAll (os : OS) (criteria : list SuccessCriteria)
    (options : EvaluationOptions) (log : list ProcEvent)
  : EvaluationResult * list ProcEvent :=
  evaluateAllWith (evaluate os) criteria options log.

(** ** Definitions for the statements *)

(** Run the criteria in the given order and stop after the first one that
    fails: the criteria run, each with its result, and the state
    afterwards. *)
Fixpoint runUntilFailure {W : Type}
    (ev : SuccessCriteria -> EvaluationOptions -> W -> EvaluationResult * W)
    (criteria : list SuccessCriteria) (options : EvaluationOptions) (w : W)
  : list (SuccessCriteria * EvaluationResult) * W :=
  match criteria with
  | [] => ([], w)
  | criterion :: rest =>
      let '(result, w') := ev criterion options w in
      if success result then
        let '(ran, w'') := runUntilFailure ev rest options w' in
        ((criterion, result) :: ran, w'')
      else ([(criterion, result)], w')
  end.

(** The command is still running when its timeout expires. *)
Definition exceedsTimeout (p : Process) (deadline : Z) : Prop :=
  match ending p with
  | ExitsAt t _ => deadline < t
  | RunsForever => True
  | SpawnFails _ => False
  end.

Definition blockOf (cr : SuccessCriteria * EvaluationResult) : jsstring :=
  outputBlock (fst cr) (snd cr).

(** A system for the examples: the test suite passes, the type check
    fails, and [sleep] outlives every timeout. *)
Definition exampleOS : OS :=
  mkOS
    (fun _ line _ =>
       if str_eqb line (lit "npm test") then
         mkProcess (fun _ => lit "12 passed") (fun _ => []) (ExitsAt 900 (Some 0)) 5
       else if str_eqb line (lit "npx tsc --noEmit") then
         mkProcess (fun _ => lit "a.ts(1,1): error TS2322: bad") (fun _ => [])
                   (ExitsAt 700 (Some 2)) 5
       else if str_eqb line (lit "sleep 600") then
         mkProcess (fun t => if t <? 1000 then [] else lit "tick") (fun _ => [])
                   (ExitsAt 600000 (Some 0)) 20
       else mkProcess (fun _ => []) (fun _ => []) (ExitsAt 10 (Some 0)) 5)
    (lit "/work").

Definition noOptions : EvaluationOptions := mkOptions None None.

(** ** The evaluator with a delegated judgment *)

Record ClaudeJudgment : Type := mkJudgment {
  j_success : bool;
  j_reason : jsstring;
  j_suggestions : list jsstring
}.

(** The judge: called with the criteria type, the output and the exit
    code, it resolves with a judgment or rejects ([None]); [J] is the
    state of its own that it threads. *)
Definition ClaudeJudgeFunction (J : Type) : Type :=
  SuccessCriteriaType -> jsstring -> Z -> J -> option ClaudeJudgment * J.

(** [createCriteriaEvaluatorWithClaude(claudeJudge).evaluate] *)
Definition evaluateWithClaude {J : Type} (os : OS)
    (claudeJudge : ClaudeJudgeFunction J) (criteria : SuccessCriteria)
    (options : EvaluationOptions) (w : list ProcEvent * J)
  : EvaluationResult * (list ProcEvent * J) :=
  let '(log, j) := w in
  let '(baseResult, log') := evaluate os criteria options log in
  match exitCode baseResult with
  | None => (baseResult, (log', j))
  | Some code =>
      if code =? -1 then (baseResult, (log', j))
      else
        match claudeJudge (type criteria) (output baseResult) code j with
        | (Some judgment, j') =>
            (mkResult (j_success judgment) (output baseResult)
               (j_reason judgment) (Some code)
               (nonempty_or_undefined (j_suggestions judgment)),
             (log', j'))
        | (None, j') => (baseResult, (log', j'))
        end
  end.

(** [createCriteriaEvaluatorWithClaude(claudeJudge).evaluateAll]: the
    same loop over its own [evaluate]. *)
Definition evaluateAllWithClaude {J : Type} (os : OS)
    (claudeJudge : ClaudeJudgeFunction J) (criteria : list SuccessCriteria)
    (options : EvaluationOptions) (w : list ProcEvent * J)
  : EvaluationResult * (list ProcEvent * J) :=
  evaluateAllWith (evaluateWithClaude os claudeJudge) criteria options w.

(** ** Further definitions for the statements *)

(** A word of a command line: not empty and free of white space. *)
Definition isToken (t : jsstring) : bool :=
  truthy t && forallb (fun u => negb (is_white_space u)) t.

(** The suggestions of the criteria run, in order. *)
Definition suggestionsOf (ran : list (SuccessCriteria * EvaluationResult))
  : list jsstring :=
  concat (map (fun cr => default [] (suggestions (snd cr))) ran).

(** Judges for the examples; their state counts how often they were
    asked.  One overrules every result, the other fails. *)
Definition approvingJudge : ClaudeJudgeFunction nat :=
  fun _ _ _ asked => (Some (mkJudgment true (lit "acceptable") []), S asked).

Definition unavailableJudge : ClaudeJudgeFunction nat :=
  fun _ _ _ asked => (None, S asked).

End Criteria.

(* ===================================================================== *)
(** * File snapshot manager (snapshot.ts)                                 *)
(* ===================================================================== *)

Module Snapshot.
Import JS.

(** ** Paths

    A path is held as its list of components below the root, which is the
    form [path.join] normalises to; [join] appends and normalises,
    [dirname] drops the last component. *)
Abbreviation Path := (list jsstring).

(** Split a path string at the separators. *)
Fixpoint split_sep (s : jsstring) : list jsstring :=
  match s with
  | [] => [[]]
  | c :: rest =>
      if (c =? 47)%N then [] :: split_sep rest
      else match split_sep rest with
           | p :: ps => (c :: p) :: ps
           | [] => [[c]]
           end
  end.

(** Normalise components below the root: drop empty and [.] components,
    let [..] remove the component before it (the root is its own
    parent).  [stack] holds the components kept so far, last first. *)
Fixpoint normalizeOnto (stack : Path) (segs : list jsstring) : Path :=
  match segs with
  | [] => rev stack
  | seg :: rest =>
      if str_eqb seg [] || str_eqb seg (lit ".") then normalizeOnto stack rest
      else if str_eqb seg (lit "..") then normalizeOnto (drop 1 stack) rest
      else normalizeOnto (seg :: stack) rest
  end.

(** [join(base, relative)] *)
Definition join (base : Path) (relative : jsstring) : Path :=
  normalizeOnto (rev base) (split_sep relative).

Definition dirname (p : Path) : Path := removelast p.

(** The path as text, for messages. *)
Definition render (p : Path) : jsstring :=
  flat_map (fun seg => lit "/" ++ seg) p.

(** ** JSON values, as [JSON.parse] returns them *)
#[local] Set Warnings "-register-all".
Inductive Json : Type :=
  | JNull
  | JBool (b : bool)
  | JNum (n : Z)
  | JStr (s : jsstring)
  | JArr (items : list Json)
  | JObj (fields : list (jsstring * Json)).

(** ** The file system

    A regular file holds either a JSON document (given by its value) or
    text that does not parse as JSON. *)
Inductive Content : Type :=
  | Document (v : Json)
  | Text (s : jsstring).

Inductive Node : Type :=
  | File (content : Content)
  | Dir.

Abbreviation FileSystem := (gmap (list jsstring) Node).

(** Exceptions are modelled by their message. *)
Inductive result (A : Type) : Type :=
  | Ok (a : A)
  | Throw (message : jsstring).
Arguments Ok {A} _.
Arguments Throw {A} _.

Definition bind {A B : Type} (r : result A) (k : A -> result B) : result B :=
  match r with
  | Ok a => k a
  | Throw m => Throw m
  end.

Global Instance result_bind : MBind result := fun A B k r => bind r k.
Global Instance result_ret : MRet result := @Ok.

(** The node at a path; the root is a directory. *)
Definition node_at (fs : FileSystem) (p : Path) : option Node :=
  match p with
  | [] => Some Dir
  | _ :: _ => fs !! p
  end.

Definition existsSync (fs : FileSystem) (p : Path) : bool :=
  match node_at fs p with Some _ => true | None => false end.

(** [mkdirSync(p, { recursive: true })]: create the missing directories
    along [base ++ segs], from [base] downwards. *)
Fixpoint mkdirs (base : Path) (segs : list jsstring) (fs : FileSystem)
  : result FileSystem :=
  match segs with
  | [] => Ok fs
  | seg :: rest =>
      let p := base ++ [seg] in
      match fs !! p with
      | Some (File _) =>
          Throw (lit "EEXIST: file already exists, mkdir " ++ render p)
      | Some Dir => mkdirs p rest fs
      | None => mkdirs p rest (<[p := Dir]> fs)
      end
  end.

Definition mkdirSync (fs : FileSystem) (p : Path) : result FileSystem :=
  mkdirs [] p fs.

(** [copyFileSync(src, dest)] *)
Definition copyFileSync (fs : FileSystem) (src dest : Path)
  : result FileSystem :=
  match node_at fs src with
  | None => Throw (lit "ENOENT: no such file or directory, copyfile " ++ render src)
  | Some Dir => Throw (lit "EISDIR: illegal operation on a directory, copyfile " ++ render src)
  | Some (File content) =>
      match node_at fs (dirname dest), node_at fs dest with
      | Some Dir, Some Dir =>
          Throw (lit "EISDIR: illegal operation on a directory, copyfile " ++ render dest)
      | Some Dir, _ => Ok (<[dest := File content]> fs)
      | _, _ =>
          Throw (lit "ENOENT: no such file or directory, copyfile " ++ render dest)
      end
  end.

(** [JSON.parse(readFileSync(p, "utf-8"))] *)
Definition readJson (fs : FileSystem) (p : Path) : result Json :=
  match node_at fs p with
  | Some (File (Document v)) => Ok v
  | Some (File (Text _)) => Throw (lit "SyntaxError: Unexpected token in JSON")
  | Some Dir => Throw (lit "EISDIR: illegal operation on a directory, read")
  | None => Throw (lit "ENOENT: no such file or directory, open " ++ render p)
  end.

(** ** Reading the manifest *)

Fixpoint lookup_field (name : jsstring) (fields : list (jsstring * Json))
  : option Json :=
  match fields with
  | [] => None
  | (k, v) :: rest =>
      (* a later duplicate key wins in JSON.parse *)
      match lookup_field name rest with
      | Some v' => Some v'
      | None => if str_eqb k name then Some v else None
      end
  end.

(** [metadata.files]: [undefined] ([None]) unless the document is an
    object with that key; reading a property of [null] throws. *)
Definition get_files (metadata : Json) : result (option Json) :=
  match metadata with
  | JNull => Throw (lit "TypeError: Cannot read properties of null (reading 'files')")
  | JObj fields => Ok (lookup_field (lit "files") fields)
  | _ => Ok None
  end.

Definition json_truthy (v : Json) : bool :=
  match v with
  | JNull => false
  | JBool b => b
  | JNum n => negb (n =? 0)
  | JStr s => truthy s
  | JArr _ | JObj _ => true
  end.

(** The strings the iterator of a string yields: its code points, a
    surrogate pair being one of them. *)
Fixpoint code_points (s : jsstring) : list jsstring :=
  match s with
  | [] => []
  | hi :: rest =>
      match rest with
      | lo :: rest' =>
          if ((55296 <=? hi) && (hi <=? 56319)
              && (56320 <=? lo) && (lo <=? 57343))%N
          then [hi; lo] :: code_points rest'
          else [hi] :: code_points rest
      | [] => [[hi]]
      end
  end.

(** The values [for (const file of files)] visits, for [files] the value
    of [metadata.files || []]. *)
Definition iterate_files (v : option Json) : result (list Json) :=
  match v with
  | None => Ok []
  | Some j =>
      if negb (json_truthy j) then Ok []
      else match j with
           | JArr items => Ok items
           | JStr s => Ok (map JStr (code_points s))
           | _ => Throw (lit "TypeError: files is not iterable")
           end
  end.

(** [join(base, file)] where [file] comes from the manifest: the
    arguments of [path.join] must be strings. *)
Definition joinJson (base : Path) (file : Json) : result Path :=
  match file with
  | JStr s => Ok (join base s)
  | _ => Throw (lit "TypeError: The 'path' argument must be of type string")
  end.

Definition META : jsstring := lit ".snapshot-meta.json".

Section Manager.
(** [createSnapshotManager(projectPath)] *)
Variable projectPath : Path.

(** The body of the loop of [restore] for one manifest entry. *)
Definition restoreFile (snapshotPath : Path) (file : Json) (fs : FileSystem)
  : result FileSystem :=
  srcPath ← joinJson snapshotPath file;
  destPath ← joinJson projectPath file;
  if existsSync fs srcPath then
    fs1 ← mkdirSync fs (dirname destPath);
    copyFileSync fs1 srcPath destPath
  else Ok fs.

Fixpoint restoreFiles (snapshotPath : Path) (files : list Json)
    (fs : FileSystem) : result FileSystem :=
  match files with
  | [] => Ok fs
  | file :: rest =>
      fs' ← restoreFile snapshotPath file fs;
      restoreFiles snapshotPath rest fs'
  end.

(** [restore(snapshotPath)]: the promise resolves ([Ok], with the file
    system afterwards) or rejects ([Throw]). *)
Definition restore (snapshotPath : Path) (fs : FileSystem)
  : result FileSystem :=
  if negb (existsSync fs snapshotPath) then
    Throw (lit "Snapshot not found: " ++ render snapshotPath)
  else
    let metaPath := join snapshotPath META in
    if negb (existsSync fs metaPath) then
      Throw (lit "Invalid snapshot: missing metadata at " ++ render snapshotPath)
    else
      metadata ← readJson fs metaPath;
      listed ← get_files metadata;
      files ← iterate_files listed;
      restoreFiles snapshotPath files fs.
End Manager.

(** ** Definitions for the statements *)

Definition isFile (fs : FileSystem) (p : Path) : bool :=
  match node_at fs p with Some (File _) => true | _ => false end.

Definition isDir (fs : FileSystem) (p : Path) : bool :=
  match node_at fs p with Some Dir => true | _ => false end.

(** The directories from [base] (excluded) down to [base ++ segs]. *)
Fixpoint dirsAlong (base : Path) (segs : list jsstring) : list Path :=
  match segs with
  | [] => []
  | seg :: rest => (base ++ [seg]) :: dirsAlong (base ++ [seg]) rest
  end.

(** The directories above a path, below the root. *)
Definition ancestors (p : Path) : list Path := dirsAlong [] (dirname p).

(** The paths a copy to [dest] writes: the file and the directories
    created for it. *)
Definition written (dest : Path) : list Path := dest :: ancestors dest.

(** One entry of a manifest as a copy job: where the copy is in the
    snapshot and where it goes. *)
Definition jobOf (snapshotPath projectPath : Path) (file : jsstring)
  : Path * Path :=
  (join snapshotPath file, join projectPath file).

(** A copy job can be carried out, and does not disturb the others:
    its source is a regular file or absent; if present, nothing on the
    way to its destination is a regular file, the destination is not a
    directory, no source lies on the paths it writes, and no other job
    present writes through its destination. *)
Definition Safe (fs : FileSystem) (all : list (Path * Path))
    (j : Path * Path) : Prop :=
  isDir fs j.1 = false
  /\ (existsSync fs j.1 = true ->
      Forall (fun a => isFile fs a = false) (ancestors j.2)
      /\ isDir fs j.2 = false
      /\ Forall (fun j' =>
                   (j'.1 ∉ written j.2)
                   /\ (existsSync fs j'.1 = true -> j.2 ∈ written j'.2 -> j' = j))
                all).

Definition Restorable (fs : FileSystem) (jobs : list (Path * Path)) : Prop :=
  Forall (Safe fs jobs) jobs.

Global Instance Safe_dec fs all j : Decision (Safe fs all j).
Proof. unfold Safe. apply _. Defined.

Global Instance Restorable_dec fs jobs : Decision (Restorable fs jobs).
Proof. unfold Restorable. apply _. Defined.

(** The loop of [restore] over copy jobs. *)
Definition copyJob (fs : FileSystem) (j : Path * Path) : result FileSystem :=
  if existsSync fs j.1 then
    fs1 ← mkdirSync fs (dirname j.2);
    copyFileSync fs1 j.1 j.2
  else Ok fs.

Fixpoint copyJobs (jobs : list (Path * Path)) (fs : FileSystem)
  : result FileSystem :=
  match jobs with
  | [] => Ok fs
  | j :: rest => fs' ← copyJob fs j; copyJobs rest fs'
  end.

(** ** Example: a project, one snapshot, and a directory without manifest *)
Definition projectDir : Path := [lit "proj"].

Definition snapshotDir : Path :=
  [lit "proj"; lit ".ralph-mem"; lit "snapshots"; lit "loop-001"].

Definition emptyDir : Path :=
  [lit "proj"; lit ".ralph-mem"; lit "snapshots"; lit "broken"].

Definition manifest : Json :=
  JObj [ (lit "runId", JStr (lit "loop-001"));
         (lit "createdAt", JStr (lit "2025-01-17T00:00:00.000Z"));
         (lit "files", JArr [JStr (lit "a.txt"); JStr (lit "src/b.ts");
                             JStr (lit "gone.txt")]) ].

Definition exampleFS : FileSystem :=
  list_to_map
    [ (projectDir, Dir);
      ([lit "proj"; lit ".ralph-mem"], Dir);
      ([lit "proj"; lit ".ralph-mem"; lit "snapshots"], Dir);
      (snapshotDir, Dir);
      (emptyDir, Dir);
      (snapshotDir ++ [META], File (Document manifest));
      (snapshotDir ++ [lit "a.txt"], File (Text (lit "a, as snapshotted")));
      (snapshotDir ++ [lit "src"], Dir);
      (snapshotDir ++ [lit "src"; lit "b.ts"], File (Text (lit "b, as snapshotted")));
      (projectDir ++ [lit "a.txt"], File (Text (lit "a, edited")));
      (projectDir ++ [lit "gone.txt"], File (Text (lit "created later"))) ].

(** ** Deleting a snapshot *)

(** [rmSync(p, { recursive: true })]: remove the node at [p] and
    everything below it; without [force] a missing path is an error. *)
Definition rmSync (fs : FileSystem) (p : Path) : result FileSystem :=
  if existsSync fs p then
    Ok (filter (fun entry => ~ (p `prefix_of` entry.1)) fs)
  else Throw (lit "ENOENT: no such file or directory, rm " ++ render p).

(** [delete(snapshotPath)] of the manager ([delete] itself names the
    operation on maps). *)
Definition deleteSnapshot (snapshotPath : Path) (fs : FileSystem)
  : result FileSystem :=
  if existsSync fs snapshotPath then rmSync fs snapshotPath else Ok fs.

(** ** The modified files of a project *)

(** What the three git commands print when run in the project
    directory; [None] when the command fails ([execSync] throws). *)
Record Git : Type := mkGit {
  staged : option jsstring;      (* git diff --cached --name-only *)
  unstaged : option jsstring;    (* git diff --name-only *)
  untracked : option jsstring    (* git ls-files --others --exclude-standard *)
}.

(** [s.split("\n")] *)
Fixpoint split_lines (s : jsstring) : list jsstring :=
  match s with
  | [] => [[]]
  | c :: rest =>
      if (c =? 10)%N then [] :: split_lines rest
      else match split_lines rest with
           | p :: ps => (c :: p) :: ps
           | [] => [[c]]
           end
  end.

(** [for (const line of out.split("\n")) if (line.trim())
    files.add(line.trim())], the set held in insertion order. *)
Definition addLines (files : list jsstring) (out : jsstring) : list jsstring :=
  fold_left
    (fun files line =>
       if truthy (trim line) then
         if bool_decide (trim line ∈ files) then files
         else files ++ [trim line]
       else files)
    (split_lines out) files.

(** Get modified files using git diff: paths relative to the project
    root. *)
Definition getModifiedFiles (git : Git) (projectPath : Path) (fs : FileSystem)
  : list jsstring :=
  let gitDir := join projectPath (lit ".git") in
  if negb (existsSync fs gitDir) then []
  else
    match staged git with
    | None => []
    | Some stagedOut =>
        match unstaged git with
        | None => []
        | Some unstagedOut =>
            match untracked git with
            | None => []
            | Some untrackedOut =>
                let files :=
                  addLines (addLines (addLines [] (trim stagedOut))
                                     (trim unstagedOut))
                           (trim untrackedOut) in
                List.filter (fun file => existsSync fs (join projectPath file))
                            files
            end
        end
    end.

(** ** Creating a snapshot *)

(** [writeFileSync(p, data)] *)
Definition writeFileSync (fs : FileSystem) (p : Path) (content : Content)
  : result FileSystem :=
  match node_at fs (dirname p), node_at fs p with
  | Some Dir, Some Dir =>
      Throw (lit "EISDIR: illegal operation on a directory, open " ++ render p)
  | Some Dir, _ => Ok (<[p := File content]> fs)
  | _, _ => Throw (lit "ENOENT: no such file or directory, open " ++ render p)
  end.

Section Creation.
(** [createSnapshotManager(projectPath)]; [snapshotsDir] is the value of
    [getSnapshotsDir(projectPath)], a directory fixed by core/db/paths. *)
Variable projectPath : Path.
Variable snapshotsDir : Path.

(** The body of the loop of [create] for one modified file. *)
Definition snapshotFile (snapshotPath : Path) (file : jsstring)
    (fs : FileSystem) : result FileSystem :=
  let srcPath := join projectPath file in
  let destPath := join snapshotPath file in
  fs1 ← mkdirSync fs (dirname destPath);
  copyFileSync fs1 srcPath destPath.

Fixpoint snapshotFiles (snapshotPath : Path) (files : list jsstring)
    (fs : FileSystem) : result FileSystem :=
  match files with
  | [] => Ok fs
  | file :: rest =>
      fs' ← snapshotFile snapshotPath file fs;
      snapshotFiles snapshotPath rest fs'
  end.

(** The manifest [create] writes; [createdAt] is the text of
    [new Date().toISOString()]. *)
Definition metadataOf (runId createdAt : jsstring)
    (modifiedFiles : list jsstring) : Json :=
  JObj [ (lit "runId", JStr runId);
         (lit "createdAt", JStr createdAt);
         (lit "files", JArr (map JStr modifiedFiles)) ].

(** [create(runId)]: the promise resolves with the snapshot path ([Ok],
    with the file system afterwards) or rejects ([Throw]). *)
Definition create (git : Git) (createdAt : jsstring) (runId : jsstring)
    (fs : FileSystem) : result (Path * FileSystem) :=
  let snapshotPath := join snapshotsDir runId in
  fs1 ← mkdirSync fs snapshotPath;
  let modifiedFiles := getModifiedFiles git projectPath fs1 in
  fs2 ← snapshotFiles snapshotPath modifiedFiles fs1;
  fs3 ← writeFileSync fs2 (join snapshotPath META)
          (Document (metadataOf runId createdAt modifiedFiles));
  Ok (snapshotPath, fs3).
End Creation.

(** ** Further definitions for the statements *)

(** One modified file as a copy job of [create]: from the project into
    the snapshot. *)
Definition jobInto (projectPath snapshotPath : Path) (file : jsstring)
  : Path * Path :=
  (join projectPath file, join snapshotPath file).

(** The non-blank lines of an output, trimmed. *)
Definition namesIn (out : jsstring) : list jsstring :=
  List.filter truthy (map trim (split_lines out)).

(** The place of the manifest is free: it is not a directory, and no
    copy of a modified file is written to it or through it. *)
Definition ManifestFree (fs : FileSystem) (snapshotPath : Path)
    (files : list jsstring) : Prop :=
  isDir fs (join snapshotPath META) = false
  /\ Forall (fun f => join snapshotPath META ∉ written (join snapshotPath f))
            files.

Global Instance ManifestFree_dec fs snapshotPath files :
  Decision (ManifestFree fs snapshotPath files).
Proof. unfold ManifestFree. apply _. Defined.

(** Example: a repository with one edited and one new file. *)
Definition dataDir : Path := [lit "proj"; lit ".ralph-mem"; lit "snapshots"].

Definition repoFS : FileSystem :=
  list_to_map
    [ (projectDir, Dir);
      (projectDir ++ [lit ".git"], Dir);
      (projectDir ++ [lit "a.txt"], File (Text (lit "a, edited")));
      (projectDir ++ [lit "src"], Dir);
      (projectDir ++ [lit "src"; lit "b.ts"], File (Text (lit "b, new"))) ].

Definition repoGit : Git :=
  mkGit (Some []) (Some (lit "a.txt" ++ LF ++ lit "deleted.txt" ++ LF))
        (Some (lit "src/b.ts" ++ LF ++ lit "a.txt" ++ LF)).

(** The repository once its snapshot "loop-7" exists, and later, with one
    of the files changed and the other removed. *)
Definition snapshottedFS : FileSystem :=
  match create projectDir dataDir repoGit (lit "2025-01-17T00:00:00.000Z")
               (lit "loop-7") repoFS with
  | Ok (_, fs) => fs
  | Throw _ => ∅
  end.

Definition laterFS : FileSystem :=
  <[projectDir ++ [lit "a.txt"] := File (Text (lit "a, broken"))]>
    (delete (projectDir ++ [lit "src"; lit "b.ts"]) snapshottedFS).

End Snapshot.

(* ===================================================================== *)
(** * The persistence collaborator (core/db)                              *)
(* ===================================================================== *)

Module DB.
Import JS.

Inductive ObservationType : Type :=
  | tool_use | bash | error | success_obs | note.

(** Loop status: "running" | "success" | "failed" | "stopped" *)
Inductive LoopStatus : Type := running | success | failed | stopped.

Global Instance LoopStatus_eq_dec : EqDecision LoopStatus.
Proof. solve_decision. Defined.

(** A row of the loop_runs table; times are in milliseconds. *)
Record LoopRun : Type := mkLoopRun {
  id : jsstring;
  session_id : jsstring;
  task : jsstring;
  criteria : list Criteria.SuccessCriteria;   (* stored as a JSON string *)
  status : LoopStatus;
  iterations : Z;
  max_iterations : Z;
  started_at : Z;
  ended_at : option Z;
  snapshot_path : option jsstring
}.

(** A row of the observations table, as the engine writes it; the
    importance is in tenths. *)
Record Observation : Type := mkObservation {
  obs_session_id : jsstring;
  obs_type : ObservationType;
  obs_content : jsstring;
  obs_importance : Z;
  obs_loop_run_id : option jsstring;
  obs_iteration : option Z
}.

(** The database behind a client: its two tables, rows in insertion
    order. *)
Record Client : Type := mkClient {
  loop_runs : list LoopRun;
  observations : list Observation
}.

(** The fields [updateLoopRun] is given by the engine. *)
Record LoopRunUpdate : Type := mkUpdate {
  upd_status : option LoopStatus;
  upd_iterations : option Z;
  upd_ended_at : option Z
}.

(** Modelled from the spec: the client of core/db/client.ts is missing;
    [createLoopRun] inserts a row with a fresh id and the defaults of the
    loop_runs schema (status running, iterations 0, no end time) and
    returns it. *)
Definition createLoopRun (now : Z) (session task : jsstring)
    (crit : list Criteria.SuccessCriteria) (maxIterations : Z) (c : Client)
  : LoopRun * Client :=
  let run :=
    {| id := lit "loop-" ++ num_to_string (Z.of_nat (length (loop_runs c)));
       session_id := session; task := task; criteria := crit;
       status := running; iterations := 0; max_iterations := maxIterations;
       started_at := now; ended_at := None; snapshot_path := None |} in
  (run, mkClient (loop_runs c ++ [run]) (observations c)).

(** Modelled from the spec: the client of core/db/client.ts is missing;
    [getLoopRun] reads the row with the given id back. *)
Definition getLoopRun (run_id : jsstring) (c : Client) : option LoopRun :=
  find (fun r => str_eqb (id r) run_id) (loop_runs c).

(** Modelled from the spec: the client of core/db/client.ts is missing;
    [getActiveLoopRun] is the Running run of the session, if there is
    one (the latest, should there be several). *)
Definition getActiveLoopRun (session : jsstring) (c : Client) : option LoopRun :=
  find (fun r => str_eqb (session_id r) session
                 && bool_decide (status r = running))
       (rev (loop_runs c)).

Definition applyUpdate (u : LoopRunUpdate) (r : LoopRun) : LoopRun :=
  {| id := id r; session_id := session_id r; task := task r;
     criteria := criteria r;
     status := default (status r) (upd_status u);
     iterations := default (iterations r) (upd_iterations u);
     max_iterations := max_iterations r;
     started_at := started_at r;
     ended_at := match upd_ended_at u with
                 | Some t => Some t
                 | None => ended_at r
                 end;
     snapshot_path := snapshot_path r |}.

(** Modelled from the spec: the client of core/db/client.ts is missing;
    [updateLoopRun] overwrites the given fields of the row with the given
    id. *)
Definition updateLoopRun (run_id : jsstring) (u : LoopRunUpdate) (c : Client)
  : Client :=
  mkClient
    (map (fun r => if str_eqb (id r) run_id then applyUpdate u r else r)
         (loop_runs c))
    (observations c).

(** Modelled from the spec: the client of core/db/client.ts is missing;
    [createObservation] appends an observation. *)
Definition createObservation (o : Observation) (c : Client) : Client :=
  mkClient (loop_runs c) (observations c ++ [o]).

End DB.

(* ===================================================================== *)
(** * The loop engine (engine.ts)                                         *)
(* ===================================================================== *)

Module Engine.
Import JS.

Record LoopOptions : Type := mkLoopOptions {
  opt_criteria : option (list Criteria.SuccessCriteria);
  opt_maxIterations : option Z;
  opt_cooldownMs : option Z
}.

Inductive LoopReason : Type :=
  | reason_success | reason_max_iterations | reason_stopped | reason_error.

Record LoopResult : Type := mkLoopResult {
  success : bool;
  iterations : Z;
  reason : LoopReason;
  loopRunId : jsstring;
  error : option jsstring
}.

Record IterationContext : Type := mkContext {
  iteration : Z;
  task : jsstring;
  ctx_loopRunId : jsstring
}.

Record IterationResult : Type := mkIterationResult {
  it_success : bool;
  it_output : option jsstring;
  it_error : option jsstring
}.

(** How the promise of an iteration callback settles. *)
Inductive Settled : Type :=
  | Fulfilled (result : IterationResult)
  | RejectedWith (message : jsstring).     (* the message of the error *)

(** One run of the host's iteration callback, as the engine sees it: how
    long it is in flight, whether [stop()] is called on the engine in the
    meantime, and how its promise settles. *)
Record CallbackRun : Type := mkCallbackRun {
  duration : Z;
  callsStop : bool;
  settles : Settled
}.

Definition IterationCallback : Type := IterationContext -> CallbackRun.

(** What the observers of the engine are shown, in order.  An observer
    slot holds the identity of the registered handler. *)
Inductive Notification : Type :=
  | IterationStarted (handler : nat) (context : IterationContext)
  | IterationEnded (handler : nat) (context : IterationContext)
                   (result : IterationResult)
  | Completed (handler : nat) (result : LoopResult).

(** The [ralph] defaults of the configuration. *)
Record RalphConfig : Type := mkRalphConfig {
  success_criteria : list Criteria.SuccessCriteria;
  max_iterations : Z;
  cooldown_ms : Z
}.

(** The closure of [createLoopEngine]: its parameters and variables, the
    database behind its client, the clock, and what the observers have
    been shown. *)
Record LoopEngine : Type := mkEngine {
  sessionId : jsstring;
  config : RalphConfig;
  client : DB.Client;
  currentLoopRun : option DB.LoopRun;
  stopRequested : bool;
  iterationCallback : option IterationCallback;
  completeCallback : option nat;
  iterationStartCallback : option nat;
  iterationEndCallback : option nat;
  currentIteration : Z;
  clock : Z;
  notified : list Notification
}.

Definition createLoopEngine (session : jsstring) (cfg : RalphConfig)
    (db : DB.Client) (now : Z) : LoopEngine :=
  {| sessionId := session; config := cfg; client := db;
     currentLoopRun := None; stopRequested := false;
     iterationCallback := None; completeCallback := None;
     iterationStartCallback := None; iterationEndCallback := None;
     currentIteration := 0; clock := now; notified := [] |}.

(** Assignments to the variables of the closure. *)
Definition set_client (db : DB.Client) (e : LoopEngine) : LoopEngine :=
  mkEngine (sessionId e) (config e) db (currentLoopRun e) (stopRequested e)
    (iterationCallback e) (completeCallback e) (iterationStartCallback e)
    (iterationEndCallback e) (currentIteration e) (clock e) (notified e).

Definition set_currentLoopRun (r : option DB.LoopRun) (e : LoopEngine)
  : LoopEngine :=
  mkEngine (sessionId e) (config e) (client e) r (stopRequested e)
    (iterationCallback e) (completeCallback e) (iterationStartCallback e)
    (iterationEndCallback e) (currentIteration e) (clock e) (notified e).

Definition set_stopRequested (b : bool) (e : LoopEngine) : LoopEngine :=
  mkEngine (sessionId e) (config e) (client e) (currentLoopRun e) b
    (iterationCallback e) (completeCallback e) (iterationStartCallback e)
    (iterationEndCallback e) (currentIteration e) (clock e) (notified e).

Definition set_currentIteration (n : Z) (e : LoopEngine) : LoopEngine :=
  mkEngine (sessionId e) (config e) (client e) (currentLoopRun e)
    (stopRequested e) (iterationCallback e) (completeCallback e)
    (iterationStartCallback e) (iterationEndCallback e) n (clock e)
    (notified e).

Definition advance (ms : Z) (e : LoopEngine) : LoopEngine :=
  mkEngine (sessionId e) (config e) (client e) (currentLoopRun e)
    (stopRequested e) (iterationCallback e) (completeCallback e)
    (iterationStartCallback e) (iterationEndCallback e) (currentIteration e)
    (clock e + Z.max 0 ms) (notified e).

Definition notify (n : Notification) (e : LoopEngine) : LoopEngine :=
  mkEngine (sessionId e) (config e) (client e) (currentLoopRun e)
    (stopRequested e) (iterationCallback e) (completeCallback e)
    (iterationStartCallback e) (iterationEndCallback e) (currentIteration e)
    (clock e) (notified e ++ [n]).

(** Registration of the callbacks: each slot keeps the last one. *)
Definition onIteration (callback : IterationCallback) (e : LoopEngine)
  : LoopEngine :=
  mkEngine (sessionId e) (config e) (client e) (currentLoopRun e)
    (stopRequested e) (Some callback) (completeCallback e)
    (iterationStartCallback e) (iterationEndCallback e) (currentIteration e)
    (clock e) (notified e).

Definition onComplete (handler : nat) (e : LoopEngine) : LoopEngine :=
  mkEngine (sessionId e) (config e) (client e) (currentLoopRun e)
    (stopRequested e) (iterationCallback e) (Some handler)
    (iterationStartCallback e) (iterationEndCallback e) (currentIteration e)
    (clock e) (notified e).

Definition onIterationStart (handler : nat) (e : LoopEngine) : LoopEngine :=
  mkEngine (sessionId e) (config e) (client e) (currentLoopRun e)
    (stopRequested e) (iterationCallback e) (completeCallback e)
    (Some handler) (iterationEndCallback e) (currentIteration e)
    (clock e) (notified e).

Definition onIterationEnd (handler : nat) (e : LoopEngine) : LoopEngine :=
  mkEngine (sessionId e) (config e) (client e) (currentLoopRun e)
    (stopRequested e) (iterationCallback e) (completeCallback e)
    (iterationStartCallback e) (Some handler) (currentIteration e)
    (clock e) (notified e).

Definition run_is_running (r : option DB.LoopRun) : bool :=
  match r with
  | Some run => bool_decide (DB.status run = DB.running)
  | None => false
  end.

Definition isRunning (e : LoopEngine) : bool :=
  run_is_running (currentLoopRun e).

Definition getCurrentRun (e : LoopEngine) : option DB.LoopRun :=
  match currentLoopRun e with
  | None => None
  | Some run => DB.getLoopRun (DB.id run) (client e)
  end.

(** [getLoopContext()]: the pair (runId, iteration) while running. *)
Definition getLoopContext (e : LoopEngine) : option (jsstring * Z) :=
  match currentLoopRun e with
  | Some run =>
      if bool_decide (DB.status run = DB.running)
      then Some (DB.id run, currentIteration e)
      else None
  | None => None
  end.

(** End the current loop run with status. *)
Definition endLoopRun (status : DB.LoopStatus) (e : LoopEngine) : LoopEngine :=
  match currentLoopRun e with
  | None => e
  | Some run =>
      let db :=
        DB.updateLoopRun (DB.id run)
          (DB.mkUpdate (Some status) None (Some (clock e))) (client e) in
      set_currentLoopRun (DB.getLoopRun (DB.id run) db) (set_client db e)
  end.

Definition statusText (r : LoopReason) : jsstring :=
  match r with
  | reason_success => lit "성공"
  | reason_max_iterations => lit "최대 반복 도달"
  | reason_stopped => lit "중단됨"
  | reason_error => lit "오류"
  end.

Definition error_truthy (err : option jsstring) : bool :=
  match err with Some m => truthy m | None => false end.

(** Create summary observation for loop completion. *)
Definition createLoopSummary (run_id task : jsstring) (result : LoopResult)
    (e : LoopEngine) : LoopEngine :=
  let content :=
    trim (lit "Ralph Loop 완료" ++ LF
          ++ lit "태스크: " ++ task ++ LF
          ++ lit "상태: " ++ statusText (reason result) ++ LF
          ++ lit "반복: " ++ num_to_string (iterations result) ++ lit "회" ++ LF
          ++ (if error_truthy (error result)
              then lit "오류: " ++ default [] (error result) else [])) in
  set_client
    (DB.createObservation
       {| DB.obs_session_id := sessionId e;
          DB.obs_type := if success result then DB.success_obs else DB.note;
          DB.obs_content := content;
          DB.obs_importance := if success result then 9 else 7;
          DB.obs_loop_run_id := Some run_id;
          DB.obs_iteration := Some (iterations result) |}
       (client e))
    e.

(** [if (completeCallback) completeCallback(result)] *)
Definition fireComplete (result : LoopResult) (e : LoopEngine) : LoopEngine :=
  match completeCallback e with
  | Some h => notify (Completed h result) e
  | None => e
  end.

(** [stop()] *)
Definition stop (e : LoopEngine) : LoopEngine :=
  let e1 := set_stopRequested true e in
  if run_is_running (currentLoopRun e1) then endLoopRun DB.stopped e1 else e1.

(** How the promise of [start] stands: resolved with a result, rejected
    with an error, or not settled. *)
Inductive StartOutcome : Type :=
  | Resolved (result : LoopResult)
  | Rejected (message : jsstring)
  | Unsettled.

Section Start.
(** The parameters of one call of [start] and what is fixed before its
    loop begins; [stopInCooldown n] tells whether [stop()] is called on
    the engine during the cooldown after iteration [n]. *)
Variable stopInCooldown : Z -> bool.
Variable taskText : jsstring.
Variable run_id : jsstring.
Variable maxIterations : Z.
Variable cooldownMs : Z.

(** The common tail of every way out of the loop: end the run,
    summarise, notify, return. *)
Definition finish (status : DB.LoopStatus) (result : LoopResult)
    (e : LoopEngine) : StartOutcome * LoopEngine :=
  let e1 := endLoopRun status e in
  let e2 := createLoopSummary run_id taskText result e1 in
  (Resolved result, fireComplete result e2).

(** The [catch] block. *)
Definition catchError (errorMessage : jsstring) (iter : Z) (e : LoopEngine)
  : StartOutcome * LoopEngine :=
  finish DB.failed
    (mkLoopResult false iter reason_error run_id (Some errorMessage)) e.

(** What one pass of the loop does: leave [start] with its result, or
    go on to the next test of the loop condition with the new values of
    [lastError] and of the engine. *)
Inductive Pass : Type :=
  | Return (out : StartOutcome * LoopEngine)
  | Continue (lastError : option jsstring) (e : LoopEngine).

(** The body of the [while] loop, entered with [iteration = iter]; the
    pass increments it. *)
Definition loopBody (iter : Z) (lastError : option jsstring)
    (e : LoopEngine) : Pass :=
  if stopRequested e then
    Return (finish DB.stopped
              (mkLoopResult false iter reason_stopped run_id None) e)
  else
    let iter := iter + 1 in
    let e := set_currentIteration iter e in
    let e :=
      set_client
        (DB.updateLoopRun run_id (DB.mkUpdate None (Some iter) None)
           (client e)) e in
    let iterationContext := mkContext iter taskText run_id in
    let e :=
      match iterationStartCallback e with
      | Some h => notify (IterationStarted h iterationContext) e
      | None => e
      end in
    match iterationCallback e with
    | None =>
        Return (catchError
                  (lit "No iteration callback set. Call onIteration() before start().")
                  iter e)
    | Some callback =>
        let run := callback iterationContext in
        let e := advance (duration run) e in
        let e := if callsStop run then stop e else e in
        match settles run with
        | RejectedWith message => Return (catchError message iter e)
        | Fulfilled iterationResult =>
            let e :=
              match iterationEndCallback e with
              | Some h =>
                  notify (IterationEnded h iterationContext iterationResult) e
              | None => e
              end in
            if it_success iterationResult then
              Return (finish DB.success
                        (mkLoopResult true iter reason_success run_id None) e)
            else
              let lastError :=
                if error_truthy (it_error iterationResult)
                then it_error iterationResult else lastError in
              let e :=
                if (iter <? maxIterations) && negb (stopRequested e)
                then
                  let e := advance cooldownMs e in
                  if stopInCooldown iter then stop e else e
                else e in
              Continue lastError e
        end
    end.

(** The [while] loop inside the [try] block, and what follows it.
    Every pass of the loop uses one unit of [fuel]. *)
Fixpoint mainLoop (fuel : nat) (iter : Z) (lastError : option jsstring)
    (e : LoopEngine) : StartOutcome * LoopEngine :=
  if iter <? maxIterations then
    match fuel with
    | O => (Unsettled, e)
    | S fuel' =>
        match loopBody iter lastError e with
        | Return out => out
        | Continue lastError' e' => mainLoop fuel' (iter + 1) lastError' e'
        end
    end
  else
    finish DB.failed
      (mkLoopResult false iter reason_max_iterations run_id lastError) e.
End Start.

(** [start(task, loopOptions)]: how its promise settles, and the engine
    afterwards. *)
Definition start (stopInCooldown : Z -> bool) (taskText : jsstring)
    (loopOptions : option LoopOptions) (e : LoopEngine)
  : StartOutcome * LoopEngine :=
  match DB.getActiveLoopRun (sessionId e) (client e) with
  | Some activeRun =>
      (Rejected (lit "Loop already running: " ++ DB.id activeRun
                 ++ lit ". Stop it first with stop()."),
       e)
  | None =>
      let e := set_stopRequested false e in
      let criteria :=
        default (success_criteria (config e))
                (loopOptions ≫= opt_criteria) in
      let maxIterations :=
        default (max_iterations (config e)) (loopOptions ≫= opt_maxIterations) in
      let cooldownMs :=
        default (cooldown_ms (config e)) (loopOptions ≫= opt_cooldownMs) in
      let '(run, db) :=
        DB.createLoopRun (clock e) (sessionId e) taskText criteria
          maxIterations (client e) in
      let e := set_currentLoopRun (Some run) (set_client db e) in
      let loopRunId := DB.id run in
      mainLoop stopInCooldown taskText loopRunId maxIterations cooldownMs
        (Z.to_nat maxIterations) 0 None e
  end.

(** ** Examples *)
Definition exampleConfig : RalphConfig := mkRalphConfig [] 10 1000.

Definition emptyClient : DB.Client := DB.mkClient [] [].

(** A fresh engine of session "session-1". *)
Definition idleEngine : LoopEngine :=
  createLoopEngine (lit "session-1") exampleConfig emptyClient 0.

Definition neverSucceeds : IterationCallback :=
  fun _ => mkCallbackRun 5 false (Fulfilled (mkIterationResult false None None)).

(** A database in which a run of "session-1" is Running. *)
Definition earlierRun : DB.LoopRun :=
  fst (DB.createLoopRun 0 (lit "session-1") (lit "earlier task") [] 10
         emptyClient).

Definition busyClient : DB.Client :=
  snd (DB.createLoopRun 0 (lit "session-1") (lit "earlier task") [] 10
         emptyClient).

Definition busyEngine : LoopEngine :=
  onIteration neverSucceeds
    (createLoopEngine (lit "session-1") exampleConfig busyClient 0).

Definition stopsDuring (k : Z) : IterationCallback :=
  fun ctx =>
    mkCallbackRun 50 (iteration ctx =? k)
      (Fulfilled (mkIterationResult false None None)).

Definition succeedsFromSecond : IterationCallback :=
  fun ctx =>
    mkCallbackRun 5 false
      (Fulfilled (mkIterationResult (2 <=? iteration ctx) None None)).

Definition noStop : Z -> bool := fun _ => false.

(** ** Further definitions for the statements *)

(** The status a run is given for each way its loop ends. *)
Definition finalStatus (r : LoopReason) : DB.LoopStatus :=
  match r with
  | reason_success => DB.success
  | reason_stopped => DB.stopped
  | reason_max_iterations | reason_error => DB.failed
  end.

(** The id the database gives to the next run it creates. *)
Definition nextRunId (c : DB.Client) : jsstring :=
  lit "loop-" ++ num_to_string (Z.of_nat (length (DB.loop_runs c))).

(** The iterations whose start was shown to an observer, and the results
    shown on completion, in order. *)
Definition startedIterations (ns : list Notification) : list Z :=
  omap (fun n => match n with
                 | IterationStarted _ context => Some (iteration context)
                 | _ => None
                 end) ns.

Definition endedIterations (ns : list Notification) : list Z :=
  omap (fun n => match n with
                 | IterationEnded _ context _ => Some (iteration context)
                 | _ => None
                 end) ns.

Definition completions (ns : list Notification) : list LoopResult :=
  omap (fun n => match n with
                 | Completed _ result => Some result
                 | _ => None
                 end) ns.

(** A callback that fails every time with the same error, one that
    raises in iteration [k], and an engine with all observers set. *)
Definition failsWith (message : jsstring) : IterationCallback :=
  fun _ =>
    mkCallbackRun 5 false
      (Fulfilled (mkIterationResult false None (Some message))).

Definition raisesAt (k : Z) (message : jsstring) : IterationCallback :=
  fun ctx =>
    mkCallbackRun 5 false
      (if iteration ctx =? k then RejectedWith message
       else Fulfilled (mkIterationResult false None None)).

Definition observedEngine : LoopEngine :=
  onComplete 3 (onIterationEnd 2 (onIterationStart 1 idleEngine)).

End Engine.

(* ===================================================================== *)
(** * Facts about strings                                                 *)
(* ===================================================================== *)

Module JSFacts.
Import JS.

Lemma str_eqb_true (a b : jsstring) : str_eqb a b = true <-> a = b.
Proof. unfold str_eqb. apply bool_decide_eq_true. Qed.

Lemma str_eqb_false (a b : jsstring) : str_eqb a b = false <-> a <> b.
Proof. unfold str_eqb. apply bool_decide_eq_false. Qed.

Lemma truthy_false (s : jsstring) : truthy s = false <-> s = [].
Proof. destruct s; simpl; split; congruence. Qed.

Lemma truthy_true (s : jsstring) : truthy s = true <-> s <> [].
Proof. destruct s; simpl; split; congruence. Qed.

Lemma str_eqb_refl (a : jsstring) : str_eqb a a = true.
Proof. unfold str_eqb. now apply bool_decide_eq_true. Qed.

End JSFacts.

(* ===================================================================== *)
(** * Properties of the stop conditions and of the progress detector      *)
(* ===================================================================== *)

Module StopConditionsProofs.
Import JS JSFacts StopConditions.

(** C3: [shouldStop] reports the first condition that holds in the order
    max_iterations (iterations >= maxIterations), max_duration
    (now - startedAt >= maxDurationMs), no_progress (noProgressCount >=
    noProgressThreshold), whatever the lower conditions are, and reports
    nothing when none holds. *)
Theorem shouldStop_priority (now : Z) (state : LoopRunState)
    (conditions : StopConditions) :
  (iterations state >= maxIterations conditions ->
     reason <$> shouldStop now state conditions = Some max_iterations)
  /\ (iterations state < maxIterations conditions ->
      now - startedAt state >= maxDurationMs conditions ->
      reason <$> shouldStop now state conditions = Some max_duration)
  /\ (iterations state < maxIterations conditions ->
      now - startedAt state < maxDurationMs conditions ->
      noProgressCount state >= noProgressThreshold conditions ->
      reason <$> shouldStop now state conditions = Some no_progress)
  /\ (iterations state < maxIterations conditions ->
      now - startedAt state < maxDurationMs conditions ->
      noProgressCount state < noProgressThreshold conditions ->
      shouldStop now state conditions = None).
Proof.
  unfold shouldStop.
  destruct (Z.leb_spec (maxIterations conditions) (iterations state));
  destruct (Z.leb_spec (maxDurationMs conditions) (now - startedAt state));
  destruct (Z.leb_spec (noProgressThreshold conditions) (noProgressCount state));
  repeat split; intros; simpl; try reflexivity; lia.
Qed.

Lemma shouldStop_priority_witness :
  let c := mkStopConditions 10 60000 3 in
  reason <$> shouldStop 120000 (mkLoopRunState 10 0 3) c = Some max_iterations
  /\ reason <$> shouldStop 120000 (mkLoopRunState 9 0 3) c = Some max_duration
  /\ reason <$> shouldStop 1000 (mkLoopRunState 9 0 3) c = Some no_progress
  /\ shouldStop 1000 (mkLoopRunState 9 0 2) c = None.
Proof.
  intros c. split; [|split; [|split]].
  - apply (shouldStop_priority 120000 (mkLoopRunState 10 0 3) c). simpl. lia.
  - apply (shouldStop_priority 120000 (mkLoopRunState 9 0 3) c); simpl; lia.
  - apply (shouldStop_priority 1000 (mkLoopRunState 9 0 3) c); simpl; lia.
  - apply (shouldStop_priority 1000 (mkLoopRunState 9 0 2) c); simpl; lia.
Defined.

(** ** Facts about the manager *)
Section ManagerFacts.
Context {D : Type}.

Lemma applyCall_iterations (m : StopConditionManager D) (c : ManagerCall) :
  iterations (state m) <= iterations (state (applyCall m c)).
Proof.
  destruct c as [output|]; simpl; [|lia].
  unfold recordIteration.
  destruct (iterations (set_iterations (state m) (iterations (state m) + 1)) =? 1);
    simpl; [lia|].
  destruct (detectProgress _ _ _ _) as [[] d']; simpl; lia.
Qed.

Lemma applyCalls_iterations (cs : list ManagerCall) (m : StopConditionManager D) :
  iterations (state m) <= iterations (state (applyCalls m cs)).
Proof.
  revert m. induction cs as [|c cs IH]; intros m; simpl; [lia|].
  etransitivity; [apply (applyCall_iterations m c)|apply IH].
Qed.

Lemma recordIteration_later (m : StopConditionManager D) (output : jsstring) :
  1 <= iterations (state m) ->
  recordIteration m output =
    let '(hasProgress, d') :=
      detectProgress (detector m) (lastOutput m) output (detectorState m) in
    let count := if hasProgress then 0 else noProgressCount (state m) + 1 in
    (count,
     mkManager (conditions m) (detector m)
       (mkLoopRunState (iterations (state m) + 1) (startedAt (state m)) count)
       output d').
Proof.
  intros Hit. unfold recordIteration. simpl.
  destruct (Z.eqb_spec (iterations (state m) + 1) 1) as [E|_]; [lia|].
  destruct (detectProgress _ _ _ _) as [[] d']; reflexivity.
Qed.
End ManagerFacts.

(** C9: on a fresh manager the first [recordIteration] returns 0, leaves
    the no-progress counter at 0 and does not consult the detector (its
    state is untouched), whatever the detector and the output; every
    later [recordIteration], after any calls in between, consults the
    detector once on the last recorded output and the new one, and sets
    the counter to 0 on progress and to one more otherwise. *)
Theorem recordIteration_first_then_counts {D : Type} (now : Z)
    (conds : StopConditions) (progressDetector : option (ProgressDetector D))
    (d0 : D) (first : jsstring) :
  let fresh := createStopConditionManager now conds progressDetector d0 in
  let m1 := snd (recordIteration fresh first) in
  fst (recordIteration fresh first) = 0
  /\ noProgressCount (state m1) = 0
  /\ detectorState m1 = d0
  /\ lastOutput m1 = first
  /\ forall (later : list ManagerCall) (output : jsstring),
       let m := applyCalls m1 later in
       let verdict :=
         detectProgress (detector m) (lastOutput m) output (detectorState m) in
       let after := snd (recordIteration m output) in
       detectorState after = snd verdict
       /\ fst (recordIteration m output) = noProgressCount (state after)
       /\ noProgressCount (state after) =
            if fst verdict then 0 else noProgressCount (state m) + 1.
Proof.
  simpl. repeat split; try reflexivity.
  - pose proof (applyCalls_iterations later (snd (recordIteration
      (createStopConditionManager now conds progressDetector d0) first))) as H.
    rewrite recordIteration_later; [|simpl in *; lia].
    destruct (detectProgress _ _ _ _) as [[] d']; reflexivity.
  - pose proof (applyCalls_iterations later (snd (recordIteration
      (createStopConditionManager now conds progressDetector d0) first))) as H.
    rewrite recordIteration_later; [|simpl in *; lia].
    destruct (detectProgress _ _ _ _) as [[] d']; reflexivity.
  - pose proof (applyCalls_iterations later (snd (recordIteration
      (createStopConditionManager now conds progressDetector d0) first))) as H.
    rewrite recordIteration_later; [|simpl in *; lia].
    destruct (detectProgress _ _ _ _) as [[] d']; reflexivity.
Qed.

(** ** Facts about trimming *)

Lemma trimStart_nil (s : jsstring) :
  trimStart s = [] <-> forallb is_white_space s = true.
Proof.
  induction s as [|c s IH]; simpl; [tauto|].
  destruct (is_white_space c); simpl; [exact IH|]. split; congruence.
Qed.

Lemma forallb_reverse {A : Type} (p : A -> bool) (l : list A) :
  forallb p (rev l) = forallb p l.
Proof.
  induction l as [|x l IH]; simpl; [reflexivity|].
  rewrite forallb_app, IH. simpl. rewrite andb_true_r. apply andb_comm.
Qed.

Lemma trim_nil (s : jsstring) :
  trim s = [] <-> forallb is_white_space s = true.
Proof.
  unfold trim, trimEnd. split.
  - intros H. apply (f_equal (@rev N)) in H. rewrite rev_involutive in H.
    simpl in H. apply trimStart_nil in H. rewrite forallb_reverse in H.
    destruct (trimStart s) as [|c t] eqn:E; [apply trimStart_nil, E|].
    exfalso.
    assert (Hc : is_white_space c = false).
    { clear -E. induction s as [|x s IH]; simpl in E; [discriminate|].
      destruct (is_white_space x) eqn:Hx; [auto|]. congruence. }
    simpl in H. rewrite Hc in H. discriminate.
  - intros H. apply trimStart_nil in H. rewrite H. reflexivity.
Qed.

(** The cases of tests/features/ralph/stop-conditions.test.ts for the
    heuristic detector. *)
Example detector_unit_tests :
  simpleDetectProgress (lit "Test output") (lit "Test output") = false
  /\ simpleDetectProgress (lit "Some output") (lit "") = false
  /\ simpleDetectProgress (lit "error: first error" ++ LF ++ lit "error: second error")
                          (lit "error: first error") = true
  /\ simpleDetectProgress (lit "error: first error")
                          (lit "error: first error" ++ LF ++ lit "error: second error")
     = false
  /\ simpleDetectProgress (lit "Running tests...")
                          (lit "Running tests... ✓ All tests passed") = true
  /\ simpleDetectProgress (lit "Build started")
                          (lit "Build started... ✗ Build failed") = false
  /\ simpleDetectProgress (lit "Step 1: Analyzing code")
                          (lit "Step 2: Applying fixes") = true
  /\ simpleDetectProgress (lit "Error in file.ts") (lit "Fixed error in file.ts") = true
  /\ simpleDetectProgress (lit "Feature broken") (lit "Feature is now working") = true.
Proof. vm_compute. repeat split. Qed.

(** The details of the three reasons. *)
Example shouldStop_details :
  let c := mkStopConditions 10 60000 3 in
  details <$> shouldStop 120000 (mkLoopRunState 10 0 3) c
    = Some (lit "Reached maximum iterations (10/10)")
  /\ details <$> shouldStop 120000 (mkLoopRunState 9 0 3) c
     = Some (lit "Reached maximum duration (2min/1min)")
  /\ details <$> shouldStop 1000 (mkLoopRunState 9 0 3) c
     = Some (lit "No progress detected for 3 consecutive iterations").
Proof. vm_compute. repeat split. Qed.

(** C5, as the code has it: identical outputs are no progress; differing
    outputs whose current one is blank while the previous one is not are
    no progress; otherwise, for differing outputs, fewer error-indicating
    matches in the current output are progress; and more of them are no
    progress. *)
Theorem simple_detector_error_counts (prev cur : jsstring) :
  (prev = cur -> simpleDetectProgress prev cur = false)
  /\ (prev <> cur -> trim cur = [] -> trim prev <> [] ->
      simpleDetectProgress prev cur = false)
  /\ (prev <> cur -> ~ (trim cur = [] /\ trim prev <> []) ->
      (countErrors cur < countErrors prev)%nat ->
      simpleDetectProgress prev cur = true)
  /\ (prev <> cur -> (countErrors prev < countErrors cur)%nat ->
      simpleDetectProgress prev cur = false).
Proof.
  unfold simpleDetectProgress. repeat split.
  - intros E. apply str_eqb_true in E. now rewrite E.
  - intros Hne Hc Hp. apply str_eqb_false in Hne. rewrite Hne.
    apply truthy_false in Hc. apply truthy_true in Hp. now rewrite Hc, Hp.
  - intros Hne Hguard Hlt. apply str_eqb_false in Hne. rewrite Hne.
    destruct (negb (truthy (trim cur)) && truthy (trim prev)) eqn:G.
    + exfalso. apply Hguard. apply andb_true_iff in G as [G1 G2].
      apply negb_true_iff, truthy_false in G1. apply truthy_true in G2. auto.
    + apply Nat.ltb_lt in Hlt. now rewrite Hlt.
  - intros Hne Hgt. apply str_eqb_false in Hne. rewrite Hne.
    destruct (negb (truthy (trim cur)) && truthy (trim prev)); [reflexivity|].
    destruct (Nat.ltb_spec (countErrors cur) (countErrors prev)); [lia|].
    apply Nat.ltb_lt in Hgt. now rewrite Hgt.
Qed.

Lemma simple_detector_error_counts_witness :
  simpleDetectProgress (lit "same") (lit "same") = false
  /\ simpleDetectProgress (lit "error: one") (lit "  ") = false
  /\ simpleDetectProgress (lit "error: one; error: two") (lit "error: one") = true
  /\ simpleDetectProgress (lit "error: one") (lit "error: one; error: two") = false.
Proof.
  split; [|split; [|split]].
  - destruct (simple_detector_error_counts (lit "same") (lit "same"))
      as (H & _). apply H. reflexivity.
  - destruct (simple_detector_error_counts (lit "error: one") (lit "  "))
      as (_ & H & _). apply H.
    + vm_compute; congruence.
    + reflexivity.
    + vm_compute; congruence.
  - destruct (simple_detector_error_counts (lit "error: one; error: two")
                (lit "error: one")) as (_ & _ & H & _). apply H.
    + vm_compute; congruence.
    + vm_compute. intros [H1 _]. congruence.
    + vm_compute. lia.
  - destruct (simple_detector_error_counts (lit "error: one")
                (lit "error: one; error: two")) as (_ & _ & _ & H). apply H.
    + vm_compute; congruence.
    + vm_compute. lia.
Defined.

(** C5, as stated, fails: the outputs differ and the current one has
    fewer error-indicating matches, yet it is blank and the detector
    reports no progress. *)
Lemma blank_regression_shadows_fewer_errors :
  let prev := lit "error" in
  let cur := lit "" in
  prev <> cur
  /\ (countErrors cur < countErrors prev)%nat
  /\ simpleDetectProgress prev cur = false.
Proof. vm_compute. repeat split; try congruence; lia. Qed.

(** ** Facts about matching *)

Lemma first_unit_sound (r : regex) :
  forall (a : N) (ic : bool) (prev : option N) (s : jsstring)
         (k : option N -> jsstring -> option jsstring) (res : jsstring),
    first_unit r = Some a ->
    rmatch r ic prev s k = Some res ->
    exists c rest, s = c :: rest /\ char_matches ic a c = true.
Proof.
  induction r as [| c | p | | r1 IH1 r2 IH2 | r1 IH1 r2 IH2 | r IH | p];
    intros a ic prev s k res Hf Hm; simpl in Hf; try discriminate.
  - injection Hf as <-. simpl in Hm. destruct s as [|x rest]; [discriminate|].
    destruct (char_matches ic c x) eqn:E; [|discriminate]. eauto.
  - simpl in Hm.
    destruct r1; try discriminate;
      try (eapply IH1; [exact Hf | exact Hm]).
    simpl in Hm. destruct (xorb _ _); [|discriminate].
    eapply IH2; [exact Hf | exact Hm].
Qed.

Lemma match_all_nil (re : RegExp) (s : jsstring) :
  forall prev, match_all re prev O s = [] <-> exec_from re prev s = None.
Proof.
  induction s as [|c s IH]; intros prev; simpl.
  - destruct (match_here re prev []); split; congruence.
  - destruct (match_here re prev (c :: s)); [split; congruence|]. apply IH.
Qed.

Lemma occurrences_zero (re : RegExp) (s : jsstring) :
  occurrences re s = O <-> exec_from re None s = None.
Proof.
  unfold occurrences. rewrite <- match_all_nil.
  destruct (match_all re None 0 s); simpl; split; congruence.
Qed.

Lemma matchCount_plain (re : RegExp) (s : jsstring) :
  global re = false ->
  matchCount s re = match exec_from re None s with Some _ => 1%nat | None => O end.
Proof.
  intros G. unfold matchCount, str_match. rewrite G.
  destruct (exec_from re None s); reflexivity.
Qed.

Lemma someIncrease_intro (patterns : list RegExp) (prev cur : jsstring) :
  Exists (fun p => (matchCount prev p < matchCount cur p)%nat) patterns ->
  someIncrease patterns prev cur = true.
Proof.
  induction patterns as [|p ps IH]; intros H; [inversion H|]. simpl.
  destruct (Nat.ltb_spec (matchCount prev p) (matchCount cur p)); [reflexivity|].
  apply IH. inversion H; subst; [lia|assumption].
Qed.

Lemma white_space_not_matched (ic : bool) (a c : N) :
  a ∈ [112; 115; 102; 114; 99; 119; 10003; 10004]%N ->
  char_matches ic a c = true -> is_white_space c = false.
Proof.
  intros Ha Hm. destruct (is_white_space c) eqn:W; [exfalso|reflexivity].
  unfold is_white_space in W.
  rewrite !orb_true_iff, !andb_true_iff, !N.leb_le, !N.eqb_eq in W.
  unfold char_matches in Hm.
  repeat (apply elem_of_cons in Ha as [->|Ha]);
    [..|apply elem_of_nil in Ha; contradiction];
    destruct ic;
    try (match type of Hm with
         | (canonicalize ?a =? _)%N = true =>
             let v := eval vm_compute in (canonicalize a) in
             change (canonicalize a) with v in Hm
         end;
         unfold canonicalize in Hm;
         destruct ((97 <=? c)%N && (c <=? 122)%N) eqn:L;
         [apply andb_true_iff in L; rewrite !N.leb_le in L|]);
    apply N.eqb_eq in Hm; lia.
Qed.

Lemma progressPatterns_shape :
  Forall (fun p =>
            global p = false
            /\ exists a, first_unit (source p) = Some a
                         /\ a ∈ [112; 115; 102; 114; 99; 119; 10003; 10004]%N)
         progressPatterns.
Proof.
  unfold progressPatterns.
  repeat (constructor;
          [split; [reflexivity|];
           eexists; split; [reflexivity|];
           match goal with
           | |- ?x ∈ _ => let v := eval vm_compute in x in change x with v
           end;
           repeat first [apply list_elem_of_here | apply list_elem_of_further]|]).
  constructor.
Qed.

Lemma blank_not_matched (p : RegExp) (s : jsstring) :
  p ∈ progressPatterns ->
  forallb is_white_space s = true ->
  forall prev, exec_from p prev s = None.
Proof.
  intros Hp Hs.
  pose proof progressPatterns_shape as Sh. rewrite Forall_forall in Sh.
  destruct (Sh p Hp) as (_ & a & Ha & Hin).
  assert (Hhere : forall t prev, forallb is_white_space t = true ->
                                 match_here p prev t = None).
  { intros t prev Ht. unfold match_here.
    destruct (rmatch _ _ _ _ _) as [res|] eqn:E; [|reflexivity].
    destruct (first_unit_sound _ _ _ _ _ _ _ Ha E) as (c & rest & -> & Hc).
    apply (white_space_not_matched _ _ _ Hin) in Hc.
    simpl in Ht. rewrite Hc in Ht. discriminate. }
  induction s as [|c s IH]; intros prev; simpl.
  - now rewrite Hhere.
  - rewrite (Hhere _ _ Hs). simpl in Hs. apply andb_true_iff in Hs as [_ Hs].
    now apply IH.
Qed.




End StopConditionsProofs.

(* ===================================================================== *)
(** * Properties of the criteria evaluator                                *)
(* ===================================================================== *)

Module CriteriaProofs.
Import JS JSFacts Criteria.

Section EvaluateAllFacts.
Context {W : Type}.
Variable ev : SuccessCriteria -> EvaluationOptions -> W -> EvaluationResult * W.

Lemma runUntilFailure_prefix (criteria : list SuccessCriteria)
    (options : EvaluationOptions) (w : W) :
  let ran := fst (runUntilFailure ev criteria options w) in
  map fst ran = take (length ran) criteria.
Proof.
  revert w. induction criteria as [|c cs IH]; intros w; simpl; [reflexivity|].
  destruct (ev c options w) as [r w'] eqn:E.
  destruct (success r); [|reflexivity].
  specialize (IH w'). destruct (runUntilFailure ev cs options w') as [ran w''].
  simpl in *. now rewrite IH.
Qed.

Lemma runUntilFailure_stops (criteria : list SuccessCriteria)
    (options : EvaluationOptions) (w : W) :
  let ran := fst (runUntilFailure ev criteria options w) in
  forall (i : nat) (cr : SuccessCriteria * EvaluationResult),
    ran !! i = Some cr ->
    if success (snd cr) then True else length ran = S i.
Proof.
  revert w. induction criteria as [|c cs IH]; intros w; simpl.
  - intros i cr H. discriminate.
  - destruct (ev c options w) as [r w'] eqn:E.
    destruct (success r) eqn:S.
    + specialize (IH w').
      destruct (runUntilFailure ev cs options w') as [ran w'']. simpl in *.
      intros [|i] cr H; simpl in H.
      * injection H as <-. simpl. now rewrite S.
      * specialize (IH i cr H). destruct (success cr.2); [exact I|].
        now rewrite IH.
    + simpl. intros [|i] cr H; simpl in H; [|discriminate].
      injection H as <-. simpl. now rewrite S.
Qed.

Lemma runUntilFailure_all (criteria : list SuccessCriteria)
    (options : EvaluationOptions) (w : W) :
  let ran := fst (runUntilFailure ev criteria options w) in
  forallb (fun cr => success (snd cr)) ran = true ->
  length ran = length criteria.
Proof.
  revert w. induction criteria as [|c cs IH]; intros w; simpl; [reflexivity|].
  destruct (ev c options w) as [r w'] eqn:E.
  destruct (success r) eqn:S.
  - specialize (IH w').
    destruct (runUntilFailure ev cs options w') as [ran w'']. simpl in *.
    rewrite S. simpl. intros H. now rewrite IH.
  - simpl. rewrite S. discriminate.
Qed.

(** The loop, for any value of its accumulators. *)
Lemma evaluateAllLoop_spec (total : nat) (criteria : list SuccessCriteria)
    (options : EvaluationOptions) :
  forall (allOutput allSuggestions : list jsstring) (w : W),
    let '(ran, w') := runUntilFailure ev criteria options w in
    let result :=
      fst (evaluateAllLoop ev total criteria options allOutput allSuggestions w) in
    snd (evaluateAllLoop ev total criteria options allOutput allSuggestions w) = w'
    /\ output result = join (LF ++ LF) (allOutput ++ map blockOf ran)
    /\ success result = forallb (fun cr => success (snd cr)) ran.
Proof.
  induction criteria as [|c cs IH]; intros allOutput allSuggestions w; simpl.
  - rewrite app_nil_r. auto.
  - destruct (ev c options w) as [r w'] eqn:E.
    destruct (success r) eqn:S; simpl.
    + specialize (IH (allOutput ++ [outputBlock c r])
                     (allSuggestions ++ default [] (suggestions r)) w').
      destruct (runUntilFailure ev cs options w') as [ran w''].
      destruct IH as (H1 & H2 & H3). simpl.
      rewrite S. simpl. rewrite <- app_assoc in H2. auto.
    + rewrite S. auto.
Qed.
(** Once a criterion has failed, the criteria after it play no part. *)
Lemma evaluateAllLoop_ignores_rest (criteria extra : list SuccessCriteria)
    (options : EvaluationOptions) :
  forall (total total' : nat) (allOutput allSuggestions : list jsstring)
         (w : W),
    success (fst (evaluateAllLoop ev total criteria options allOutput
                    allSuggestions w)) = false ->
    evaluateAllLoop ev total' (criteria ++ extra) options allOutput
      allSuggestions w
    = evaluateAllLoop ev total criteria options allOutput allSuggestions w.
Proof.
  induction criteria as [|c cs IH];
    intros total total' allOutput allSuggestions w Hfail.
  - discriminate.
  - cbn [app evaluateAllLoop] in *.
    destruct (ev c options w) as [r w'].
    destruct (negb (success r)); [reflexivity|]. now apply IH.
Qed.
End EvaluateAllFacts.





End CriteriaProofs.

(* ===================================================================== *)
(** * Properties of the snapshot manager                                  *)
(* ===================================================================== *)

Module SnapshotProofs.
Import JS JSFacts Snapshot.

(** ** Facts *)

Lemma restoreFiles_jobs (projectPath snapshotPath : Path)
    (files : list jsstring) (fs : FileSystem) :
  restoreFiles projectPath snapshotPath (map JStr files) fs
  = copyJobs (map (jobOf snapshotPath projectPath) files) fs.
Proof.
  revert fs. induction files as [|f files IH]; intros fs; [reflexivity|].
  cbn [map restoreFiles copyJobs].
  assert (E : restoreFile projectPath snapshotPath (JStr f) fs
              = copyJob fs (jobOf snapshotPath projectPath f)) by reflexivity.
  rewrite E. destruct (copyJob _ _) as [fs'|m]; simpl; [apply IH|reflexivity].
Qed.

Lemma dirsAlong_nonempty (segs : list jsstring) :
  forall base a, a ∈ dirsAlong base segs -> a <> [].
Proof.
  induction segs as [|seg rest IH]; intros base a Ha; simpl in Ha.
  - now apply elem_of_nil in Ha.
  - apply elem_of_cons in Ha as [->|Ha]; [|eauto].
    destruct base; discriminate.
Qed.

Lemma dirsAlong_length (segs : list jsstring) :
  forall base a,
    a ∈ dirsAlong base segs ->
    (length base < length a <= length base + length segs)%nat.
Proof.
  induction segs as [|seg rest IH]; intros base a Ha; simpl in Ha.
  - now apply elem_of_nil in Ha.
  - apply elem_of_cons in Ha as [->|Ha].
    + rewrite length_app. simpl. lia.
    + apply IH in Ha. rewrite length_app in Ha. simpl in *. lia.
Qed.

Lemma not_own_ancestor (p : Path) : p ∉ ancestors p.
Proof.
  intros H. apply dirsAlong_length in H. unfold dirname in H. simpl in H.
  destruct p as [|x p]; [simpl in H; lia|].
  assert (length (removelast (x :: p)) < length (x :: p))%nat; [|lia].
  clear H. generalize x. induction p as [|y p IH]; intros z; simpl; [lia|].
  specialize (IH y). simpl in IH. lia.
Qed.

Lemma node_at_nonempty (fs : FileSystem) (p : Path) :
  p <> [] -> node_at fs p = fs !! p.
Proof. destruct p; [congruence|reflexivity]. Qed.

(** [mkdirs] succeeds when no regular file is in the way, and then
    changes nothing but the directories along the path. *)
Lemma mkdirs_spec (segs : list jsstring) :
  forall (base : Path) (fs : FileSystem),
    Forall (fun a => isFile fs a = false) (dirsAlong base segs) ->
    exists fs',
      mkdirs base segs fs = Ok fs'
      /\ forall q, node_at fs' q =
                   if bool_decide (q ∈ dirsAlong base segs) then Some Dir
                   else node_at fs q.
Proof.
  induction segs as [|seg rest IH]; intros base fs Hfree;
    cbn [mkdirs dirsAlong] in *.
  - exists fs. split; [reflexivity|]. intros q.
    rewrite bool_decide_eq_false_2; [reflexivity|]. apply not_elem_of_nil.
  - apply Forall_cons in Hfree as [Hp Hrest].
    set (p := base ++ [seg]) in *.
    assert (Hpne : p <> []) by (subst p; destruct base; discriminate).
    unfold isFile in Hp. rewrite node_at_nonempty in Hp by exact Hpne.
    destruct (fs !! p) as [[c|]|] eqn:E; [discriminate| |].
    + destruct (IH p fs Hrest) as (fs' & -> & Hfs'). exists fs'.
      split; [reflexivity|]. intros q. rewrite Hfs'.
      destruct (decide (q = p)) as [->|Hq].
      * rewrite (bool_decide_eq_true_2 (p ∈ p :: _)) by apply list_elem_of_here.
        rewrite node_at_nonempty, E by exact Hpne.
        now destruct (bool_decide _).
      * destruct (decide (q ∈ dirsAlong p rest)) as [Hin|Hout].
        -- rewrite !bool_decide_eq_true_2; auto. now apply list_elem_of_further.
        -- rewrite !bool_decide_eq_false_2; auto.
           intros [?|?]%elem_of_cons; contradiction.
    + destruct (IH p (<[p := Dir]> fs)) as (fs' & -> & Hfs').
      { eapply Forall_impl; [exact Hrest|]. intros a Ha. unfold isFile in *.
        destruct a as [|x a]; [exact Ha|]. simpl in *.
        destruct (decide (p = x :: a)) as [<-|Hne].
        - now rewrite lookup_insert_eq.
        - now rewrite lookup_insert_ne. }
      exists fs'. split; [reflexivity|]. intros q. rewrite Hfs'.
      destruct (decide (q = p)) as [->|Hq].
      * rewrite (bool_decide_eq_true_2 (p ∈ p :: _)) by apply list_elem_of_here.
        rewrite node_at_nonempty, lookup_insert_eq by exact Hpne.
        now destruct (bool_decide _).
      * destruct (decide (q ∈ dirsAlong p rest)) as [Hin|Hout].
        -- rewrite !bool_decide_eq_true_2; auto. now apply list_elem_of_further.
        -- rewrite !bool_decide_eq_false_2; auto.
           ++ destruct q as [|x q]; [reflexivity|]. simpl.
              now rewrite lookup_insert_ne.
           ++ intros [?|?]%elem_of_cons; contradiction.
Qed.

Lemma dirsAlong_last (segs : list jsstring) :
  forall base, segs <> [] -> base ++ segs ∈ dirsAlong base segs.
Proof.
  induction segs as [|seg rest IH]; intros base Hne; [congruence|].
  cbn [dirsAlong]. destruct rest as [|seg' rest'].
  - apply list_elem_of_here.
  - apply list_elem_of_further.
    replace (base ++ seg :: seg' :: rest')
      with ((base ++ [seg]) ++ seg' :: rest') by now rewrite <- app_assoc.
    now apply IH.
Qed.

Lemma isDir_root_free (fs : FileSystem) (p : Path) :
  isDir fs p = false -> p <> [].
Proof. intros H ->. discriminate. Qed.

Lemma existsSync_node (fs : FileSystem) (p : Path) :
  existsSync fs p = true <-> node_at fs p <> None.
Proof. unfold existsSync. destruct (node_at fs p); split; congruence. Qed.

(** One copy that goes through: what the file system is afterwards. *)
Lemma copyJob_present (fs : FileSystem) (s d : Path) (c : Content) :
  node_at fs s = Some (File c) ->
  Forall (fun a => isFile fs a = false) (ancestors d) ->
  isDir fs d = false ->
  s ∉ written d ->
  exists fs2,
    copyJob fs (s, d) = Ok fs2
    /\ forall q, node_at fs2 q =
                 if bool_decide (q = d) then Some (File c)
                 else if bool_decide (q ∈ ancestors d) then Some Dir
                 else node_at fs q.
Proof.
  intros Hs Hfree Hd Hsep.
  assert (Hdne : d <> []) by now apply isDir_root_free in Hd.
  unfold copyJob, existsSync. cbn [fst snd]. rewrite Hs.
  unfold mkdirSync.
  destruct (mkdirs_spec (dirname d) [] fs Hfree) as (fs1 & -> & Hfs1).
  fold (ancestors d) in Hfs1. cbn.
  unfold copyFileSync.
  assert (Hs1 : node_at fs1 s = Some (File c)).
  { rewrite Hfs1, bool_decide_eq_false_2; [exact Hs|].
    intros Hin. apply Hsep. now apply list_elem_of_further. }
  assert (Hparent : node_at fs1 (dirname d) = Some Dir).
  { destruct (dirname d) as [|x p] eqn:E; [reflexivity|].
    rewrite Hfs1, bool_decide_eq_true_2; [reflexivity|].
    unfold ancestors. rewrite E.
    apply (dirsAlong_last (x :: p) []). discriminate. }
  assert (Hd1 : node_at fs1 d = node_at fs d).
  { rewrite Hfs1, bool_decide_eq_false_2; [reflexivity|].
    apply not_own_ancestor. }
  rewrite Hs1, Hparent, Hd1.
  exists (<[d := File c]> fs1). split.
  - unfold isDir in Hd. destruct (node_at fs d) as [[?|]|]; congruence.
  - intros q. destruct (decide (q = d)) as [->|Hq].
    + rewrite bool_decide_eq_true_2 by reflexivity.
      rewrite node_at_nonempty by exact Hdne. apply lookup_insert_eq.
    + rewrite (bool_decide_eq_false_2 (q = d)) by exact Hq.
      rewrite <- Hfs1. destruct q as [|x q]; [reflexivity|]. cbn.
      now rewrite lookup_insert_ne.
Qed.

(** An absent source is skipped. *)
Lemma copyJob_absent (fs : FileSystem) (j : Path * Path) :
  existsSync fs j.1 = false -> copyJob fs j = Ok fs.
Proof. intros H. unfold copyJob. now rewrite H. Qed.

Section Preservation.
Variables (fs fs2 : FileSystem) (all : list (Path * Path)).
Variables (j : Path * Path) (c : Content).
Hypothesis Hj : Safe fs all j.
Hypothesis Hsrc : node_at fs j.1 = Some (File c).
Hypothesis Hfs2 :
  forall q, node_at fs2 q =
            if bool_decide (q = j.2) then Some (File c)
            else if bool_decide (q ∈ ancestors j.2) then Some Dir
            else node_at fs q.

Lemma present_head : existsSync fs j.1 = true.
Proof. apply existsSync_node. rewrite Hsrc. discriminate. Qed.

(** The copy leaves every source as it was. *)
Lemma sources_kept (j' : Path * Path) :
  j' ∈ all -> node_at fs2 j'.1 = node_at fs j'.1.
Proof.
  intros Hin. destruct Hj as [_ Hj']. destruct (Hj' present_head) as (_ & _ & Hall).
  rewrite Forall_forall in Hall. destruct (Hall j' Hin) as [Hsep _].
  rewrite Hfs2.
  rewrite bool_decide_eq_false_2
    by (intros E; apply Hsep; rewrite E; apply list_elem_of_here).
  rewrite bool_decide_eq_false_2
    by (intros H; apply Hsep; now apply list_elem_of_further).
  reflexivity.
Qed.

Lemma Safe_preserved (j' : Path * Path) :
  j ∈ all -> j' ∈ all -> Safe fs all j' -> Safe fs2 all j'.
Proof.
  intros Hjin Hin [Hd' Hsafe'].
  destruct Hj as [_ Hj']. destruct (Hj' present_head) as (_ & _ & Hall).
  rewrite Forall_forall in Hall.
  split.
  { unfold isDir in Hd' |- *. now rewrite (sources_kept j' Hin). }
  intros Hpres.
  assert (Hpres' : existsSync fs j'.1 = true).
  { unfold existsSync in Hpres |- *. now rewrite (sources_kept j' Hin) in Hpres. }
  destruct (Hsafe' Hpres') as (Hfree' & Hdst' & Hall').
  rewrite Forall_forall in Hall'. rewrite Forall_forall in Hfree'.
  split; [|split].
  - apply Forall_forall. intros a Ha. unfold isFile. rewrite Hfs2.
    destruct (decide (a = j.2)) as [->|Ha2].
    + exfalso. destruct (Hall j' Hin) as [_ Heq].
      assert (j' = j) as -> by (apply Heq; [exact Hpres'|];
                                now apply list_elem_of_further).
      now apply not_own_ancestor in Ha.
    + rewrite bool_decide_eq_false_2 by exact Ha2.
      destruct (bool_decide _); [reflexivity|]. apply (Hfree' a Ha).
  - unfold isDir. rewrite Hfs2.
    destruct (decide (j'.2 = j.2)) as [E|E].
    + now rewrite bool_decide_eq_true_2.
    + rewrite bool_decide_eq_false_2 by exact E.
      destruct (decide (j'.2 ∈ ancestors j.2)) as [Hin'|Hout].
      * exfalso. destruct (Hall' j Hjin) as [_ Heq].
        assert (j = j') as -> by (apply Heq; [exact present_head|];
                                  now apply list_elem_of_further).
        now apply not_own_ancestor in Hin'.
      * rewrite bool_decide_eq_false_2 by exact Hout. exact Hdst'.
  - apply Forall_forall. intros j'' Hin''.
    destruct (Hall' j'' Hin'') as [Hsep Heq]. split; [exact Hsep|].
    intros Hp. apply Heq. unfold existsSync in Hp |- *.
    now rewrite (sources_kept j'' Hin'') in Hp.
Qed.
End Preservation.

(** The whole loop: it goes through, every copy present in the snapshot
    is at its destination afterwards, and no other path has changed. *)
Lemma copyJobs_spec (all : list (Path * Path)) (jobs : list (Path * Path)) :
  forall fs : FileSystem,
    Forall (Safe fs all) jobs ->
    (forall j, j ∈ jobs -> j ∈ all) ->
    exists fs',
      copyJobs jobs fs = Ok fs'
      /\ (forall j c, j ∈ jobs -> node_at fs j.1 = Some (File c) ->
                      node_at fs' j.2 = Some (File c))
      /\ (forall q,
            (forall j, j ∈ jobs -> existsSync fs j.1 = true -> q ∉ written j.2) ->
            node_at fs' q = node_at fs q).
Proof.
  induction jobs as [|j rest IH]; intros fs Hsafe Hsub.
  - exists fs. split; [reflexivity|]. split; [|reflexivity].
    intros j c Hin. now apply elem_of_nil in Hin.
  - apply Forall_cons in Hsafe as [Hj Hrest].
    assert (Hjin : j ∈ all) by apply Hsub, list_elem_of_here.
    assert (Hsub' : forall j', j' ∈ rest -> j' ∈ all)
      by (intros j' H; apply Hsub; now apply list_elem_of_further).
    cbn [copyJobs].
    destruct (existsSync fs j.1) eqn:Hpres.
    + (* the copy is in the snapshot *)
      pose proof Hj as [Hnd Hj'].
      destruct (Hj' Hpres) as (Hfree & Hdst & Hall).
      assert (exists c, node_at fs j.1 = Some (File c)) as [c Hsrc].
      { unfold existsSync in Hpres. unfold isDir in Hnd.
        destruct (node_at fs j.1) as [[c|]|]; try discriminate. eauto. }
      assert (Hsep : j.1 ∉ written j.2).
      { rewrite Forall_forall in Hall. apply (Hall j Hjin). }
      destruct (copyJob_present fs j.1 j.2 c Hsrc Hfree Hdst Hsep)
        as (fs2 & Hstep & Hfs2).
      replace (j.1, j.2) with j in Hstep by now destruct j.
      rewrite Hstep. cbn.
      destruct (IH fs2) as (fs' & Hrun & Hcopied & Hkept).
      { rewrite Forall_forall in Hrest |- *. intros j' Hin'.
        apply (Safe_preserved fs fs2 all j c); auto. }
      { exact Hsub'. }
      exists fs'. split; [exact Hrun|]. split.
      * intros j' c' Hin' Hsrc'.
        apply elem_of_cons in Hin' as [->|Hin'].
        -- assert (c' = c) as -> by congruence.
           destruct (decide (Exists (fun j' => existsSync fs2 j'.1 = true
                                               /\ j.2 ∈ written j'.2) rest))
             as [Hex|Hnex].
           ++ apply Exists_exists in Hex as (j' & Hin' & Hp' & Hw').
              assert (j' = j) as ->.
              { rewrite Forall_forall in Hall.
                apply (Hall j' (Hsub' j' Hin')); [|exact Hw'].
                unfold existsSync in Hp' |- *.
                now rewrite (sources_kept fs fs2 all j c Hj Hsrc Hfs2 j'
                               (Hsub' j' Hin')) in Hp'. }
              apply Hcopied; [exact Hin'|].
              now rewrite (sources_kept fs fs2 all j c Hj Hsrc Hfs2 j Hjin).
           ++ rewrite Hkept.
              ** rewrite Hfs2. now rewrite bool_decide_eq_true_2.
              ** intros j' Hin' Hp' Hw'. apply Hnex, Exists_exists. eauto.
        -- apply Hcopied; [exact Hin'|].
           now rewrite (sources_kept fs fs2 all j c Hj Hsrc Hfs2 j'
                          (Hsub' j' Hin')).
      * intros q Hq. rewrite Hkept.
        -- rewrite Hfs2.
           assert (Hqj : q ∉ written j.2)
             by (apply Hq; [apply list_elem_of_here | exact Hpres]).
           rewrite bool_decide_eq_false_2
             by (intros ->; apply Hqj, list_elem_of_here).
           rewrite bool_decide_eq_false_2
             by (intros H; apply Hqj; now apply list_elem_of_further).
           reflexivity.
        -- intros j' Hin' Hp'. apply Hq; [now apply list_elem_of_further|].
           unfold existsSync in Hp' |- *.
           now rewrite (sources_kept fs fs2 all j c Hj Hsrc Hfs2 j'
                          (Hsub' j' Hin')) in Hp'.
    + (* the copy is no longer in the snapshot: skipped *)
      rewrite copyJob_absent by exact Hpres. cbn.
      destruct (IH fs Hrest Hsub') as (fs' & Hrun & Hcopied & Hkept).
      exists fs'. split; [exact Hrun|]. split.
      * intros j' c' Hin' Hsrc'.
        apply elem_of_cons in Hin' as [->|Hin']; [|now apply Hcopied].
        unfold existsSync in Hpres. rewrite Hsrc' in Hpres. discriminate.
      * intros q Hq. apply Hkept. intros j' Hin'. apply Hq.
        now apply list_elem_of_further.
Qed.



End SnapshotProofs.

(* ===================================================================== *)
(** * Properties of the loop engine                                       *)
(* ===================================================================== *)

Module EngineProofs.
Import JS JSFacts Engine.

(** ** Facts about the engine *)

(** Reduce the projections of an engine or a database that has just been
    assigned to, leaving texts and lists alone. *)
Ltac engine_simpl :=
  cbn [sessionId config client currentLoopRun stopRequested iterationCallback
       completeCallback iterationStartCallback iterationEndCallback
       currentIteration clock notified
       set_client set_currentLoopRun set_stopRequested set_currentIteration
       advance notify onIteration onComplete onIterationStart onIterationEnd
       success iterations reason loopRunId error
       DB.loop_runs DB.observations DB.createObservation DB.updateLoopRun
       DB.id DB.status DB.iterations DB.applyUpdate
       DB.upd_status DB.upd_iterations DB.upd_ended_at
       fst snd].

Lemma endLoopRun_stopRequested (s : DB.LoopStatus) (e : LoopEngine) :
  stopRequested (endLoopRun s e) = stopRequested e.
Proof. unfold endLoopRun. destruct (currentLoopRun e); reflexivity. Qed.

Lemma endLoopRun_iterationCallback (s : DB.LoopStatus) (e : LoopEngine) :
  iterationCallback (endLoopRun s e) = iterationCallback e.
Proof. unfold endLoopRun. destruct (currentLoopRun e); reflexivity. Qed.

Lemma stop_stopRequested (e : LoopEngine) : stopRequested (stop e) = true.
Proof.
  unfold stop. destruct (run_is_running _); [|reflexivity].
  now rewrite endLoopRun_stopRequested.
Qed.

Lemma stop_iterationCallback (e : LoopEngine) :
  iterationCallback (stop e) = iterationCallback e.
Proof.
  unfold stop. destruct (run_is_running _); [|reflexivity].
  now rewrite endLoopRun_iterationCallback.
Qed.

Section LoopFacts.
Variable stopInCooldown : Z -> bool.
Variable taskText run_id : jsstring.
Variable maxIterations cooldownMs : Z.

Abbreviation body :=
  (loopBody stopInCooldown taskText run_id maxIterations cooldownMs).
Abbreviation loop :=
  (mainLoop stopInCooldown taskText run_id maxIterations cooldownMs).

(** Whatever a pass returns is a resolved promise. *)
Lemma loopBody_returns_resolved (iter : Z) (lastError : option jsstring)
    (e : LoopEngine) (out : StartOutcome * LoopEngine) :
  body iter lastError e = Return out ->
  exists r, fst out = Resolved r.
Proof.
  unfold loopBody, catchError, finish.
  repeat match goal with
         | |- context [if ?b then _ else _] => destruct b
         | |- context [match ?x with _ => _ end] => destruct x
         end;
    intros H; try discriminate; injection H as <-; simpl; eauto.
Qed.

(** With a unit of fuel for every iteration still allowed, the loop
    returns a result. *)
Lemma mainLoop_resolves (fuel : nat) :
  forall (iter : Z) (lastError : option jsstring) (e : LoopEngine),
    (Z.to_nat (maxIterations - iter) <= fuel)%nat ->
    exists r e', loop fuel iter lastError e = (Resolved r, e').
Proof.
  induction fuel as [|fuel IH]; intros iter lastError e Hfuel;
    cbn [mainLoop];
    (destruct (Z.ltb_spec iter maxIterations); [|unfold finish; eauto]).
  - lia.
  - destruct (body iter lastError e) as [[o e']|le e'] eqn:E.
    + destruct (loopBody_returns_resolved _ _ _ _ E) as [r Hr].
      simpl in Hr. subst o. eauto.
    + apply IH. lia.
Qed.
Lemma loopBody_stop_pending (iter : Z) (lastError : option jsstring)
    (e : LoopEngine) :
  stopRequested e = true ->
  body iter lastError e =
    Return (finish taskText run_id DB.stopped
              (mkLoopResult false iter reason_stopped run_id None) e).
Proof. intros H. unfold loopBody. now rewrite H. Qed.

(** A pass during which nobody calls [stop()] neither returns
    "stopped" nor leaves the flag set. *)
Lemma loopBody_without_stop (iter : Z) (lastError : option jsstring)
    (e : LoopEngine) :
  stopRequested e = false ->
  (forall cb, iterationCallback e = Some cb ->
              callsStop (cb (mkContext (iter + 1) taskText run_id)) = false) ->
  stopInCooldown (iter + 1) = false ->
  match body iter lastError e with
  | Return out => forall r, fst out = Resolved r -> reason r <> reason_stopped
  | Continue _ e' =>
      stopRequested e' = false /\ iterationCallback e' = iterationCallback e
  end.
Proof.
  intros Hflag Hcb Hcool. unfold loopBody. rewrite Hflag, Hcool.
  engine_simpl.
  destruct (iterationStartCallback e) as [h|]; engine_simpl.
  all: destruct (iterationCallback e) as [cb|] eqn:Ecb;
    [rewrite (Hcb cb eq_refl)
    |unfold catchError, finish; simpl; intros r [= <-]; discriminate].
  all: destruct (settles _) as [res|msg];
    [|unfold catchError, finish; simpl; intros r [= <-]; discriminate].
  all: engine_simpl.
  all: destruct (iterationEndCallback e) as [h'|]; engine_simpl.
  all: destruct (it_success res);
    [unfold finish; simpl; intros r [= <-]; discriminate|].
  all: rewrite ?Hflag; destruct (_ <? _); cbn [andb negb]; engine_simpl;
    auto.
Qed.

(** A pass during which [stop()] is called while the callback is in
    flight, and whose callback reports failure, ends with the flag set. *)
Lemma loopBody_stop_in_flight (iter : Z) (lastError : option jsstring)
    (e : LoopEngine) (cb : IterationCallback) (res : IterationResult) :
  stopRequested e = false ->
  iterationCallback e = Some cb ->
  callsStop (cb (mkContext (iter + 1) taskText run_id)) = true ->
  settles (cb (mkContext (iter + 1) taskText run_id)) = Fulfilled res ->
  it_success res = false ->
  exists lastError' e',
    body iter lastError e = Continue lastError' e'
    /\ stopRequested e' = true
    /\ iterationCallback e' = Some cb.
Proof.
  intros Hflag Hcb Hstop Hres Hfail. unfold loopBody. rewrite Hflag.
  engine_simpl.
  destruct (iterationStartCallback e) as [h|]; engine_simpl.
  all: rewrite Hcb, Hstop, Hres.
  all: match goal with
       | |- context [iterationEndCallback ?x] =>
           destruct (iterationEndCallback x) as [h'|]
       end.
  all: rewrite Hfail; engine_simpl.
  all: rewrite ?stop_stopRequested, andb_false_r.
  all: eexists _, _; split; [reflexivity|]; engine_simpl.
  all: rewrite stop_stopRequested, stop_iterationCallback; engine_simpl; auto.
Qed.

(** While nobody calls [stop()], the loop does not end "stopped". *)
Lemma mainLoop_without_stop (fuel : nat) :
  forall (iter : Z) (lastError : option jsstring) (e : LoopEngine)
         (r : LoopResult) (e' : LoopEngine),
    stopRequested e = false ->
    (forall cb ctx, iterationCallback e = Some cb -> callsStop (cb ctx) = false) ->
    (forall n, stopInCooldown n = false) ->
    loop fuel iter lastError e = (Resolved r, e') ->
    reason r <> reason_stopped.
Proof.
  induction fuel as [|fuel IH]; intros iter lastError e r e' Hflag Hcb Hcool;
    cbn [mainLoop];
    (destruct (Z.ltb_spec iter maxIterations);
     [|unfold finish; intros [= <- _]; discriminate]).
  - discriminate.
  - pose proof (loopBody_without_stop iter lastError e Hflag
                  (fun cb => Hcb cb _) (Hcool _)) as Hpass.
    destruct (body iter lastError e) as [out|le e1].
    + intros ->. now apply Hpass.
    + destruct Hpass as [Hflag1 Hcb1]. apply IH; auto.
      intros cb ctx. rewrite Hcb1. apply Hcb.
Qed.

(** The first [stop()] called while iteration [k] is in flight ends the
    run at the top of the next pass, with [k] iterations. *)
Lemma mainLoop_stop_in_flight (k : Z) (cb : IterationCallback) (fuel : nat) :
  forall (iter : Z) (lastError : option jsstring) (e : LoopEngine),
    0 <= iter < k -> k < maxIterations ->
    (Z.to_nat (maxIterations - iter) <= fuel)%nat ->
    stopRequested e = false ->
    iterationCallback e = Some cb ->
    (forall j, iter < j <= k ->
       exists res,
         settles (cb (mkContext j taskText run_id)) = Fulfilled res
         /\ it_success res = false) ->
    (forall j, iter < j < k ->
       callsStop (cb (mkContext j taskText run_id)) = false
       /\ stopInCooldown j = false) ->
    callsStop (cb (mkContext k taskText run_id)) = true ->
    exists e',
      loop fuel iter lastError e =
        (Resolved (mkLoopResult false k reason_stopped run_id None), e').
Proof.
  induction fuel as [|fuel IH];
    intros iter lastError e Hiter Hk Hfuel Hflag Hcb Hfail Hquiet Hstop;
    [lia|].
  cbn [mainLoop]. destruct (Z.ltb_spec iter maxIterations); [|lia].
  destruct (Hfail (iter + 1)) as (res & Hres & Hres'); [lia|].
  destruct (Z.eq_dec (iter + 1) k) as [Ek|Ek].
  - rewrite <- Ek in Hstop.
    destruct (loopBody_stop_in_flight iter lastError e cb res
                Hflag Hcb Hstop Hres Hres') as (le & e1 & -> & Hflag1 & _).
    destruct fuel as [|fuel]; [lia|].
    cbn [mainLoop]. destruct (Z.ltb_spec (iter + 1) maxIterations); [|lia].
    rewrite loopBody_stop_pending by exact Hflag1.
    unfold finish. rewrite Ek. eauto.
  - destruct (Hquiet (iter + 1)) as [Hq1 Hq2]; [lia|].
    pose proof (loopBody_without_stop iter lastError e Hflag) as Hpass.
    unfold loopBody in Hpass |- *. rewrite Hflag in Hpass |- *.
    revert Hpass. engine_simpl.
    destruct (iterationStartCallback e) as [h|]; engine_simpl;
      rewrite Hcb, Hres, Hres', Hq1, Hq2; engine_simpl;
      intros Hpass;
      (destruct Hpass as [Hflag1 Hcb1];
       [intros cb0 [= <-]; exact Hq1 | reflexivity |]);
      (apply IH; [lia | lia | lia | exact Hflag1 | now rewrite Hcb1
                 | intros j Hj; apply Hfail; lia
                 | intros j Hj; apply Hquiet; lia
                 | exact Hstop]).
Qed.
End LoopFacts.

(** The scenarios of the loop: success in the second of three
    iterations; never a success in two iterations. *)
Example start_scenarios :
  fst (start noStop (lit "task") (Some (mkLoopOptions None (Some 3) (Some 0)))
         (onIteration succeedsFromSecond idleEngine))
  = Resolved (mkLoopResult true 2 reason_success (lit "loop-0") None)
  /\ fst (start noStop (lit "task") (Some (mkLoopOptions None (Some 2) (Some 0)))
            (onIteration neverSucceeds idleEngine))
     = Resolved (mkLoopResult false 2 reason_max_iterations (lit "loop-0") None).
Proof. vm_compute. split; reflexivity. Qed.









End EngineProofs.

(* ===================================================================== *)
(** * Further properties of the stop conditions                         *)
(* ===================================================================== *)

Module StopConditionsMore.
Import JS JSFacts StopConditions StopConditionsProofs.

(** ** The delegated detector *)

(** X1: the delegated detector answers "no progress" for identical
    outputs without asking the judge; for differing outputs it returns
    the judge's verdict when the judge answers, and the verdict of the
    heuristic detector when the judge fails. *)
Theorem claude_detector_delegates {D : Type} (judge : ClaudeProgressJudge D)
    (prev cur : jsstring) (d : D) :
  let detector := createClaudeProgressDetector judge in
  (prev = cur -> detectProgress detector prev cur d = (false, d))
  /\ (forall verdict d',
        prev <> cur -> judge prev cur d = (Some verdict, d') ->
        detectProgress detector prev cur d = (verdict, d'))
  /\ (forall d',
        prev <> cur -> judge prev cur d = (None, d') ->
        detectProgress detector prev cur d
        = (simpleDetectProgress prev cur, d')).
Proof.
  cbn. split; [|split].
  - intros E. apply str_eqb_true in E. now rewrite E.
  - intros verdict d' Hne Hj. apply str_eqb_false in Hne. now rewrite Hne, Hj.
  - intros d' Hne Hj. apply str_eqb_false in Hne. now rewrite Hne, Hj.
Qed.

Lemma claude_detector_delegates_witness :
  detectProgress (createClaudeProgressDetector (answeringJudge true))
    (lit "same") (lit "same") O = (false, O)
  /\ detectProgress (createClaudeProgressDetector (answeringJudge true))
       (lit "error: a") (lit "error: a; error: b") O = (true, 1%nat)
  /\ detectProgress (createClaudeProgressDetector failingJudge)
       (lit "error: a") (lit "error: a; error: b") O = (false, 1%nat).
Proof.
  split; [|split].
  - destruct (claude_detector_delegates (answeringJudge true)
                (lit "same") (lit "same") O) as (H & _).
    apply H. reflexivity.
  - destruct (claude_detector_delegates (answeringJudge true)
                (lit "error: a") (lit "error: a; error: b") O) as (_ & H & _).
    apply H; [vm_compute; congruence | reflexivity].
  - destruct (claude_detector_delegates failingJudge
                (lit "error: a") (lit "error: a; error: b") O) as (_ & _ & H).
    rewrite (H 1%nat); [vm_compute; reflexivity | vm_compute; congruence
                       | reflexivity].
Defined.

(** ** Counting iterations *)

Lemma records_app (cs cs' : list ManagerCall) :
  records (cs ++ cs') = records cs + records cs'.
Proof. induction cs as [|[|] cs IH]; simpl; lia. Qed.

Section ManagerCounting.
Context {D : Type}.

(** What no call changes, and how a call moves the two counters. *)
Lemma applyCall_frame (m : StopConditionManager D) (c : ManagerCall) :
  conditions (applyCall m c) = conditions m
  /\ detector (applyCall m c) = detector m
  /\ startedAt (state (applyCall m c)) = startedAt (state m)
  /\ iterations (state (applyCall m c)) = iterations (state m) + records [c].
Proof.
  destruct c as [output|]; simpl; [|repeat split; lia].
  unfold recordIteration.
  destruct (iterations _ =? 1); simpl; [repeat split; lia|].
  destruct (detectProgress _ _ _ _) as [[] d']; simpl; repeat split; lia.
Qed.

Lemma applyCalls_frame (cs : list ManagerCall) :
  forall m : StopConditionManager D,
    conditions (applyCalls m cs) = conditions m
    /\ detector (applyCalls m cs) = detector m
    /\ startedAt (state (applyCalls m cs)) = startedAt (state m)
    /\ iterations (state (applyCalls m cs))
       = iterations (state m) + records cs.
Proof.
  induction cs as [|c cs IH]; intros m; [simpl; repeat split; lia|].
  change (applyCalls m (c :: cs)) with (applyCalls (applyCall m c) cs).
  destruct (IH (applyCall m c)) as (H1 & H2 & H3 & H4).
  destruct (applyCall_frame m c) as (G1 & G2 & G3 & G4).
  rewrite H1, H2, H3, H4, G1, G2, G3, G4.
  repeat split. change (c :: cs) with ([c] ++ cs). rewrite records_app. lia.
Qed.

Lemma applyCall_counterInRange (m : StopConditionManager D) (c : ManagerCall) :
  counterInRange m -> counterInRange (applyCall m c).
Proof.
  unfold counterInRange. intros (Hi & Hn).
  destruct c as [output|]; simpl; [|lia].
  unfold recordIteration. simpl.
  destruct (Z.eqb_spec (iterations (state m) + 1) 1); simpl; [lia|].
  destruct (detectProgress _ _ _ _) as [[] d']; simpl; lia.
Qed.

Lemma applyCalls_counterInRange (cs : list ManagerCall) :
  forall m : StopConditionManager D,
    counterInRange m -> counterInRange (applyCalls m cs).
Proof.
  induction cs as [|c cs IH]; intros m Hm; [exact Hm|].
  apply (IH (applyCall m c)), applyCall_counterInRange, Hm.
Qed.

Lemma repeat_counts (output : jsstring) (n : nat) :
  forall m : StopConditionManager D,
    staleOnRepeat (detector m) ->
    1 <= iterations (state m) ->
    lastOutput m = output ->
    let m' := applyCalls m (replicate n (CallRecord output)) in
    noProgressCount (state m') = noProgressCount (state m) + Z.of_nat n
    /\ detectorState m' = detectorState m.
Proof.
  induction n as [|n IH]; intros m Hdet Hit Hlast; [simpl; split; [lia|easy]|].
  cbn zeta.
  change (applyCalls m (replicate (S n) (CallRecord output)))
    with (applyCalls (snd (recordIteration m output))
            (replicate n (CallRecord output))).
  rewrite recordIteration_later by exact Hit.
  rewrite Hlast, Hdet. cbn [snd].
  match goal with
  | |- context [applyCalls ?m1 _] =>
      destruct (IH m1) as (H1 & H2); [exact Hdet|cbn; lia|reflexivity|]
  end.
  rewrite H1, H2. cbn. split; [lia|reflexivity].
Qed.
End ManagerCounting.

Lemma default_detector_staleOnRepeat {D : Type}
    (judge : option (ClaudeProgressJudge D)) :
  staleOnRepeat
    (default createSimpleProgressDetector (createClaudeProgressDetector <$> judge)).
Proof.
  intros output d. destruct judge as [j|]; cbn.
  - now rewrite str_eqb_refl.
  - unfold simpleDetectProgress. now rewrite str_eqb_refl.
Qed.

Lemma shouldStop_max_iterations (now : Z) (s : LoopRunState)
    (c : StopConditions) :
  reason <$> shouldStop now s c = Some max_iterations
  <-> maxIterations c <= iterations s.
Proof.
  unfold shouldStop.
  destruct (Z.leb_spec (maxIterations c) (iterations s));
    [|destruct (_ <=? _); [|destruct (_ <=? _)]];
    cbn [fmap option_fmap option_map reason];
    split; (discriminate || lia || reflexivity).
Qed.

Lemma shouldStop_no_progress (now : Z) (s : LoopRunState)
    (c : StopConditions) :
  reason <$> shouldStop now s c = Some no_progress
  <-> iterations s < maxIterations c
      /\ now - startedAt s < maxDurationMs c
      /\ noProgressThreshold c <= noProgressCount s.
Proof.
  unfold shouldStop.
  destruct (Z.leb_spec (maxIterations c) (iterations s));
    [|destruct (Z.leb_spec (maxDurationMs c) (now - startedAt s));
      [|destruct (Z.leb_spec (noProgressThreshold c) (noProgressCount s))]];
    cbn [fmap option_fmap option_map reason];
    split; (discriminate || lia || auto).
Qed.

(** X2: a manager counts exactly the calls of [recordIteration] made on
    it, whatever resets lie in between and whatever the detector
    answers; so it reports "max_iterations" exactly when the number of
    recorded iterations has reached maxIterations. *)
Theorem manager_counts_iterations {D : Type} (now : Z)
    (conds : StopConditions) (progressDetector : option (ProgressDetector D))
    (d0 : D) (calls : list ManagerCall) (later : Z) :
  let m := applyCalls (createStopConditionManager now conds progressDetector d0)
                      calls in
  iterations (getState m) = records calls
  /\ (reason <$> managerShouldStop later m = Some max_iterations
      <-> maxIterations conds <= records calls).
Proof.
  intros m. unfold getState, managerShouldStop.
  destruct (applyCalls_frame calls
              (createStopConditionManager now conds progressDetector d0))
    as (H1 & _ & _ & H4).
  fold m in H1, H4. cbn [createStopConditionManager conditions state iterations]
    in H1, H4.
  rewrite Z.add_0_l in H4.
  split; [exact H4|]. rewrite shouldStop_max_iterations, H1, H4. reflexivity.
Qed.

(** X3: recording the same output n+1 times on a fresh manager, with the
    heuristic detector or with a delegated one, leaves the no-progress
    counter at n without the judge being asked; while the iteration and
    duration limits are not reached the manager then reports
    "no_progress" exactly when n has reached the threshold. *)
Theorem repeated_output_is_stale {D : Type} (now later : Z)
    (conds : StopConditions) (judge : option (ClaudeProgressJudge D)) (d0 : D)
    (output : jsstring) (n : nat) :
  let m :=
    applyCalls
      (createStopConditionManager now conds
         (createClaudeProgressDetector <$> judge) d0)
      (replicate (S n) (CallRecord output)) in
  noProgressCount (getState m) = Z.of_nat n
  /\ detectorState m = d0
  /\ (Z.of_nat (S n) < maxIterations conds ->
      later - now < maxDurationMs conds ->
      (reason <$> managerShouldStop later m = Some no_progress
       <-> noProgressThreshold conds <= Z.of_nat n)).
Proof.
  intros m. unfold getState, managerShouldStop.
  set (fresh := createStopConditionManager now conds
                  (createClaudeProgressDetector <$> judge) d0) in *.
  assert (Hm : m = applyCalls (snd (recordIteration fresh output))
                     (replicate n (CallRecord output))) by reflexivity.
  destruct (repeat_counts output n (snd (recordIteration fresh output)))
    as (H1 & H2).
  { unfold fresh. cbn. apply default_detector_staleOnRepeat. }
  { vm_compute. congruence. }
  { reflexivity. }
  cbv zeta in H1, H2. rewrite <- Hm in H1, H2.
  change (noProgressCount (state (snd (recordIteration fresh output))))
    with 0 in H1.
  change (detectorState (snd (recordIteration fresh output))) with d0 in H2.
  rewrite Z.add_0_l in H1.
  destruct (applyCalls_frame (replicate (S n) (CallRecord output)) fresh)
    as (F1 & _ & F3 & F4).
  fold m in F1, F3, F4.
  cbn [fresh createStopConditionManager conditions state iterations startedAt]
    in F1, F3, F4.
  assert (Hrec : records (replicate (S n) (CallRecord output)) = Z.of_nat (S n)).
  { clear. induction (S n) as [|k IH]; [reflexivity|].
    cbn [replicate records]. rewrite IH. lia. }
  rewrite Hrec, Z.add_0_l in F4.
  split; [exact H1|]. split; [exact H2|].
  intros Hit Hdur. rewrite shouldStop_no_progress, F1, F3, F4, H1. intuition lia.
Qed.

Lemma repeated_output_is_stale_witness :
  let m :=
    applyCalls
      (createStopConditionManager 0 DEFAULT_STOP_CONDITIONS
         (createClaudeProgressDetector <$> Some (answeringJudge true)) O)
      (replicate 4 (CallRecord (lit "still failing"))) in
  noProgressCount (getState m) = 3
  /\ detectorState m = O
  /\ reason <$> managerShouldStop 1000 m = Some no_progress.
Proof.
  intros m.
  destruct (repeated_output_is_stale 0 1000 DEFAULT_STOP_CONDITIONS
              (Some (answeringJudge true)) O (lit "still failing") 3)
    as (H1 & H2 & H3).
  split; [exact H1|]. split; [exact H2|].
  apply H3; [vm_compute; reflexivity | vm_compute; reflexivity
            | vm_compute; congruence].
Defined.

(** X4: after any calls on a fresh manager the no-progress counter lies
    between 0 and the number of comparisons made (one less than the
    iterations recorded); so with a threshold of at least 1 the manager
    reports "no_progress" only once more iterations than the threshold
    have been recorded. *)
Theorem no_progress_needs_iterations {D : Type} (now : Z)
    (conds : StopConditions) (progressDetector : option (ProgressDetector D))
    (d0 : D) (calls : list ManagerCall) (later : Z) :
  let m := applyCalls (createStopConditionManager now conds progressDetector d0)
                      calls in
  0 <= noProgressCount (getState m) <= Z.max 0 (records calls - 1)
  /\ (1 <= noProgressThreshold conds ->
      reason <$> managerShouldStop later m = Some no_progress ->
      noProgressThreshold conds < records calls).
Proof.
  intros m. unfold getState, managerShouldStop.
  set (fresh := createStopConditionManager now conds progressDetector d0) in *.
  assert (Hr : counterInRange m).
  { apply applyCalls_counterInRange. unfold counterInRange. cbn. lia. }
  destruct (applyCalls_frame calls fresh) as (F1 & _ & _ & F4).
  fold m in F1, F4.
  cbn [fresh createStopConditionManager conditions state iterations] in F1, F4.
  rewrite Z.add_0_l in F4.
  destruct Hr as (_ & Hr). rewrite F4 in Hr.
  split; [exact Hr|].
  intros Hth Hstop. apply shouldStop_no_progress in Hstop.
  rewrite F1 in Hstop. lia.
Qed.

Lemma no_progress_needs_iterations_witness :
  let calls := replicate 4 (CallRecord (lit "still failing")) in
  let m := applyCalls (createStopConditionManager (D := unit) 0
                         DEFAULT_STOP_CONDITIONS None tt) calls in
  reason <$> managerShouldStop 1000 m = Some no_progress
  /\ noProgressThreshold DEFAULT_STOP_CONDITIONS < records calls.
Proof.
  intros calls m. split; [vm_compute; reflexivity|].
  destruct (no_progress_needs_iterations (D := unit) 0 DEFAULT_STOP_CONDITIONS
              None tt calls 1000) as (_ & H).
  apply H; [vm_compute; congruence | vm_compute; reflexivity].
Defined.

(** ** Blank outputs *)

Lemma white_space_never_matched (ic : bool) (a c : N) :
  is_white_space a = false ->
  char_matches ic a c = true -> is_white_space c = false.
Proof.
  intros Ha Hm. destruct (is_white_space c) eqn:W; [exfalso|reflexivity].
  unfold char_matches in Hm. destruct ic.
  - unfold canonicalize in Hm.
    unfold is_white_space in W, Ha.
    rewrite !orb_true_iff, !andb_true_iff, !N.leb_le, !N.eqb_eq in W.
    rewrite !orb_false_iff, !andb_false_iff, !N.leb_gt, !N.eqb_neq in Ha.
    destruct ((97 <=? a)%N && (a <=? 122)%N) eqn:La;
      [apply andb_true_iff in La; rewrite !N.leb_le in La|];
      (destruct ((97 <=? c)%N && (c <=? 122)%N) eqn:Lc;
       [apply andb_true_iff in Lc; rewrite !N.leb_le in Lc|]);
      apply N.eqb_eq in Hm; lia.
  - apply N.eqb_eq in Hm. congruence.
Qed.

(** Every pattern of the detector begins with a fixed unit that is not
    white space. *)
Lemma detector_patterns_beginVisibly :
  Forall beginsVisibly (errorPatterns ++ progressPatterns ++ regressionPatterns).
Proof.
  unfold errorPatterns, progressPatterns, regressionPatterns. cbn [app].
  repeat (constructor;
          [eexists; split; [reflexivity|vm_compute; reflexivity]|]).
  constructor.
Qed.

Lemma blank_never_matched (p : RegExp) (s : jsstring) :
  beginsVisibly p ->
  forallb is_white_space s = true ->
  str_match s p = None.
Proof.
  intros (a & Ha & Hw) Hs.
  assert (Hhere : forall t prev, forallb is_white_space t = true ->
                                 match_here p prev t = None).
  { intros t prev Ht. unfold match_here.
    destruct (rmatch _ _ _ _ _) as [res|] eqn:E; [|reflexivity].
    destruct (first_unit_sound _ _ _ _ _ _ _ Ha E) as (c & rest & -> & Hc).
    apply (white_space_never_matched _ _ _ Hw) in Hc.
    simpl in Ht. rewrite Hc in Ht. discriminate. }
  assert (Hexec : forall prev, exec_from p prev s = None).
  { induction s as [|c s IH]; intros prev; simpl.
    - now rewrite Hhere.
    - rewrite (Hhere _ _ Hs). simpl in Hs.
      apply andb_true_iff in Hs as [_ Hs]. now apply IH. }
  unfold str_match. destruct (global p).
  - pose proof (proj2 (match_all_nil p s None) (Hexec None)) as E.
    now rewrite E.
  - now rewrite Hexec.
Qed.

Lemma someIncrease_blank (patterns : list RegExp) (prev cur : jsstring) :
  Forall beginsVisibly patterns ->
  forallb is_white_space cur = true ->
  someIncrease patterns prev cur = false.
Proof.
  intros Hp Hs. induction Hp as [|p ps Hp _ IH]; [reflexivity|].
  cbn [someIncrease]. unfold matchCount at 2.
  rewrite (blank_never_matched p cur Hp Hs). cbn [default from_option length].
  destruct (Nat.ltb_spec (matchCount prev p) 0); [lia|exact IH].
Qed.

Lemma countErrors_blank (s : jsstring) :
  forallb is_white_space s = true -> countErrors s = O.
Proof.
  intros Hs. unfold countErrors.
  pose proof detector_patterns_beginVisibly as Hp.
  apply Forall_app in Hp as [Hp _].
  revert Hp. generalize errorPatterns, O.
  intros ps n Hp. revert n.
  induction Hp as [|p ps Hp _ IH]; intros n; [reflexivity|].
  cbn [fold_left]. rewrite (blank_never_matched p s Hp Hs). apply IH.
Qed.

(** X5: a blank output (empty or white space only) holds no
    error-indicating match; and when the previous output is blank as
    well and differs from it, the heuristic detector reports progress:
    none of its indicators can tell the two apart, and a change without
    indicators is given the benefit of the doubt. *)
Theorem blank_outputs_differing_are_progress (prev cur : jsstring) :
  trim cur = [] ->
  countErrors cur = O
  /\ (trim prev = [] -> prev <> cur -> simpleDetectProgress prev cur = true).
Proof.
  intros Hc. pose proof (proj1 (trim_nil cur) Hc) as Wc.
  split; [now apply countErrors_blank|].
  intros Hp Hne. pose proof (proj1 (trim_nil prev) Hp) as Wp.
  pose proof detector_patterns_beginVisibly as Sh.
  apply Forall_app in Sh as [_ Sh]. apply Forall_app in Sh as [Sp Sr].
  unfold simpleDetectProgress.
  apply str_eqb_false in Hne. rewrite Hne, Hc, Hp. cbn [truthy negb andb].
  rewrite !countErrors_blank by assumption. cbn [Nat.ltb Nat.leb].
  rewrite !someIncrease_blank by assumption. reflexivity.
Qed.

Lemma blank_outputs_differing_are_progress_witness :
  countErrors (lit "  ") = O
  /\ simpleDetectProgress (lit "") (lit "  ") = true.
Proof.
  destruct (blank_outputs_differing_are_progress (lit "") (lit "  "))
    as (H1 & H2); [reflexivity|].
  split; [exact H1|]. apply H2; [reflexivity|vm_compute; congruence].
Defined.

(** ** Failure indicators on a tie *)

Lemma regressionPatterns_plain :
  Forall (fun p => global p = false) regressionPatterns.
Proof. repeat constructor. Qed.

Lemma someIncrease_none (patterns : list RegExp) (prev cur : jsstring) :
  Forall (fun p => matchCount cur p = O) patterns ->
  someIncrease patterns prev cur = false.
Proof.
  intros H. induction H as [|p ps Hp _ IH]; [reflexivity|].
  cbn [someIncrease]. rewrite Hp.
  destruct (Nat.ltb_spec (matchCount prev p) 0); [lia|exact IH].
Qed.

(** X23: for differing outputs with equal counts of error-indicating
    matches, when no success-indicating pattern occurs in the current
    output, a failure-indicating pattern (failed?/error/exception/✗/✘)
    that occurs in the current output and not at all in the previous
    one makes the heuristic detector report no progress. *)
Theorem regression_pattern_appearing_is_no_progress (prev cur : jsstring)
    (q : RegExp) :
  prev <> cur ->
  countErrors prev = countErrors cur ->
  (forall p, p ∈ progressPatterns -> occurrences p cur = O) ->
  q ∈ regressionPatterns ->
  occurrences q prev = O ->
  (0 < occurrences q cur)%nat ->
  simpleDetectProgress prev cur = false.
Proof.
  intros Hne Htie Hnone Hq Hprev Hcur.
  pose proof regressionPatterns_plain as Hplain.
  rewrite Forall_forall in Hplain. pose proof (Hplain q Hq) as Hg.
  pose proof detector_patterns_beginVisibly as Hvis.
  apply Forall_app in Hvis as [_ Hvis]. apply Forall_app in Hvis as [_ Hvis].
  rewrite Forall_forall in Hvis. pose proof (Hvis q Hq) as Hqv.
  assert (Hcur' : exec_from q None cur <> None).
  { intros E. apply occurrences_zero in E. lia. }
  apply occurrences_zero in Hprev.
  unfold simpleDetectProgress.
  apply str_eqb_false in Hne. rewrite Hne.
  assert (Hblank : truthy (trim cur) = true).
  { apply truthy_true. intros E. apply trim_nil in E.
    pose proof (blank_never_matched q cur Hqv E) as Hm.
    unfold str_match in Hm. rewrite Hg in Hm.
    destruct (exec_from q None cur); [discriminate|]. now apply Hcur'. }
  rewrite Hblank. cbn [negb andb]. rewrite Htie, Nat.ltb_irrefl.
  rewrite someIncrease_none.
  - rewrite someIncrease_intro; [reflexivity|].
    apply Exists_exists. exists q. split; [exact Hq|].
    rewrite !matchCount_plain by exact Hg. rewrite Hprev.
    destruct (exec_from q None cur); [lia|congruence].
  - pose proof progressPatterns_shape as Sh.
    rewrite Forall_forall in Sh |- *. intros p Hp.
    destruct (Sh p Hp) as (Hgp & _).
    rewrite matchCount_plain by exact Hgp.
    pose proof (proj1 (occurrences_zero p cur) (Hnone p Hp)) as E.
    now rewrite E.
Qed.

Lemma regression_pattern_appearing_is_no_progress_witness :
  simpleDetectProgress (lit "1 failure") (lit "build failed") = false.
Proof.
  apply (regression_pattern_appearing_is_no_progress _ _
           (re_i (word (Seq (str "faile") (Opt (str "d")))))).
  - vm_compute; congruence.
  - vm_compute; reflexivity.
  - intros p Hp.
    repeat (apply elem_of_cons in Hp as [->|Hp]);
      [vm_compute; reflexivity ..|now apply elem_of_nil in Hp].
  - apply list_elem_of_here.
  - vm_compute; reflexivity.
  - vm_compute. lia.
Defined.

End StopConditionsMore.

(* ===================================================================== *)
(** * Further properties of the criteria evaluator                      *)
(* ===================================================================== *)

Module CriteriaMore.
Import JS JSFacts Criteria CriteriaProofs.

(** ** Facts about trimming and splitting *)

Lemma trimStart_suffix (s : jsstring) :
  exists pre, s = pre ++ trimStart s.
Proof.
  induction s as [|c s (pre & IH)]; [now exists []|]. simpl.
  destruct (is_white_space c); [|now exists []].
  exists (c :: pre). simpl. now rewrite <- IH.
Qed.

Lemma trimStart_head (s : jsstring) (c : N) (t : jsstring) :
  trimStart s = c :: t -> is_white_space c = false.
Proof.
  induction s as [|x s IH]; simpl; [discriminate|].
  destruct (is_white_space x) eqn:Hx; [exact IH|]. congruence.
Qed.

Lemma trim_head (s : jsstring) (c : N) (t : jsstring) :
  trim s = c :: t -> is_white_space c = false.
Proof.
  unfold trim, trimEnd. intros H.
  destruct (trimStart_suffix (rev (trimStart s))) as (pre & E).
  apply (f_equal (@rev N)) in E. rewrite rev_involutive, rev_app_distr, H in E.
  simpl in E. exact (trimStart_head _ _ _ E).
Qed.

Lemma split_ws_head (c : N) (s : jsstring) (b : bool) :
  is_white_space c = false ->
  exists p ps, split_ws (c :: s) b = (c :: p) :: ps.
Proof.
  intros Hc. simpl. rewrite Hc. destruct (split_ws s false) as [|p ps]; eauto.
Qed.

Lemma parseCommand_blank (commandStr : jsstring) :
  cmd (parseCommand commandStr) = [] <-> trim commandStr = [].
Proof.
  unfold parseCommand. cbn [cmd]. split.
  - destruct (trim commandStr) as [|c t] eqn:E; [reflexivity|].
    destruct (split_ws_head c t false (trim_head _ _ _ E)) as (p & ps & ->).
    discriminate.
  - intros ->. reflexivity.
Qed.

Lemma default_command_present (t : SuccessCriteriaType) :
  t <> custom -> cmd (DEFAULT_COMMANDS t) <> [].
Proof. destruct t; intros H; vm_compute; congruence. Qed.

(** Tokens joined by single blanks. *)
Lemma token_inv (t : jsstring) :
  isToken t = true ->
  t <> [] /\ forallb (fun u => negb (is_white_space u)) t = true.
Proof.
  unfold isToken. intros H. apply andb_true_iff in H as [H1 H2].
  split; [now apply truthy_true|exact H2].
Qed.

Lemma split_ws_word (t rest : jsstring) :
  forallb (fun u => negb (is_white_space u)) t = true ->
  forall hd tl, split_ws rest false = hd :: tl ->
  split_ws (t ++ rest) false = (t ++ hd) :: tl.
Proof.
  intros Ht hd tl Hrest. induction t as [|c t IH]; [exact Hrest|].
  simpl in Ht. apply andb_true_iff in Ht as [Hc Ht].
  apply negb_true_iff in Hc. simpl. rewrite Hc, (IH Ht). reflexivity.
Qed.

Lemma split_ws_flag (c : N) (s : jsstring) :
  is_white_space c = false -> split_ws (c :: s) true = split_ws (c :: s) false.
Proof. intros Hc. simpl. now rewrite Hc. Qed.

Lemma join_cons (sep x y : jsstring) (rest : list jsstring) :
  join sep (x :: y :: rest) = x ++ sep ++ join sep (y :: rest).
Proof. reflexivity. Qed.

Lemma join_tokens_head (ts : list jsstring) :
  ts <> [] -> forallb isToken ts = true ->
  exists c s, join (lit " ") ts = c :: s /\ is_white_space c = false.
Proof.
  destruct ts as [|t ts]; [congruence|]. intros _ H.
  cbn [forallb] in H. apply andb_true_iff in H as [Ht _].
  apply token_inv in Ht as [Hne Hws].
  destruct t as [|c t]; [congruence|].
  simpl in Hws. apply andb_true_iff in Hws as [Hc _].
  apply negb_true_iff in Hc.
  destruct ts as [|t2 ts]; [now exists c, t|].
  rewrite join_cons. simpl. eauto.
Qed.

Lemma join_tokens_last (ts : list jsstring) :
  ts <> [] -> forallb isToken ts = true ->
  exists s z, join (lit " ") ts = s ++ [z] /\ is_white_space z = false.
Proof.
  induction ts as [|t ts IH]; [congruence|]. intros _ H.
  cbn [forallb] in H. apply andb_true_iff in H as [Ht Hts].
  destruct ts as [|t2 ts].
  - apply token_inv in Ht as [Hne Hws].
    destruct (exists_last Hne) as (s & z & ->).
    rewrite forallb_app in Hws. apply andb_true_iff in Hws as [_ Hz].
    simpl in Hz. rewrite andb_true_r in Hz. apply negb_true_iff in Hz.
    now exists s, z.
  - destruct IH as (s & z & E & Hz); [congruence|exact Hts|].
    rewrite join_cons, E. exists (t ++ lit " " ++ s), z.
    now rewrite <- !app_assoc.
Qed.

Lemma trim_join_tokens (ts : list jsstring) :
  ts <> [] -> forallb isToken ts = true ->
  trim (join (lit " ") ts) = join (lit " ") ts.
Proof.
  intros Hne H. unfold trim, trimEnd.
  destruct (join_tokens_head ts Hne H) as (c & s & E & Hc).
  destruct (join_tokens_last ts Hne H) as (s' & z & E' & Hz).
  rewrite E. cbn [trimStart]. rewrite Hc, <- E, E', rev_app_distr.
  cbn [rev app trimStart]. rewrite Hz.
  change (z :: rev s') with (rev [z] ++ rev s').
  now rewrite <- rev_app_distr, rev_involutive.
Qed.

Lemma split_join_tokens (ts : list jsstring) :
  ts <> [] -> forallb isToken ts = true ->
  forall b, split_ws (join (lit " ") ts) b = ts.
Proof.
  induction ts as [|t ts IH]; [congruence|]. intros _ H b.
  assert (Hflag : split_ws (join (lit " ") (t :: ts)) b
                  = split_ws (join (lit " ") (t :: ts)) false).
  { destruct (join_tokens_head (t :: ts)) as (c & s & E & Hc);
      [congruence|exact H|].
    rewrite E. destruct b; [now apply split_ws_flag|reflexivity]. }
  rewrite Hflag. clear Hflag.
  cbn [forallb] in H. apply andb_true_iff in H as [Ht Hts].
  apply token_inv in Ht as [_ Hws].
  destruct ts as [|t2 ts].
  - cbn [join]. rewrite <- (app_nil_r t) at 1.
    rewrite (split_ws_word t [] Hws [] []); [|reflexivity].
    now rewrite app_nil_r.
  - rewrite join_cons.
    rewrite (split_ws_word t _ Hws [] (t2 :: ts)); [now rewrite app_nil_r|].
    change (lit " ") with [32%N]. cbn [app split_ws].
    change (is_white_space 32) with true. cbn iota.
    change [32%N] with (lit " ").
    f_equal. apply IH; [congruence|exact Hts].
Qed.

Lemma fullCommandLine_join (command : jsstring) (arguments : list jsstring) :
  fullCommandLine command arguments = join (lit " ") (command :: arguments).
Proof. destruct arguments; reflexivity. Qed.

(** X6: parsing is the inverse of assembling the command line: for a
    command and arguments that are words (not empty, free of white
    space), [parseCommand] applied to the line [executeCommand] builds
    from them gives the command and the arguments back. *)
Theorem parseCommand_fullCommandLine (command : jsstring)
    (arguments : list jsstring) :
  isToken command = true ->
  forallb isToken arguments = true ->
  parseCommand (fullCommandLine command arguments)
  = mkCommand command arguments.
Proof.
  intros Hc Ha.
  assert (H : forallb isToken (command :: arguments) = true).
  { cbn [forallb]. now rewrite Hc, Ha. }
  unfold parseCommand.
  rewrite fullCommandLine_join, trim_join_tokens, split_join_tokens;
    [|congruence|exact H|congruence|exact H].
  apply token_inv in Hc as [Hne _]. apply truthy_true in Hne.
  now rewrite Hne.
Qed.

Lemma parseCommand_fullCommandLine_witness :
  parseCommand (fullCommandLine (lit "npx") [lit "tsc"; lit "--noEmit"])
  = mkCommand (lit "npx") [lit "tsc"; lit "--noEmit"].
Proof.
  apply parseCommand_fullCommandLine; vm_compute; reflexivity.
Defined.

(** ** A criterion without a command *)

Lemma evaluate_unresolved (os : OS) (criteria : SuccessCriteria)
    (options : EvaluationOptions) (log : list ProcEvent) :
  cmd (getCommandConfig criteria) = [] ->
  evaluate os criteria options log
  = (mkResult false []
       (if bool_decide (type criteria = custom)
        then lit "Custom criteria requires a command"
        else lit "No command specified") None None,
     log).
Proof.
  intros E. unfold evaluate. rewrite E. cbn [truthy negb].
  rewrite andb_true_r. now destruct (bool_decide (type criteria = custom)).
Qed.

Lemma evaluate_spawns (os : OS) (criteria : SuccessCriteria)
    (options : EvaluationOptions) (log : list ProcEvent) :
  cmd (getCommandConfig criteria) <> [] ->
  exists rest,
    snd (evaluate os criteria options log)
    = log ++ Spawned (fullCommandLine (cmd (getCommandConfig criteria))
                                      (args (getCommandConfig criteria)))
                     (default (process_cwd os) (opt_cwd options)) :: rest.
Proof.
  intros Hcmd. unfold evaluate.
  apply truthy_true in Hcmd. rewrite Hcmd, andb_false_r. cbn [negb].
  unfold executeCommand. cbn [opt_timeout opt_cwd default from_option id].
  destruct (ending _) as [t code|message|].
  - destruct (t <? _).
    + cbn [res_exitCode res_stdout res_stderr].
      destruct (_ =? -1); [eexists; reflexivity|]. eexists; reflexivity.
    + cbn [res_exitCode res_stdout res_stderr]. rewrite Z.eqb_refl.
      eexists. cbn [snd]. rewrite <- app_assoc. reflexivity.
  - cbn [res_exitCode res_stdout res_stderr].
    change (1 =? -1) with false. cbn iota. eexists; reflexivity.
  - cbn [res_exitCode res_stdout res_stderr]. rewrite Z.eqb_refl.
    eexists. cbn [snd]. rewrite <- app_assoc. reflexivity.
Qed.

(** X7: which criteria run a command.  A command string that is not
    empty but blank gives the failure "No command specified" (or, for a
    custom criterion, "Custom criteria requires a command") for every
    type: the default command of a built-in type is not used then.  A
    custom criterion without a command (none, or the empty string) gives
    "Custom criteria requires a command".  In both cases nothing is
    spawned and the result has no exit code.  In every other case a
    process is spawned for the resolved command line. *)
Theorem evaluate_needs_command (os : OS) (criteria : SuccessCriteria)
    (options : EvaluationOptions) (log : list ProcEvent) :
  (forall c, command criteria = Some c -> c <> [] -> trim c = [] ->
     evaluate os criteria options log
     = (mkResult false []
          (if bool_decide (type criteria = custom)
           then lit "Custom criteria requires a command"
           else lit "No command specified") None None,
        log))
  /\ (type criteria = custom ->
      command criteria = None \/ command criteria = Some [] ->
      evaluate os criteria options log
      = (mkResult false [] (lit "Custom criteria requires a command")
           None None,
         log))
  /\ ((exists c, command criteria = Some c /\ trim c <> [])
      \/ (type criteria <> custom
          /\ (command criteria = None \/ command criteria = Some [])) ->
      exists rest,
        snd (evaluate os criteria options log)
        = log ++ Spawned (fullCommandLine (cmd (getCommandConfig criteria))
                                          (args (getCommandConfig criteria)))
                         (default (process_cwd os) (opt_cwd options)) :: rest).
Proof.
  split; [|split].
  - intros c Hc Hne Hblank. apply evaluate_unresolved.
    unfold getCommandConfig. rewrite Hc.
    apply truthy_true in Hne. rewrite Hne. now apply parseCommand_blank.
  - intros Hty Hcmd. rewrite evaluate_unresolved.
    + now rewrite bool_decide_eq_true_2.
    + unfold getCommandConfig.
      destruct Hcmd as [-> | ->]; cbn [truthy];
        destruct (decide (type criteria = custom)); (reflexivity || contradiction).
  - intros H. apply evaluate_spawns. unfold getCommandConfig.
    destruct H as [(c & -> & Hc) | (Hty & [-> | ->])].
    + destruct (truthy c) eqn:T.
      * intros E. apply parseCommand_blank in E. contradiction.
      * apply truthy_false in T. subst c. contradiction Hc. reflexivity.
    + destruct (decide (type criteria = custom)); [contradiction|].
      now apply default_command_present.
    + cbn [truthy].
      destruct (decide (type criteria = custom)); [contradiction|].
      now apply default_command_present.
Qed.

Lemma evaluate_needs_command_witness :
  evaluate exampleOS (mkCriteria test_pass (Some (lit "  ")) None None)
    noOptions []
  = (mkResult false [] (lit "No command specified") None None, [])
  /\ evaluate exampleOS (mkCriteria custom (Some []) None None) noOptions []
     = (mkResult false [] (lit "Custom criteria requires a command") None None,
        [])
  /\ exists rest,
       snd (evaluate exampleOS (mkCriteria test_pass None None None)
              noOptions [])
       = Spawned (lit "npm test") (lit "/work") :: rest.
Proof.
  split; [|split].
  - destruct (evaluate_needs_command exampleOS
                (mkCriteria test_pass (Some (lit "  ")) None None) noOptions [])
      as (H & _).
    apply (H (lit "  ")); [reflexivity|vm_compute; congruence|reflexivity].
  - destruct (evaluate_needs_command exampleOS
                (mkCriteria custom (Some []) None None) noOptions [])
      as (_ & H & _).
    apply H; [reflexivity|right; reflexivity].
  - destruct (evaluate_needs_command exampleOS
                (mkCriteria test_pass None None None) noOptions [])
      as (_ & _ & H).
    apply H. right. split; [vm_compute; congruence|left; reflexivity].
Defined.

(** ** A command that completes *)

Lemma nonempty_or_undefined_not_empty (xs : list jsstring) :
  nonempty_or_undefined xs <> Some [].
Proof. destruct xs; simpl; congruence. Qed.

Lemma evaluate_suggestions_not_empty (os : OS) (criteria : SuccessCriteria)
    (options : EvaluationOptions) (log : list ProcEvent) :
  suggestions (fst (evaluate os criteria options log)) <> Some [].
Proof.
  unfold evaluate.
  destruct (_ && _); [cbn; congruence|].
  destruct (negb _); [cbn; congruence|].
  destruct (executeCommand _ _ _ _ _) as [result log'].
  destruct (res_exitCode result =? -1); [cbn [fst suggestions]; congruence|].
  cbn [fst suggestions].
  destruct (res_exitCode result =? _); [congruence|].
  apply nonempty_or_undefined_not_empty.
Qed.



(** X24: when the resolved command cannot be spawned, [evaluate] still
    resolves: the spawn was attempted once and no signal is sent, the
    result has the exit code 1 and the message of the error as its
    output, and it fails with "<type> failed with exit code 1" unless
    the expected exit code is 1. *)
Theorem evaluate_spawn_failure (os : OS) (criteria : SuccessCriteria)
    (options : EvaluationOptions) (log : list ProcEvent)
    (message : jsstring) :
  let commandConfig := getCommandConfig criteria in
  let line := fullCommandLine (cmd commandConfig) (args commandConfig) in
  let cwd := default (process_cwd os) (opt_cwd options) in
  let result := fst (evaluate os criteria options log) in
  cmd commandConfig <> [] ->
  ending (spawn os log line cwd) = SpawnFails message ->
  snd (evaluate os criteria options log) = log ++ [Spawned line cwd]
  /\ exitCode result = Some 1
  /\ output result = message
  /\ success result = bool_decide (default 0 (expectedExitCode criteria) = 1)
  /\ (success result = false ->
      reason result = typeName (type criteria) ++ lit " failed with exit code 1").
Proof.
  intros commandConfig line cwd result Hcmd Hend.
  unfold result, evaluate. fold commandConfig.
  apply truthy_true in Hcmd. rewrite Hcmd, andb_false_r. cbn [negb].
  unfold executeCommand. cbn [opt_timeout opt_cwd default from_option id].
  fold line cwd. rewrite Hend.
  cbn [res_exitCode res_stdout res_stderr].
  change (1 =? -1) with false. cbn iota.
  cbn [fst snd exitCode output success reason suggestions app].
  split; [reflexivity|]. split; [reflexivity|]. split; [reflexivity|].
  destruct (Z.eqb_spec 1 (from_option id 0 (expectedExitCode criteria)))
    as [E|E].
  - split; [now rewrite bool_decide_eq_true_2|discriminate].
  - split; [rewrite bool_decide_eq_false_2; [reflexivity|congruence]|].
    intros _. reflexivity.
Qed.

Lemma evaluate_spawn_failure_witness :
  let os := mkOS (fun _ _ _ =>
                    mkProcess (fun _ => []) (fun _ => [])
                              (SpawnFails (lit "spawn ENOENT")) 0)
                 (lit "/work") in
  let result := fst (evaluate os (mkCriteria test_pass None None None)
                       noOptions []) in
  exitCode result = Some 1
  /\ output result = lit "spawn ENOENT"
  /\ success result = false.
Proof.
  intros os result.
  destruct (evaluate_spawn_failure os (mkCriteria test_pass None None None)
              noOptions [] (lit "spawn ENOENT")) as (_ & H2 & H3 & H4 & _).
  - vm_compute. congruence.
  - reflexivity.
  - split; [exact H2|]. split; [exact H3|].
    etransitivity; [exact H4|reflexivity].
Defined.

(** ** What [evaluateAll] reports *)

Section EvaluateAllReport.
Context {W : Type}.
Variable ev : SuccessCriteria -> EvaluationOptions -> W -> EvaluationResult * W.

Lemma evaluateAllLoop_report (total : nat) (criteria : list SuccessCriteria)
    (options : EvaluationOptions) :
  forall (allOutput allSuggestions : list jsstring) (w : W),
    let ran := fst (runUntilFailure ev criteria options w) in
    let result :=
      fst (evaluateAllLoop ev total criteria options allOutput allSuggestions w) in
    (forall cr, last ran = Some cr -> success (snd cr) = false ->
       reason result = reason (snd cr)
       /\ exitCode result = exitCode (snd cr)
       /\ suggestions result
          = nonempty_or_undefined (allSuggestions ++ suggestionsOf ran))
    /\ (success result = true ->
        reason result
        = lit "All " ++ num_to_string (Z.of_nat total) ++ lit " criteria passed"
        /\ exitCode result = None /\ suggestions result = None).
Proof.
  induction criteria as [|c cs IH]; intros allOutput allSuggestions w.
  - cbn. split; [discriminate|auto].
  - cbn [runUntilFailure evaluateAllLoop].
    destruct (ev c options w) as [r w'] eqn:E.
    destruct (success r) eqn:S; cbn [negb].
    + specialize (IH (allOutput ++ [outputBlock c r])
                     (allSuggestions ++ default [] (suggestions r)) w').
      destruct (runUntilFailure ev cs options w') as [ran w''] eqn:R.
      cbn [fst] in IH |- *. destruct IH as (IH1 & IH2).
      split; [|exact IH2].
      intros cr Hlast Hfail.
      destruct ran as [|x ran'].
      * cbn in Hlast. injection Hlast as <-. cbn in Hfail. congruence.
      * rewrite last_cons_cons in Hlast.
        destruct (IH1 cr Hlast Hfail) as (H1 & H2 & H3).
        split; [exact H1|]. split; [exact H2|]. rewrite H3.
        unfold suggestionsOf. cbn [map concat snd].
        now rewrite <- app_assoc.
    + cbn [fst]. split.
      * intros cr Hlast _. cbn in Hlast. injection Hlast as <-.
        cbn [snd reason exitCode suggestions]. unfold suggestionsOf.
        cbn [map concat snd]. now rewrite app_nil_r.
      * cbn. discriminate.
Qed.
End EvaluateAllReport.

(** X9: what [evaluateAll] reports besides its output.  When the last
    criterion run has failed, the reason and the exit code are that
    criterion's, and the suggestions are those of all criteria run, in
    order (absent rather than empty).  When it succeeds on a list that
    is not empty the reason is "All n criteria passed" for the n
    criteria given, and there is neither an exit code nor suggestions. *)
Theorem evaluateAll_reports {W : Type}
    (ev : SuccessCriteria -> EvaluationOptions -> W -> EvaluationResult * W)
    (criteria : list SuccessCriteria) (options : EvaluationOptions) (w : W) :
  let ran := fst (runUntilFailure ev criteria options w) in
  let result := fst (evaluateAllWith ev criteria options w) in
  (forall cr, last ran = Some cr -> success (snd cr) = false ->
     reason result = reason (snd cr)
     /\ exitCode result = exitCode (snd cr)
     /\ suggestions result = nonempty_or_undefined (suggestionsOf ran))
  /\ (criteria <> [] -> success result = true ->
      reason result
      = lit "All " ++ num_to_string (Z.of_nat (length criteria))
        ++ lit " criteria passed"
      /\ exitCode result = None /\ suggestions result = None).
Proof.
  intros ran result. subst ran result.
  destruct criteria as [|c cs]; [split; [discriminate|congruence]|].
  unfold evaluateAllWith.
  destruct (evaluateAllLoop_report ev (length (c :: cs)) (c :: cs) options
              [] [] w) as (H1 & H2).
  split; [exact H1|]. intros _. exact H2.
Qed.

Lemma evaluateAll_reports_witness :
  let c1 := mkCriteria test_pass None None None in
  let c2 := mkCriteria type_check None None None in
  let failing := fst (evaluateAll exampleOS [c1; c2] noOptions []) in
  let passing := fst (evaluateAll exampleOS [c1] noOptions []) in
  reason failing = lit "type_check failed with exit code 2"
  /\ exitCode failing = Some 2
  /\ suggestions failing = Some [lit "Fix TypeScript errors: TS2322:"]
  /\ reason passing = lit "All 1 criteria passed"
  /\ exitCode passing = None.
Proof.
  intros c1 c2 failing passing.
  destruct (evaluateAll_reports (evaluate exampleOS) [c1; c2] noOptions [])
    as (H & _).
  destruct (H (c2, fst (evaluate exampleOS c2 noOptions
                          (snd (evaluate exampleOS c1 noOptions [])))))
    as (H1 & H2 & H3); [vm_compute; reflexivity ..|].
  destruct (evaluateAll_reports (evaluate exampleOS) [c1] noOptions [])
    as (_ & G).
  destruct G as (G1 & G2 & _); [congruence|vm_compute; reflexivity|].
  split; [etransitivity; [exact H1|vm_compute; reflexivity]|].
  split; [etransitivity; [exact H2|vm_compute; reflexivity]|].
  split; [etransitivity; [exact H3|vm_compute; reflexivity]|].
  split; [etransitivity; [exact G1|vm_compute; reflexivity]|exact G2].
Defined.

(** ** The evaluator with a delegated judgment *)

(** X10: the evaluator with a judge runs the basic evaluation first and
    has exactly its effects on the system; output and exit code of its
    result are always those of the basic result.  The judge is not asked
    when the basic result has no exit code (no command) or the exit code
    -1 (timeout): the basic result is returned.  Otherwise the judge is
    asked once: when it answers, success and reason are the judge's and
    the suggestions are the judge's list (absent when empty), whatever
    the exit code was; when it fails, the basic result is returned. *)
Theorem evaluateWithClaude_delegates {J : Type} (os : OS)
    (claudeJudge : ClaudeJudgeFunction J) (criteria : SuccessCriteria)
    (options : EvaluationOptions) (log : list ProcEvent) (j : J) :
  let base := fst (evaluate os criteria options log) in
  let result :=
    fst (evaluateWithClaude os claudeJudge criteria options (log, j)) in
  let after :=
    snd (evaluateWithClaude os claudeJudge criteria options (log, j)) in
  fst after = snd (evaluate os criteria options log)
  /\ output result = output base
  /\ exitCode result = exitCode base
  /\ suggestions result <> Some []
  /\ (exitCode base = None \/ exitCode base = Some (-1) ->
      result = base /\ snd after = j)
  /\ (forall code, exitCode base = Some code -> code <> -1 ->
      forall judgment j',
        claudeJudge (type criteria) (output base) code j = (Some judgment, j') ->
        success result = j_success judgment
        /\ reason result = j_reason judgment
        /\ suggestions result = nonempty_or_undefined (j_suggestions judgment)
        /\ snd after = j')
  /\ (forall code, exitCode base = Some code -> code <> -1 ->
      forall j',
        claudeJudge (type criteria) (output base) code j = (None, j') ->
        result = base /\ snd after = j').
Proof.
  intros base result after.
  assert (Hsug := evaluate_suggestions_not_empty os criteria options log).
  fold base in Hsug. revert Hsug.
  unfold after, result, base, evaluateWithClaude.
  destruct (evaluate os criteria options log) as [b log'].
  cbn [fst snd]. intros Hsug.
  destruct (exitCode b) as [code|] eqn:Ecode.
  - destruct (Z.eqb_spec code (-1)) as [->|Hne].
    + cbn [fst snd]. rewrite Ecode.
      repeat split; try (reflexivity || assumption || congruence).
    + destruct (claudeJudge (type criteria) (output b) code j)
        as [[judgment|] j'] eqn:Ej; cbn [fst snd exitCode output suggestions
                                           success reason].
      * split; [reflexivity|]. split; [reflexivity|]. split; [reflexivity|].
        split; [apply nonempty_or_undefined_not_empty|].
        split; [intros [?|?]; congruence|].
        split.
        -- intros code' Hc _ judgment' j'' Hj.
           assert (code' = code) by congruence. subst code'.
           rewrite Ej in Hj. injection Hj as <- <-. auto.
        -- intros code' Hc _ j'' Hj.
           assert (code' = code) by congruence. subst code'.
           rewrite Ej in Hj. discriminate.
      * split; [reflexivity|]. split; [reflexivity|]. split; [exact Ecode|].
        split; [exact Hsug|].
        split; [intros [?|?]; congruence|].
        split.
        -- intros code' Hc _ judgment' j'' Hj.
           assert (code' = code) by congruence. subst code'.
           rewrite Ej in Hj. discriminate.
        -- intros code' Hc _ j'' Hj.
           assert (code' = code) by congruence. subst code'.
           rewrite Ej in Hj. injection Hj as <-. auto.
  - cbn [fst snd]. rewrite Ecode.
    repeat split; try (reflexivity || assumption || congruence).
Qed.

Lemma evaluateWithClaude_delegates_witness :
  let failed := mkCriteria type_check None None None in
  let timed := mkCriteria custom (Some (lit "sleep 600")) (Some 1000) None in
  (let out := evaluateWithClaude exampleOS approvingJudge timed noOptions ([], O) in
   fst out = fst (evaluate exampleOS timed noOptions []) /\ snd (snd out) = O)
  /\ (let out := evaluateWithClaude exampleOS approvingJudge failed noOptions
                   ([], O) in
      success (fst out) = true /\ reason (fst out) = lit "acceptable"
      /\ suggestions (fst out) = None /\ snd (snd out) = 1%nat)
  /\ (let out := evaluateWithClaude exampleOS unavailableJudge failed noOptions
                   ([], O) in
      fst out = fst (evaluate exampleOS failed noOptions [])
      /\ snd (snd out) = 1%nat).
Proof.
  intros failed timed. split; [|split].
  - destruct (evaluateWithClaude_delegates exampleOS approvingJudge timed
                noOptions [] O) as (_ & _ & _ & _ & H & _).
    apply H. right. vm_compute. reflexivity.
  - destruct (evaluateWithClaude_delegates exampleOS approvingJudge failed
                noOptions [] O) as (_ & _ & _ & _ & _ & H & _).
    destruct (H 2 ltac:(vm_compute; reflexivity) ltac:(lia)
                (mkJudgment true (lit "acceptable") []) 1%nat eq_refl)
      as (H1 & H2 & H3 & H4).
    cbv zeta. auto.
  - destruct (evaluateWithClaude_delegates exampleOS unavailableJudge failed
                noOptions [] O) as (_ & _ & _ & _ & _ & _ & H).
    apply (H 2); [vm_compute; reflexivity|lia|reflexivity].
Defined.

(** ** Suggestions *)

Lemma unique_spec (xs : list jsstring) :
  forall seen : list jsstring,
    NoDup (unique seen xs)
    /\ forall x, x ∈ unique seen xs -> x ∈ xs /\ x ∉ seen.
Proof.
  induction xs as [|x xs IH]; intros seen; cbn [unique].
  - split; [constructor|]. intros y Hy. now apply elem_of_nil in Hy.
  - destruct (bool_decide_reflect (x ∈ seen)) as [Hin|Hout].
    + destruct (IH seen) as [Hnd Hmem]. split; [exact Hnd|].
      intros y Hy. destruct (Hmem y Hy). split; [now right|assumption].
    + destruct (IH (x :: seen)) as [Hnd Hmem]. split.
      * constructor; [|exact Hnd]. intros Hx.
        destruct (Hmem x Hx) as [_ Hn]. apply Hn. now left.
      * intros y Hy. apply elem_of_cons in Hy as [->|Hy].
        -- split; [now left|exact Hout].
        -- destruct (Hmem y Hy) as [H1 H2]. split; [now right|].
           intros H. apply H2. now right.
Qed.

Lemma NoDup_take_of {A : Type} (n : nat) (l : list A) :
  NoDup l -> NoDup (take n l).
Proof.
  intros H. rewrite <- (take_drop n l) in H.
  now apply NoDup_app in H as [H _].
Qed.

(** X26: the suggestions drawn from the output.  A custom criterion
    gets none, and no criterion gets more than two.  For a type check
    whose output names TypeScript error codes there is exactly one
    suggestion, which lists at most three of the codes found, each of
    them once; without such a code in the output there is none. *)
Theorem extractSuggestions_bounded (stdout stderr : jsstring) :
  extractSuggestions custom stdout stderr = []
  /\ (forall criteriaType,
        (length (extractSuggestions criteriaType stdout stderr) <= 2)%nat)
  /\ match str_match (stdout ++ stderr) re_ts_error with
     | Some tsErrors =>
         exists codes,
           extractSuggestions type_check stdout stderr
           = [lit "Fix TypeScript errors: " ++ join (lit ", ") codes]
           /\ NoDup codes
           /\ (length codes <= 3)%nat
           /\ forall c, c ∈ codes -> c ∈ tsErrors
     | None => extractSuggestions type_check stdout stderr = []
     end.
Proof.
  split; [reflexivity|]. split.
  - intros t. unfold extractSuggestions.
    destruct t;
      repeat match goal with
             | |- context [decide ?P] =>
                 destruct (decide P); try congruence
             end;
      repeat match goal with
             | |- context [str_match ?a ?b] => destruct (str_match a b)
             | |- context [includes ?a ?b] => destruct (includes a b)
             end;
      cbn [app length orb]; lia.
  - unfold extractSuggestions.
    repeat match goal with
           | |- context [decide ?P] => destruct (decide P); try congruence
           end.
    destruct (str_match (stdout ++ stderr) re_ts_error) as [tsErrors|];
      [|reflexivity].
    exists (take 3 (unique [] tsErrors)).
    destruct (unique_spec tsErrors []) as [Hnd Hmem].
    split; [reflexivity|]. split; [now apply NoDup_take_of|].
    split; [rewrite length_take; lia|].
    intros c Hc. apply elem_of_take in Hc as (i & Hc & _).
    apply list_elem_of_lookup_2 in Hc. now apply Hmem.
Qed.

End CriteriaMore.

(* ===================================================================== *)
(** * Further properties of the snapshot manager                        *)
(* ===================================================================== *)

Module SnapshotMore.
Import JS JSFacts Snapshot SnapshotProofs.

(** ** Deleting a snapshot *)

Lemma rmSync_below (fs : FileSystem) (p q : Path) :
  p <> [] -> p `prefix_of` q ->
  node_at (filter (fun entry => ~ (p `prefix_of` entry.1)) fs) q = None.
Proof.
  intros Hp Hpre.
  assert (q <> []) by (destruct Hpre as [k ->]; destruct p; [congruence|discriminate]).
  rewrite node_at_nonempty by assumption.
  apply map_lookup_filter_None_2. right. intros x _ Hn. now apply Hn.
Qed.

Lemma rmSync_elsewhere (fs : FileSystem) (p q : Path) :
  ~ (p `prefix_of` q) ->
  node_at (filter (fun entry => ~ (p `prefix_of` entry.1)) fs) q = node_at fs q.
Proof.
  intros Hpre. destruct q as [|x q]; [reflexivity|].
  cbn [node_at]. destruct (fs !! (x :: q)) as [n|] eqn:E.
  - now apply map_lookup_filter_Some_2.
  - apply map_lookup_filter_None_2. now left.
Qed.

(** X11: [delete] never fails; for a snapshot path other than the root,
    afterwards the path does not exist, and when it existed nothing
    below it is left; every path outside it is as before; deleting a
    snapshot that does not exist changes nothing, so that deleting twice
    is deleting once; and [restore] of the deleted snapshot fails with
    "Snapshot not found". *)
Theorem deleteSnapshot_removes (projectPath snapshotPath : Path)
    (fs : FileSystem) :
  snapshotPath <> [] ->
  exists fs',
    deleteSnapshot snapshotPath fs = Ok fs'
    /\ existsSync fs' snapshotPath = false
    /\ (existsSync fs snapshotPath = true ->
        forall q, snapshotPath `prefix_of` q -> node_at fs' q = None)
    /\ (forall q, ~ (snapshotPath `prefix_of` q) -> node_at fs' q = node_at fs q)
    /\ (existsSync fs snapshotPath = false -> fs' = fs)
    /\ deleteSnapshot snapshotPath fs' = Ok fs'
    /\ restore projectPath snapshotPath fs'
       = Throw (lit "Snapshot not found: " ++ render snapshotPath).
Proof.
  intros Hp. unfold deleteSnapshot, rmSync.
  destruct (existsSync fs snapshotPath) eqn:E.
  - eexists. split; [reflexivity|].
    assert (Hgone : existsSync
                      (filter (fun entry => ~ (snapshotPath `prefix_of` entry.1)) fs)
                      snapshotPath = false).
    { unfold existsSync. now rewrite rmSync_below. }
    split; [exact Hgone|].
    split; [intros _ q Hq; now apply rmSync_below|].
    split; [intros q Hq; now apply rmSync_elsewhere|].
    split; [discriminate|].
    split; [now rewrite Hgone|].
    unfold restore. now rewrite Hgone.
  - exists fs. split; [reflexivity|]. split; [exact E|].
    split; [discriminate|]. split; [reflexivity|]. split; [reflexivity|].
    split; [now rewrite E|]. unfold restore. now rewrite E.
Qed.

Lemma deleteSnapshot_removes_witness :
  exists fs',
    deleteSnapshot snapshotDir exampleFS = Ok fs'
    /\ existsSync fs' snapshotDir = false
    /\ node_at fs' (snapshotDir ++ [lit "src"; lit "b.ts"]) = None
    /\ node_at fs' [lit "proj"; lit "a.txt"]
       = Some (File (Text (lit "a, edited")))
    /\ restore projectDir snapshotDir fs'
       = Throw (lit "Snapshot not found: /proj/.ralph-mem/snapshots/loop-001").
Proof.
  destruct (deleteSnapshot_removes projectDir snapshotDir exampleFS)
    as (fs' & H1 & H2 & H3 & H4 & _ & _ & H7); [vm_compute; congruence|].
  exists fs'. split; [exact H1|]. split; [exact H2|].
  split; [apply H3; [vm_compute; reflexivity|]; now eexists|].
  split.
  - rewrite H4; [vm_compute; reflexivity|].
    apply (bool_decide_unpack _). vm_compute. exact I.
  - rewrite H7. vm_compute. reflexivity.
Defined.

(** ** The modified files *)

Lemma addLines_fold (lines : list jsstring) :
  forall files : list jsstring,
    let step := fun (files : list jsstring) (line : jsstring) =>
                  if truthy (trim line) then
                    if bool_decide (trim line ∈ files) then files
                    else files ++ [trim line]
                  else files in
    NoDup files ->
    NoDup (fold_left step lines files)
    /\ forall f, f ∈ fold_left step lines files
                 <-> f ∈ files \/ f ∈ List.filter truthy (map trim lines).
Proof.
  induction lines as [|line lines IH]; intros files step Hnd.
  - cbn. split; [exact Hnd|]. intros f. rewrite elem_of_nil. tauto.
  - cbn [fold_left map List.filter].
    assert (Hstep : NoDup (step files line)
                    /\ forall f, f ∈ step files line
                                 <-> f ∈ files
                                     \/ (truthy (trim line) = true /\ f = trim line)).
    { unfold step. destruct (truthy (trim line)) eqn:T.
      - destruct (bool_decide_reflect (trim line ∈ files)) as [Hin|Hout].
        + split; [exact Hnd|]. intros f. split; [auto|].
          intros [?|[_ ->]]; assumption.
        + split.
          * apply NoDup_app. split; [exact Hnd|]. split.
            -- intros x Hx Hx'. apply list_elem_of_singleton in Hx'. now subst.
            -- apply NoDup_singleton.
          * intros f. rewrite elem_of_app, list_elem_of_singleton.
            split; [intros [?|?]; auto|intros [?|[_ ?]]; auto].
      - split; [exact Hnd|]. intros f. split; [auto|].
        intros [?|[? _]]; [assumption|discriminate]. }
    destruct Hstep as [Hnd' Hmem].
    destruct (IH (step files line) Hnd') as [IH1 IH2].
    split; [exact IH1|]. intros f. cbv zeta in IH2. fold step in IH2.
    rewrite IH2, Hmem.
    destruct (truthy (trim line)) eqn:T.
    + rewrite elem_of_cons. split.
      * intros [[?|[_ ?]]|?]; auto.
      * intros [?|[?|?]]; auto.
    + split; [intros [[?|[? _]]|?]; auto; discriminate|intros [?|?]; auto].
Qed.

Lemma addLines_spec (files : list jsstring) (out : jsstring) :
  NoDup files ->
  NoDup (addLines files out)
  /\ forall f, f ∈ addLines files out <-> f ∈ files \/ f ∈ namesIn out.
Proof. intros H. exact (addLines_fold (split_lines out) files H). Qed.

Lemma namesIn_nonempty (out f : jsstring) : f ∈ namesIn out -> f <> [].
Proof.
  unfold namesIn. intros H. apply list_elem_of_In, filter_In in H as [_ H].
  now apply truthy_true.
Qed.

Ltac empty_case :=
  split; [apply NoDup_nil_2|];
  split; [intros f Hf; now apply elem_of_nil in Hf|];
  split; [intros _; reflexivity|];
  split; [intros _; reflexivity|];
  intros; congruence.

(** X12: the modified files are listed without duplicates, every one of
    them exists under the project root and is not the empty name; the
    list is empty when the project has no [.git] or one of the git
    commands fails; otherwise it holds exactly the trimmed non-blank
    lines of the three outputs that name an existing path. *)
Theorem getModifiedFiles_spec (git : Git) (projectPath : Path)
    (fs : FileSystem) :
  NoDup (getModifiedFiles git projectPath fs)
  /\ (forall f, f ∈ getModifiedFiles git projectPath fs ->
                existsSync fs (join projectPath f) = true /\ f <> [])
  /\ (existsSync fs (join projectPath (lit ".git")) = false ->
      getModifiedFiles git projectPath fs = [])
  /\ (staged git = None \/ unstaged git = None \/ untracked git = None ->
      getModifiedFiles git projectPath fs = [])
  /\ (forall stagedOut unstagedOut untrackedOut,
        existsSync fs (join projectPath (lit ".git")) = true ->
        staged git = Some stagedOut ->
        unstaged git = Some unstagedOut ->
        untracked git = Some untrackedOut ->
        forall f,
          f ∈ getModifiedFiles git projectPath fs
          <-> existsSync fs (join projectPath f) = true
              /\ (f ∈ namesIn (trim stagedOut)
                  \/ f ∈ namesIn (trim unstagedOut)
                  \/ f ∈ namesIn (trim untrackedOut))).
Proof.
  assert (Hfull : forall s u t,
            let files := addLines (addLines (addLines [] (trim s)) (trim u))
                                  (trim t) in
            NoDup files
            /\ forall f, f ∈ files <-> f ∈ namesIn (trim s)
                                       \/ f ∈ namesIn (trim u)
                                       \/ f ∈ namesIn (trim t)).
  { intros s u t.
    destruct (addLines_spec [] (trim s) (NoDup_nil_2)) as [N1 M1].
    destruct (addLines_spec _ (trim u) N1) as [N2 M2].
    destruct (addLines_spec _ (trim t) N2) as [N3 M3].
    split; [exact N3|]. intros f. rewrite M3, M2, M1, elem_of_nil. tauto. }
  unfold getModifiedFiles.
  destruct (existsSync fs (join projectPath (lit ".git"))) eqn:G; cbn [negb];
    [|empty_case].
  destruct (staged git) as [s|]; [|empty_case].
  destruct (unstaged git) as [u|]; [|empty_case].
  destruct (untracked git) as [t|]; [|empty_case].
  destruct (Hfull s u t) as [Hnd Hmem]. cbv zeta in Hnd, Hmem.
  assert (Hin : forall f,
            f ∈ List.filter (fun file => existsSync fs (join projectPath file))
                  (addLines (addLines (addLines [] (trim s)) (trim u)) (trim t))
            <-> existsSync fs (join projectPath f) = true
                /\ (f ∈ namesIn (trim s) \/ f ∈ namesIn (trim u)
                    \/ f ∈ namesIn (trim t))).
  { intros f. rewrite list_elem_of_In, filter_In, <- list_elem_of_In, Hmem.
    tauto. }
  split; [apply NoDup_ListNoDup, List.NoDup_filter, NoDup_ListNoDup, Hnd|].
  split.
  { intros f Hf. apply Hin in Hf as [He Hn]. split; [exact He|].
    destruct Hn as [H|[H|H]]; exact (namesIn_nonempty _ _ H). }
  split; [discriminate|].
  split; [intros [H|[H|H]]; discriminate|].
  intros s' u' t' _ [= <-] [= <-] [= <-]. exact Hin.
Qed.

Lemma getModifiedFiles_spec_witness :
  getModifiedFiles repoGit projectDir (delete (projectDir ++ [lit ".git"]) repoFS)
  = []
  /\ getModifiedFiles (mkGit (Some []) None (Some [])) projectDir repoFS = []
  /\ lit "src/b.ts" ∈ getModifiedFiles repoGit projectDir repoFS
  /\ lit "deleted.txt" ∉ getModifiedFiles repoGit projectDir repoFS.
Proof.
  split; [|split; [|split]].
  - destruct (getModifiedFiles_spec repoGit projectDir
                (delete (projectDir ++ [lit ".git"]) repoFS))
      as (_ & _ & H & _).
    apply H. vm_compute. reflexivity.
  - destruct (getModifiedFiles_spec (mkGit (Some []) None (Some []))
                projectDir repoFS) as (_ & _ & _ & H & _).
    apply H. right. left. reflexivity.
  - destruct (getModifiedFiles_spec repoGit projectDir repoFS)
      as (_ & _ & _ & _ & H).
    apply (H [] (lit "a.txt" ++ LF ++ lit "deleted.txt" ++ LF)
             (lit "src/b.ts" ++ LF ++ lit "a.txt" ++ LF));
      [vm_compute; reflexivity|reflexivity ..|].
    split; [vm_compute; reflexivity|].
    right. right. apply (bool_decide_unpack _). vm_compute. exact I.
  - destruct (getModifiedFiles_spec repoGit projectDir repoFS)
      as (_ & H & _).
    intros Hin. destruct (H _ Hin) as [He _]. vm_compute in He. discriminate.
Defined.

(** ** Creating a snapshot *)

Lemma getModifiedFiles_exists (git : Git) (projectPath : Path)
    (fs : FileSystem) (f : jsstring) :
  f ∈ getModifiedFiles git projectPath fs ->
  existsSync fs (join projectPath f) = true.
Proof.
  unfold getModifiedFiles.
  destruct (negb _); [intros H; now apply elem_of_nil in H|].
  destruct (staged git); [|intros H; now apply elem_of_nil in H].
  destruct (unstaged git); [|intros H; now apply elem_of_nil in H].
  destruct (untracked git); [|intros H; now apply elem_of_nil in H].
  intros H. apply list_elem_of_In, filter_In in H. tauto.
Qed.

Lemma join_META (snapshotPath : Path) :
  join snapshotPath META = snapshotPath ++ [META].
Proof.
  unfold join.
  assert (E : split_sep META = [META]) by (vm_compute; reflexivity).
  rewrite E. cbn [normalizeOnto].
  assert (E1 : str_eqb META [] || str_eqb META (lit ".") = false)
    by (vm_compute; reflexivity).
  assert (E2 : str_eqb META (lit "..") = false) by (vm_compute; reflexivity).
  rewrite E1, E2. cbn [rev]. now rewrite rev_involutive.
Qed.

(** A [mkdir] that succeeds found no regular file in its way. *)
Lemma mkdirs_ok_free (segs : list jsstring) :
  forall (base : Path) (fs fs' : FileSystem),
    mkdirs base segs fs = Ok fs' ->
    Forall (fun a => isFile fs a = false) (dirsAlong base segs).
Proof.
  induction segs as [|seg rest IH]; intros base fs fs' H;
    cbn [mkdirs dirsAlong] in *; [constructor|].
  assert (Hne : base ++ [seg] <> []) by (destruct base; discriminate).
  destruct (fs !! (base ++ [seg])) as [[c|]|] eqn:E; [discriminate| |].
  - constructor; [|exact (IH _ _ _ H)].
    cbv beta. unfold isFile.
    rewrite node_at_nonempty, E by exact Hne. reflexivity.
  - constructor.
    + cbv beta. unfold isFile.
      rewrite node_at_nonempty, E by exact Hne. reflexivity.
    + pose proof (IH _ _ _ H) as Hrest.
      rewrite Forall_forall in Hrest |- *. intros a Ha.
      specialize (Hrest a Ha). unfold isFile in Hrest |- *.
      pose proof (dirsAlong_nonempty _ _ _ Ha) as Hane.
      pose proof (dirsAlong_length _ _ _ Ha) as Hlen.
      rewrite node_at_nonempty in Hrest |- * by exact Hane.
      rewrite lookup_insert_ne in Hrest; [exact Hrest|].
      intros Eq. rewrite <- Eq in Hlen. lia.
Qed.

Lemma mkdirSync_ok (fs fs' : FileSystem) (p : Path) :
  mkdirSync fs p = Ok fs' ->
  isDir fs' p = true
  /\ forall q, node_at fs' q = if bool_decide (q ∈ dirsAlong [] p) then Some Dir
                               else node_at fs q.
Proof.
  unfold mkdirSync. intros H.
  destruct (mkdirs_spec p [] fs (mkdirs_ok_free _ _ _ _ H)) as (fs2 & E & Hfs2).
  assert (fs2 = fs') as -> by congruence.
  split; [|exact Hfs2].
  destruct p as [|x p]; [reflexivity|].
  unfold isDir. rewrite Hfs2, bool_decide_eq_true_2; [reflexivity|].
  apply (dirsAlong_last (x :: p) []). discriminate.
Qed.

(** One copy that goes through leaves the sources and the safety of the
    other copies as they were. *)
Lemma copyJob_step (fs : FileSystem) (all : list (Path * Path))
    (j : Path * Path) :
  Safe fs all j -> j ∈ all -> existsSync fs j.1 = true ->
  exists c fs2,
    node_at fs j.1 = Some (File c)
    /\ copyJob fs j = Ok fs2
    /\ (forall q, node_at fs2 q =
                  if bool_decide (q = j.2) then Some (File c)
                  else if bool_decide (q ∈ ancestors j.2) then Some Dir
                  else node_at fs q)
    /\ isDir fs j.2 = false
    /\ (forall j', j' ∈ all -> node_at fs2 j'.1 = node_at fs j'.1)
    /\ (forall j', j' ∈ all -> Safe fs all j' -> Safe fs2 all j').
Proof.
  intros Hj Hjin Hpres.
  pose proof Hj as [Hnd Hj'].
  destruct (Hj' Hpres) as (Hfree & Hdst & Hall).
  assert (exists c, node_at fs j.1 = Some (File c)) as [c Hsrc].
  { unfold existsSync in Hpres. unfold isDir in Hnd.
    destruct (node_at fs j.1) as [[c|]|]; try discriminate. eauto. }
  assert (Hsep : j.1 ∉ written j.2).
  { rewrite Forall_forall in Hall. apply (Hall j Hjin). }
  destruct (copyJob_present fs j.1 j.2 c Hsrc Hfree Hdst Hsep)
    as (fs2 & Hstep & Hfs2).
  replace (j.1, j.2) with j in Hstep by now destruct j.
  exists c, fs2. split; [exact Hsrc|]. split; [exact Hstep|].
  split; [exact Hfs2|]. split; [exact Hdst|]. split.
  - intros j' Hin. exact (sources_kept fs fs2 all j c Hj Hsrc Hfs2 j' Hin).
  - intros j' Hin Hs.
    exact (Safe_preserved fs fs2 all j c Hj Hsrc Hfs2 j' Hjin Hin Hs).
Qed.

(** The loop of [create] is the loop over its copy jobs: every source
    is there when its turn comes. *)
Lemma snapshotFiles_jobs (projectPath snapshotPath : Path)
    (all : list (Path * Path)) (files : list jsstring) :
  forall fs : FileSystem,
    Forall (Safe fs all) (map (jobInto projectPath snapshotPath) files) ->
    (forall j, j ∈ map (jobInto projectPath snapshotPath) files -> j ∈ all) ->
    Forall (fun j => existsSync fs j.1 = true)
           (map (jobInto projectPath snapshotPath) files) ->
    snapshotFiles projectPath snapshotPath files fs
    = copyJobs (map (jobInto projectPath snapshotPath) files) fs.
Proof.
  induction files as [|f files IH]; intros fs Hsafe Hsub Hex; [reflexivity|].
  cbn [map] in *.
  apply Forall_cons in Hsafe as [Hj Hrest].
  apply Forall_cons in Hex as [Hp Hexrest].
  set (j := jobInto projectPath snapshotPath f) in *.
  assert (Hjin : j ∈ all) by apply Hsub, list_elem_of_here.
  assert (Hsub' : forall j', j' ∈ map (jobInto projectPath snapshotPath) files
                             -> j' ∈ all)
    by (intros j' H; apply Hsub; now apply list_elem_of_further).
  cbn [snapshotFiles copyJobs].
  assert (E : snapshotFile projectPath snapshotPath f fs = copyJob fs j).
  { unfold copyJob. rewrite Hp. reflexivity. }
  rewrite E.
  destruct (copyJob_step fs all j Hj Hjin Hp)
    as (c & fs2 & _ & Hstep & _ & _ & Hkept & Hpreserved).
  rewrite Hstep. cbn [mbind result_bind bind].
  apply IH; [|exact Hsub'|].
  - rewrite Forall_forall in Hrest |- *. intros j' Hin'.
    apply Hpreserved; auto.
  - rewrite Forall_forall in Hexrest |- *. intros j' Hin'.
    specialize (Hexrest j' Hin'). unfold existsSync in Hexrest |- *.
    now rewrite (Hkept j' (Hsub' j' Hin')).
Qed.

(** The copies leave every directory a directory. *)
Lemma copyJobs_dirs (all : list (Path * Path)) (jobs : list (Path * Path)) :
  forall fs fs' : FileSystem,
    Forall (Safe fs all) jobs ->
    (forall j, j ∈ jobs -> j ∈ all) ->
    copyJobs jobs fs = Ok fs' ->
    forall q, isDir fs q = true -> isDir fs' q = true.
Proof.
  induction jobs as [|j rest IH]; intros fs fs' Hsafe Hsub Hrun q Hq.
  - cbn in Hrun. congruence.
  - apply Forall_cons in Hsafe as [Hj Hrest].
    assert (Hjin : j ∈ all) by apply Hsub, list_elem_of_here.
    assert (Hsub' : forall j', j' ∈ rest -> j' ∈ all)
      by (intros j' H; apply Hsub; now apply list_elem_of_further).
    cbn [copyJobs] in Hrun.
    destruct (existsSync fs j.1) eqn:Hpres.
    + destruct (copyJob_step fs all j Hj Hjin Hpres)
        as (c & fs2 & _ & Hstep & Hfs2 & Hdst & _ & Hpreserved).
      rewrite Hstep in Hrun. cbn [mbind result_bind bind] in Hrun.
      apply (IH fs2 fs'); [|exact Hsub'|exact Hrun|].
      * rewrite Forall_forall in Hrest |- *. intros j' Hin'.
        apply Hpreserved; auto.
      * unfold isDir in Hq |- *. rewrite Hfs2.
        destruct (bool_decide_reflect (q = j.2)) as [->|_].
        -- unfold isDir in Hdst. rewrite Hdst in Hq. discriminate.
        -- destruct (bool_decide _); [reflexivity|exact Hq].
    + rewrite copyJob_absent in Hrun by exact Hpres.
      cbn [mbind result_bind bind] in Hrun.
      exact (IH fs fs' Hrest Hsub' Hrun q Hq).
Qed.

(** What [create] leaves behind when its copies can be made. *)
Lemma create_outcome (projectPath snapshotsDir : Path) (git : Git)
    (createdAt runId : jsstring) (fs fs1 : FileSystem) :
  let snapshotPath := join snapshotsDir runId in
  let files := getModifiedFiles git projectPath fs1 in
  mkdirSync fs snapshotPath = Ok fs1 ->
  Restorable fs1 (map (jobInto projectPath snapshotPath) files) ->
  ManifestFree fs1 snapshotPath files ->
  exists fs3,
    create projectPath snapshotsDir git createdAt runId fs
    = Ok (snapshotPath, fs3)
    /\ node_at fs3 (join snapshotPath META)
       = Some (File (Document (metadataOf runId createdAt files)))
    /\ (forall f, f ∈ files ->
          exists c, node_at fs1 (join projectPath f) = Some (File c)
                    /\ node_at fs3 (join snapshotPath f) = Some (File c))
    /\ (forall q, q <> join snapshotPath META ->
          (forall f, f ∈ files -> q ∉ written (join snapshotPath f)) ->
          node_at fs3 q = node_at fs1 q).
Proof.
  intros snapshotPath files Hmk Hsafe [Hmeta Hfree].
  set (jobs := map (jobInto projectPath snapshotPath) files) in *.
  assert (Hex : Forall (fun j => existsSync fs1 j.1 = true) jobs).
  { apply Forall_forall. intros j Hj.
    apply list_elem_of_fmap in Hj as (f & -> & Hf).
    exact (getModifiedFiles_exists _ _ _ _ Hf). }
  destruct (copyJobs_spec jobs jobs fs1 Hsafe (fun j H => H))
    as (fs2 & Hrun & Hcopied & Hkept).
  destruct (mkdirSync_ok _ _ _ Hmk) as [Hdir _].
  assert (Hdir2 : isDir fs2 snapshotPath = true)
    by exact (copyJobs_dirs jobs jobs fs1 fs2 Hsafe (fun j H => H) Hrun _ Hdir).
  assert (Hmeta2 : node_at fs2 (join snapshotPath META)
                   = node_at fs1 (join snapshotPath META)).
  { apply Hkept. intros j Hj _.
    apply list_elem_of_fmap in Hj as (f & -> & Hf).
    rewrite Forall_forall in Hfree. exact (Hfree f Hf). }
  assert (Hmne : join snapshotPath META <> [])
    by (rewrite join_META; destruct snapshotPath; discriminate).
  exists (<[join snapshotPath META :=
             File (Document (metadataOf runId createdAt files))]> fs2).
  split.
  { unfold create. fold snapshotPath. rewrite Hmk.
    cbn [mbind result_bind bind]. fold files.
    rewrite (snapshotFiles_jobs projectPath snapshotPath jobs files fs1 Hsafe
               (fun j H => H) Hex).
    fold jobs. rewrite Hrun. cbn [mbind result_bind bind].
    unfold writeFileSync.
    assert (Ed : dirname (join snapshotPath META) = snapshotPath).
    { rewrite join_META. unfold dirname. apply removelast_last. }
    rewrite Ed. unfold isDir in Hdir2, Hmeta. rewrite Hmeta2.
    destruct (node_at fs2 snapshotPath) as [[?|]|]; try discriminate.
    destruct (node_at fs1 (join snapshotPath META)) as [[?|]|];
      try discriminate; reflexivity. }
  split.
  { rewrite node_at_nonempty by exact Hmne. apply lookup_insert_eq. }
  split.
  - intros f Hf.
    assert (Hjf : jobInto projectPath snapshotPath f ∈ jobs)
      by now apply list_elem_of_fmap_2.
    unfold Restorable in Hsafe. rewrite Forall_forall in Hsafe, Hex.
    rewrite Forall_forall in Hfree.
    destruct (Hsafe _ Hjf) as [Hnd _]. specialize (Hex _ Hjf).
    cbn [jobInto fst] in Hnd, Hex.
    assert (exists c, node_at fs1 (join projectPath f) = Some (File c))
      as [c Hc].
    { unfold existsSync in Hex. unfold isDir in Hnd.
      destruct (node_at fs1 (join projectPath f)) as [[c|]|];
        try discriminate. eauto. }
    exists c. split; [exact Hc|].
    assert (Hne : join snapshotPath f <> join snapshotPath META).
    { intros E. apply (Hfree f Hf). rewrite <- E. apply list_elem_of_here. }
    assert (Hfne : join snapshotPath f <> []).
    { pose proof (Hcopied _ c Hjf Hc) as H. cbn [jobInto snd] in H.
      destruct (Hsafe _ Hjf) as [_ Hs]. destruct (Hs Hex) as (_ & Hd & _).
      now apply isDir_root_free in Hd. }
    rewrite node_at_nonempty, lookup_insert_ne, <- node_at_nonempty;
      [|exact Hfne|congruence|exact Hfne].
    exact (Hcopied _ c Hjf Hc).
  - intros q Hq Hout.
    transitivity (node_at fs2 q).
    + destruct q as [|x q]; [reflexivity|].
      cbn [node_at]. apply lookup_insert_ne. congruence.
    + apply Hkept. intros j Hj _.
      apply list_elem_of_fmap in Hj as (f & -> & Hf). exact (Hout f Hf).
Qed.

(** X13: when the snapshot directory can be made, the copies of the
    modified files can be made and do not touch the place of the
    manifest, [create] resolves with the path [snapshotsDir/runId];
    afterwards the manifest there records the run id, the creation time
    and exactly the modified files, every modified file has a copy with
    its content in the snapshot, and every path that is neither the
    manifest nor a copy nor a directory above a copy is as it was after
    the snapshot directory was made. *)
Theorem create_copies_modified_files (projectPath snapshotsDir : Path)
    (git : Git) (createdAt runId : jsstring) (fs fs1 : FileSystem) :
  let snapshotPath := join snapshotsDir runId in
  let files := getModifiedFiles git projectPath fs1 in
  mkdirSync fs snapshotPath = Ok fs1 ->
  Restorable fs1 (map (jobInto projectPath snapshotPath) files) ->
  ManifestFree fs1 snapshotPath files ->
  exists fs3,
    create projectPath snapshotsDir git createdAt runId fs
    = Ok (snapshotPath, fs3)
    /\ node_at fs3 (join snapshotPath META)
       = Some (File (Document (metadataOf runId createdAt files)))
    /\ (forall f, f ∈ files ->
          exists c, node_at fs1 (join projectPath f) = Some (File c)
                    /\ node_at fs3 (join snapshotPath f) = Some (File c))
    /\ (forall q, q <> join snapshotPath META ->
          (forall f, f ∈ files -> q ∉ written (join snapshotPath f)) ->
          node_at fs3 q = node_at fs1 q).
Proof. exact (create_outcome projectPath snapshotsDir git createdAt runId fs fs1). Qed.

Lemma create_copies_modified_files_witness :
  exists fs3,
    create projectDir dataDir repoGit (lit "2025-01-17T00:00:00.000Z")
           (lit "loop-7") repoFS
    = Ok (dataDir ++ [lit "loop-7"], fs3)
    /\ node_at fs3 (dataDir ++ [lit "loop-7"; META])
       = Some (File (Document
                       (metadataOf (lit "loop-7") (lit "2025-01-17T00:00:00.000Z")
                                   [lit "a.txt"; lit "src/b.ts"])))
    /\ node_at fs3 (dataDir ++ [lit "loop-7"; lit "src"; lit "b.ts"])
       = Some (File (Text (lit "b, new"))).
Proof.
  set (fs1 := match mkdirSync repoFS (join dataDir (lit "loop-7")) with
              | Ok fs => fs
              | Throw _ => ∅
              end).
  destruct (create_copies_modified_files projectDir dataDir repoGit
              (lit "2025-01-17T00:00:00.000Z") (lit "loop-7") repoFS fs1)
    as (fs3 & H1 & H2 & H3 & _).
  - vm_compute. reflexivity.
  - apply (bool_decide_unpack _). vm_compute. exact I.
  - apply (bool_decide_unpack _). vm_compute. exact I.
  - exists fs3. split; [exact H1|]. split; [exact H2|].
    destruct (H3 (lit "src/b.ts")) as (c & Hc & Hcopy).
    + apply (bool_decide_unpack _). vm_compute. exact I.
    + vm_compute in Hc. injection Hc as <-. exact Hcopy.
Defined.

(** ** Restoring what was snapshotted *)

(** X14: a snapshot that [create] has made brings the modified files
    back.  Whatever has become of the file system since, as long as the
    snapshot directory, its manifest and its copies are as [create] left
    them and the copies can be made, [restore] of the path [create]
    returned succeeds and puts every file recorded in the snapshot back
    under the project root with the content it had when the snapshot
    was created. *)
Theorem restore_after_create (projectPath snapshotsDir : Path) (git : Git)
    (createdAt runId : jsstring) (fs fs1 : FileSystem) :
  let snapshotPath := join snapshotsDir runId in
  let files := getModifiedFiles git projectPath fs1 in
  mkdirSync fs snapshotPath = Ok fs1 ->
  Restorable fs1 (map (jobInto projectPath snapshotPath) files) ->
  ManifestFree fs1 snapshotPath files ->
  exists fs3,
    create projectPath snapshotsDir git createdAt runId fs
    = Ok (snapshotPath, fs3)
    /\ forall later : FileSystem,
         existsSync later snapshotPath = true ->
         node_at later (join snapshotPath META)
         = node_at fs3 (join snapshotPath META) ->
         (forall f, f ∈ files ->
            node_at later (join snapshotPath f)
            = node_at fs3 (join snapshotPath f)) ->
         Restorable later (map (jobOf snapshotPath projectPath) files) ->
         exists fs4,
           restore projectPath snapshotPath later = Ok fs4
           /\ forall f, f ∈ files ->
                exists c, node_at fs1 (join projectPath f) = Some (File c)
                          /\ node_at fs4 (join projectPath f) = Some (File c).
Proof.
  intros snapshotPath files Hmk Hsafe Hfree.
  destruct (create_outcome projectPath snapshotsDir git createdAt runId fs fs1
              Hmk Hsafe Hfree) as (fs3 & H1 & H2 & H3 & _).
  fold snapshotPath files in H1, H2, H3.
  exists fs3. split; [exact H1|].
  intros later Hdir Hmeta Hcopies Hlater.
  unfold restore. rewrite Hdir. cbn [negb].
  unfold existsSync, readJson. rewrite Hmeta, H2.
  cbn [negb mbind result_bind bind get_files metadataOf].
  assert (Hfiles :
    lookup_field (lit "files")
      [(lit "runId", JStr runId); (lit "createdAt", JStr createdAt);
       (lit "files", JArr (map JStr files))]
    = Some (JArr (map JStr files))) by (vm_compute; reflexivity).
  rewrite Hfiles.
  cbn [iterate_files json_truthy negb mbind result_bind bind].
  rewrite restoreFiles_jobs.
  destruct (copyJobs_spec _ _ later Hlater (fun j H => H))
    as (fs4 & Hrun & Hcopied & _).
  exists fs4. split; [exact Hrun|].
  intros f Hf. destruct (H3 f Hf) as (c & Hc & Hcopy).
  exists c. split; [exact Hc|].
  apply (Hcopied (jobOf snapshotPath projectPath f) c).
  - now apply list_elem_of_fmap_2.
  - cbn [jobOf fst]. rewrite (Hcopies f Hf). exact Hcopy.
Qed.

Lemma restore_after_create_witness :
  node_at laterFS [lit "proj"; lit "a.txt"]
  = Some (File (Text (lit "a, broken")))
  /\ node_at laterFS [lit "proj"; lit "src"; lit "b.ts"] = None
  /\ exists fs4,
       restore projectDir (dataDir ++ [lit "loop-7"]) laterFS = Ok fs4
       /\ node_at fs4 [lit "proj"; lit "a.txt"]
          = Some (File (Text (lit "a, edited")))
       /\ node_at fs4 [lit "proj"; lit "src"; lit "b.ts"]
          = Some (File (Text (lit "b, new"))).
Proof.
  split; [vm_compute; reflexivity|]. split; [vm_compute; reflexivity|].
  set (fs1 := match mkdirSync repoFS (join dataDir (lit "loop-7")) with
              | Ok fs => fs
              | Throw _ => ∅
              end).
  destruct (restore_after_create projectDir dataDir repoGit
              (lit "2025-01-17T00:00:00.000Z") (lit "loop-7") repoFS fs1)
    as (fs3 & H1 & H2).
  - vm_compute. reflexivity.
  - apply (bool_decide_unpack _). vm_compute. exact I.
  - apply (bool_decide_unpack _). vm_compute. exact I.
  - assert (E : fs3 = snapshottedFS).
    { unfold snapshottedFS. rewrite H1. reflexivity. }
    subst fs3.
    assert (Efiles : getModifiedFiles repoGit projectDir fs1
                     = [lit "a.txt"; lit "src/b.ts"])
      by (vm_compute; reflexivity).
    destruct (H2 laterFS) as (fs4 & Hrun & Hback).
    + vm_compute. reflexivity.
    + vm_compute. reflexivity.
    + intros f Hf. rewrite Efiles in Hf.
      repeat (apply elem_of_cons in Hf as [->|Hf]);
        [vm_compute; reflexivity ..|now apply elem_of_nil in Hf].
    + apply (bool_decide_unpack _). vm_compute. exact I.
    + exists fs4. split; [exact Hrun|]. split.
      * destruct (Hback (lit "a.txt")) as (c & Hc & Hr).
        { rewrite Efiles. apply list_elem_of_here. }
        vm_compute in Hc. injection Hc as <-. exact Hr.
      * destruct (Hback (lit "src/b.ts")) as (c & Hc & Hr).
        { rewrite Efiles. apply list_elem_of_further, list_elem_of_here. }
        vm_compute in Hc. injection Hc as <-. exact Hr.
Defined.

End SnapshotMore.

(* ===================================================================== *)
(** * Further properties of the loop engine                             *)
(* ===================================================================== *)

Module EngineMore.
Import JS JSFacts Engine EngineProofs.

(** ** The stages of one pass of the loop *)

(** The engine when the callback is about to be called, when its promise
    has settled, when the observer of the end has been told, and when
    the cooldown is over. *)
Abbreviation context taskText run_id iter :=
  (mkContext (iter + 1) taskText run_id).

Abbreviation prepared taskText run_id iter e :=
  (let e0 :=
     set_client
       (DB.updateLoopRun run_id (DB.mkUpdate None (Some (iter + 1)) None)
          (client e))
       (set_currentIteration (iter + 1) e) in
   match iterationStartCallback e with
   | Some h => notify (IterationStarted h (context taskText run_id iter)) e0
   | None => e0
   end).

Abbreviation inFlight run e :=
  (if callsStop run then stop (advance (duration run) e)
   else advance (duration run) e).

Abbreviation ended taskText run_id iter res e :=
  (match iterationEndCallback e with
   | Some h => notify (IterationEnded h (context taskText run_id iter) res) e
   | None => e
   end).

Abbreviation cooled stopInCooldown maxIterations cooldownMs iter e :=
  (if (iter + 1 <? maxIterations) && negb (stopRequested e)
   then if stopInCooldown (iter + 1) then stop (advance cooldownMs e)
        else advance cooldownMs e
   else e).

Section Passes.
Variable stopInCooldown : Z -> bool.
Variable taskText run_id : jsstring.
Variable maxIterations cooldownMs : Z.

Abbreviation body :=
  (loopBody stopInCooldown taskText run_id maxIterations cooldownMs).
Abbreviation loop :=
  (mainLoop stopInCooldown taskText run_id maxIterations cooldownMs).

Lemma loopBody_stages (iter : Z) (lastError : option jsstring)
    (e : LoopEngine) :
  body iter lastError e =
    if stopRequested e then
      Return (finish taskText run_id DB.stopped
                (mkLoopResult false iter reason_stopped run_id None) e)
    else
      match iterationCallback e with
      | None =>
          Return (catchError taskText run_id
                    (lit "No iteration callback set. Call onIteration() before start().")
                    (iter + 1) (prepared taskText run_id iter e))
      | Some callback =>
          let run := callback (context taskText run_id iter) in
          let e2 := inFlight run (prepared taskText run_id iter e) in
          match settles run with
          | RejectedWith message =>
              Return (catchError taskText run_id message (iter + 1) e2)
          | Fulfilled res =>
              if it_success res then
                Return (finish taskText run_id DB.success
                          (mkLoopResult true (iter + 1) reason_success run_id None)
                          (ended taskText run_id iter res e2))
              else
                Continue (if error_truthy (it_error res) then it_error res
                          else lastError)
                         (cooled stopInCooldown maxIterations cooldownMs iter (ended taskText run_id iter res e2))
          end
      end.
Proof.
  unfold loopBody. destruct (stopRequested e); [reflexivity|].
  engine_simpl.
  destruct (iterationStartCallback e) as [h|]; engine_simpl;
    (destruct (iterationCallback e) as [cb|]; [|reflexivity]);
    cbv zeta; destruct (callsStop (cb (context taskText run_id iter)));
    destruct (settles (cb (context taskText run_id iter))) as [res|m]; try reflexivity.
Qed.

(** Induction over the passes of the loop: a property of the counter,
    the last error and the engine that every pass keeps gives a property
    of the result. *)
Lemma mainLoop_ind (P : Z -> option jsstring -> LoopEngine -> Prop)
    (Q : LoopResult -> LoopEngine -> Prop) :
  (forall iter lastError e,
     P iter lastError e -> iter < maxIterations ->
     match body iter lastError e with
     | Return (outcome, e') => forall r, outcome = Resolved r -> Q r e'
     | Continue lastError' e' => P (iter + 1) lastError' e'
     end) ->
  (forall iter lastError e,
     P iter lastError e -> maxIterations <= iter ->
     Q (mkLoopResult false iter reason_max_iterations run_id lastError)
       (snd (finish taskText run_id DB.failed
               (mkLoopResult false iter reason_max_iterations run_id lastError)
               e))) ->
  forall (fuel : nat) (iter : Z) (lastError : option jsstring)
         (e : LoopEngine) (r : LoopResult) (e' : LoopEngine),
    P iter lastError e ->
    loop fuel iter lastError e = (Resolved r, e') ->
    Q r e'.
Proof.
  intros Hpass Hend.
  induction fuel as [|fuel IH]; intros iter lastError e r e' HP;
    cbn [mainLoop]; destruct (Z.ltb_spec iter maxIterations) as [Hlt|Hge].
  - discriminate.
  - intros [= <- <-]. now apply Hend.
  - pose proof (Hpass iter lastError e HP Hlt) as Hstep.
    destruct (body iter lastError e) as [[o e1]|le e1].
    + intros [= -> ->]. now apply Hstep.
    + now apply IH.
  - intros [= <- <-]. now apply Hend.
Qed.

(** ** The result of a run *)

Ltac result_facts :=
  cbn [loopRunId success reason iterations error];
  repeat match goal with
         | H : _ = _ |- _ => discriminate H
         | |- _ /\ _ => split
         | |- _ <-> _ => split
         | |- _ -> _ => intro
         | |- exists _, _ => eexists
         end;
  try (discriminate || congruence || lia || reflexivity || eauto).

(** The result of the loop from the counter [iter] on. *)
Lemma mainLoop_result (fuel : nat) (iter : Z) (lastError : option jsstring)
    (e : LoopEngine) (r : LoopResult) (e' : LoopEngine) :
  (forall m, lastError = Some m -> m <> []) ->
  loop fuel iter lastError e = (Resolved r, e') ->
  loopRunId r = run_id
  /\ (success r = true <-> reason r = reason_success)
  /\ (reason r = reason_error -> iter < iterations r /\ exists m, error r = Some m)
  /\ (reason r = reason_success -> iter < iterations r /\ error r = None)
  /\ (reason r = reason_stopped -> error r = None)
  /\ (reason r = reason_max_iterations ->
      iterations r = Z.max iter maxIterations
      /\ forall m, error r = Some m -> m <> [])
  /\ iter <= iterations r <= Z.max iter maxIterations.
Proof.
  intros Hle Hrun.
  refine (mainLoop_ind
           (fun i le _ => iter <= i <= Z.max iter maxIterations
                          /\ forall m, le = Some m -> m <> [])
           (fun r _ =>
              loopRunId r = run_id
              /\ (success r = true <-> reason r = reason_success)
              /\ (reason r = reason_error ->
                  iter < iterations r /\ exists m, error r = Some m)
              /\ (reason r = reason_success ->
                  iter < iterations r /\ error r = None)
              /\ (reason r = reason_stopped -> error r = None)
              /\ (reason r = reason_max_iterations ->
                  iterations r = Z.max iter maxIterations
                  /\ forall m, error r = Some m -> m <> [])
              /\ iter <= iterations r <= Z.max iter maxIterations)
           _ _ fuel iter lastError e r e' _ Hrun); [| |split; [lia|exact Hle]].
  - intros i le e0 [Hi Hne] Hlt. rewrite loopBody_stages.
    destruct (stopRequested e0).
    { unfold finish. intros r0 [= <-]. result_facts. }
    destruct (iterationCallback e0) as [cb|].
    2:{ unfold catchError, finish. intros r0 [= <-]. result_facts. }
    cbv zeta. destruct (settles (cb (context taskText run_id i))) as [res|m].
    2:{ unfold catchError, finish. intros r0 [= <-]. result_facts. }
    destruct (it_success res).
    { unfold finish. intros r0 [= <-]. result_facts. }
    split; [lia|].
    destruct (it_error res) as [m|] eqn:Em; cbn [error_truthy]; [|exact Hne].
    destruct (truthy m) eqn:Tm; [|exact Hne].
    intros m' [= <-]. now apply truthy_true.
  - intros i le e0 [Hi Hne] Hge. result_facts.
Qed.
End Passes.



(** ** The run in the database *)

Lemma getLoopRun_updateLoopRun (rid : jsstring) (u : DB.LoopRunUpdate)
    (c : DB.Client) :
  DB.getLoopRun rid (DB.updateLoopRun rid u c)
  = DB.applyUpdate u <$> DB.getLoopRun rid c.
Proof.
  unfold DB.getLoopRun, DB.updateLoopRun. cbn [DB.loop_runs].
  induction (DB.loop_runs c) as [|x rows IH]; [reflexivity|].
  cbn [map find]. destruct (str_eqb (DB.id x) rid) eqn:E.
  - cbn [DB.applyUpdate DB.id]. rewrite E. reflexivity.
  - rewrite E. exact IH.
Qed.

Section Tracking.
Variable stopInCooldown : Z -> bool.
Variable taskText run_id : jsstring.
Variable maxIterations cooldownMs : Z.
Variable sid : jsstring.
Variable obs0 : list DB.Observation.

(** What a pass keeps: the engine holds the run, the rows of the run
    carry the counter, no other run of the session is running, and no
    observation has been added. *)
Abbreviation rowInv iter :=
  (fun x : DB.LoopRun =>
     (DB.id x = run_id -> DB.iterations x = iter)
     /\ (DB.session_id x = sid -> DB.status x = DB.running -> DB.id x = run_id)).

Abbreviation Tracked iter e :=
  (sessionId e = sid
   /\ (exists run, currentLoopRun e = Some run /\ DB.id run = run_id)
   /\ DB.observations (client e) = obs0
   /\ Forall (rowInv iter) (DB.loop_runs (client e))
   /\ Exists (fun x => DB.id x = run_id) (DB.loop_runs (client e))).

(** What every way out of the loop leaves behind. *)
Abbreviation Final r e :=
  (sessionId e = sid
   /\ (exists row,
         currentLoopRun e = Some row
         /\ DB.getLoopRun run_id (client e) = Some row
         /\ DB.id row = run_id
         /\ DB.status row = finalStatus (reason r)
         /\ DB.iterations row = iterations r
         /\ DB.ended_at row = Some (clock e))
   /\ Forall (fun x => DB.session_id x = sid -> DB.status x <> DB.running)
             (DB.loop_runs (client e))
   /\ exists content,
        DB.observations (client e)
        = obs0 ++ [DB.mkObservation sid
                     (if success r then DB.success_obs else DB.note) content
                     (if success r then 9 else 7) (Some run_id)
                     (Some (iterations r))]).

Lemma tracked_ext (iter : Z) (e e' : LoopEngine) :
  sessionId e' = sessionId e ->
  currentLoopRun e' = currentLoopRun e ->
  client e' = client e ->
  Tracked iter e -> Tracked iter e'.
Proof. intros -> -> ->. auto. Qed.

Lemma rows_update (iter n : Z) (u : DB.LoopRunUpdate)
    (rows : list DB.LoopRun) :
  (forall x, DB.iterations x = iter -> DB.iterations (DB.applyUpdate u x) = n) ->
  Forall (rowInv iter) rows ->
  Forall (rowInv n)
    (map (fun x => if str_eqb (DB.id x) run_id then DB.applyUpdate u x else x)
         rows)
  /\ (Exists (fun x => DB.id x = run_id) rows ->
      Exists (fun x => DB.id x = run_id)
        (map (fun x => if str_eqb (DB.id x) run_id then DB.applyUpdate u x
                       else x) rows)).
Proof.
  intros Hu Hrows. split.
  - induction Hrows as [|x rows [H1 H2] _ IH]; [constructor|].
    cbn [map]. constructor; [|exact IH].
    destruct (str_eqb (DB.id x) run_id) eqn:E.
    + apply str_eqb_true in E. split; [|auto].
      intros _. apply Hu. auto.
    + apply str_eqb_false in E. split; [contradiction|exact H2].
  - intros Hex. apply Exists_exists in Hex as (x & Hin & Hx).
    apply Exists_exists.
    exists (if str_eqb (DB.id x) run_id then DB.applyUpdate u x else x).
    split;
      [exact (list_elem_of_fmap_2
                (fun x => if str_eqb (DB.id x) run_id then DB.applyUpdate u x
                          else x) rows x Hin)|].
    destruct (str_eqb (DB.id x) run_id); exact Hx.
Qed.

Lemma tracked_row (iter : Z) (e : LoopEngine) :
  Tracked iter e ->
  exists row,
    DB.getLoopRun run_id (client e) = Some row
    /\ DB.id row = run_id /\ DB.iterations row = iter.
Proof.
  intros (_ & _ & _ & Hrows & Hex).
  unfold DB.getLoopRun.
  destruct (find _ _) as [row|] eqn:E.
  - apply find_some in E as [Hin E]. apply str_eqb_true in E.
    exists row. split; [reflexivity|]. split; [exact E|].
    rewrite Forall_forall in Hrows.
    apply list_elem_of_In in Hin. now apply (Hrows row Hin).
  - exfalso. apply Exists_exists in Hex as (x & Hin & Hx).
    apply list_elem_of_In in Hin.
    pose proof (find_none _ _ E x Hin) as Hf. cbn in Hf.
    apply str_eqb_false in Hf. contradiction.
Qed.

Lemma tracked_count (iter n : Z) (e : LoopEngine) :
  Tracked iter e ->
  Tracked n
    (set_client
       (DB.updateLoopRun run_id (DB.mkUpdate None (Some n) None) (client e)) e).
Proof.
  intros (H1 & H2 & H3 & H4 & H5). engine_simpl.
  destruct (rows_update iter n (DB.mkUpdate None (Some n) None)
              (DB.loop_runs (client e))) as [G1 G2]; [reflexivity|exact H4|].
  split; [exact H1|]. split; [exact H2|]. split; [exact H3|].
  split; [exact G1|exact (G2 H5)].
Qed.

Lemma tracked_endLoopRun (iter : Z) (s : DB.LoopStatus) (e : LoopEngine) :
  Tracked iter e -> s <> DB.running ->
  Tracked iter (endLoopRun s e)
  /\ exists row,
       currentLoopRun (endLoopRun s e) = Some row
       /\ DB.getLoopRun run_id (client (endLoopRun s e)) = Some row
       /\ DB.id row = run_id /\ DB.status row = s
       /\ DB.iterations row = iter
       /\ DB.ended_at row = Some (clock e)
       /\ Forall (fun x => DB.session_id x = sid -> DB.status x <> DB.running)
                 (DB.loop_runs (client (endLoopRun s e))).
Proof.
  intros HT Hs. pose proof HT as (H1 & (run & Hrun & Hid) & H3 & H4 & H5).
  destruct (tracked_row iter e HT) as (row & Hrow & Hrid & Hrit).
  unfold endLoopRun. rewrite Hrun, Hid. engine_simpl.
  rewrite getLoopRun_updateLoopRun, Hrow. cbn [fmap option_fmap option_map].
  destruct (rows_update iter iter (DB.mkUpdate (Some s) None (Some (clock e)))
              (DB.loop_runs (client e))) as [G1 G2]; [auto|exact H4|].
  split.
  - split; [exact H1|]. split; [eexists; split; [reflexivity|exact Hrid]|].
    split; [exact H3|]. split; [exact G1|exact (G2 H5)].
  - eexists. split; [reflexivity|]. split; [reflexivity|].
    split; [exact Hrid|]. split; [reflexivity|]. split; [exact Hrit|].
    split; [reflexivity|].
    clear -H4 Hs. induction H4 as [|x rows [_ Hx] _ IH]; [constructor|].
    cbn [map]. constructor; [|exact IH].
    destruct (str_eqb (DB.id x) run_id) eqn:E.
    + intros _. cbn. exact Hs.
    + apply str_eqb_false in E. intros Hsess Hrunning. auto.
Qed.

Lemma tracked_stop (iter : Z) (e : LoopEngine) :
  Tracked iter e -> Tracked iter (stop e).
Proof.
  intros HT. unfold stop.
  assert (HT' : Tracked iter (set_stopRequested true e))
    by (revert HT; apply tracked_ext; reflexivity).
  destruct (run_is_running _); [|exact HT'].
  apply tracked_endLoopRun; [exact HT'|discriminate].
Qed.

Lemma tracked_prepared (iter : Z) (e : LoopEngine) :
  Tracked iter e -> Tracked (iter + 1) (prepared taskText run_id iter e).
Proof.
  intros HT. pose proof (tracked_count iter (iter + 1) e HT) as H.
  cbv zeta. destruct (iterationStartCallback e); revert H;
    apply tracked_ext; reflexivity.
Qed.

Lemma tracked_inFlight (iter : Z) (run : CallbackRun) (e : LoopEngine) :
  Tracked iter e -> Tracked iter (inFlight run e).
Proof.
  intros HT.
  assert (HT' : Tracked iter (advance (duration run) e))
    by (revert HT; apply tracked_ext; reflexivity).
  destruct (callsStop run); [now apply tracked_stop|exact HT'].
Qed.

Lemma tracked_ended (n iter : Z) (res : IterationResult) (e : LoopEngine) :
  Tracked n e -> Tracked n (ended taskText run_id iter res e).
Proof.
  intros HT. destruct (iterationEndCallback e); [|exact HT].
  revert HT. apply tracked_ext; reflexivity.
Qed.

Lemma tracked_cooled (n iter : Z) (e : LoopEngine) :
  Tracked n e ->
  Tracked n (cooled stopInCooldown maxIterations cooldownMs iter e).
Proof.
  intros HT.
  assert (HT' : Tracked n (advance cooldownMs e))
    by (revert HT; apply tracked_ext; reflexivity).
  destruct (_ && _); [|exact HT].
  destruct (stopInCooldown _); [now apply tracked_stop|exact HT'].
Qed.

Lemma finish_final (iter : Z) (s : DB.LoopStatus) (r : LoopResult)
    (e : LoopEngine) :
  Tracked iter e -> iterations r = iter -> s = finalStatus (reason r) ->
  Final r (snd (finish taskText run_id s r e)).
Proof.
  intros HT Hit Hs.
  assert (Hnr : s <> DB.running) by (subst s; destruct (reason r); discriminate).
  destruct (tracked_endLoopRun iter s e HT Hnr)
    as ((H1 & _ & H3 & _ & _) & row & Hcur & Hrow & Hrid & Hst & Hrit & Hend
        & Hquiet).
  unfold finish. cbn [snd].
  set (e1 := endLoopRun s e) in *.
  assert (Hclock : clock e1 = clock e).
  { unfold e1, endLoopRun. destruct (currentLoopRun e); reflexivity. }
  unfold fireComplete, createLoopSummary.
  destruct (completeCallback _); engine_simpl.
  all: split; [exact H1|].
  all: split;
    [exists row; rewrite Hclock;
     repeat split; try assumption; congruence|].
  all: split; [exact Hquiet|].
  all: rewrite H3, H1; eexists; reflexivity.
Qed.

Lemma loopBody_tracked (iter : Z) (lastError : option jsstring)
    (e : LoopEngine) :
  Tracked iter e ->
  match loopBody stopInCooldown taskText run_id maxIterations cooldownMs
                 iter lastError e with
  | Return (outcome, e') => forall r, outcome = Resolved r -> Final r e'
  | Continue _ e' => Tracked (iter + 1) e'
  end.
Proof.
  intros HT. rewrite loopBody_stages.
  destruct (stopRequested e).
  { intros r [= <-]. now apply (finish_final iter). }
  pose proof (tracked_prepared iter e HT) as HT1.
  destruct (iterationCallback e) as [cb|].
  2:{ intros r [= <-]. unfold catchError.
      now apply (finish_final (iter + 1)). }
  cbv zeta.
  pose proof (tracked_inFlight (iter + 1) (cb (context taskText run_id iter))
                _ HT1) as HT2.
  destruct (settles _) as [res|m].
  2:{ intros r [= <-]. unfold catchError.
      now apply (finish_final (iter + 1)). }
  pose proof (tracked_ended (iter + 1) iter res _ HT2) as HT3.
  destruct (it_success res).
  { intros r [= <-]. now apply (finish_final (iter + 1)). }
  now apply tracked_cooled.
Qed.

Lemma mainLoop_final (fuel : nat) (iter : Z) (lastError : option jsstring)
    (e : LoopEngine) (r : LoopResult) (e' : LoopEngine) :
  Tracked iter e ->
  mainLoop stopInCooldown taskText run_id maxIterations cooldownMs
           fuel iter lastError e = (Resolved r, e') ->
  Final r e'.
Proof.
  intros HT Hrun.
  refine (mainLoop_ind stopInCooldown taskText run_id maxIterations cooldownMs
            (fun i _ e0 => Tracked i e0) (fun r0 e0 => Final r0 e0)
            _ _ fuel iter lastError e r e' HT Hrun).
  - intros i le e0 H _. now apply loopBody_tracked.
  - intros i le e0 H _. now apply (finish_final i).
Qed.
End Tracking.

(** What [start] leaves behind when it resolves and the id of the new
    run was not in use. *)
Lemma start_final (stopInCooldown : Z -> bool) (taskText : jsstring)
    (loopOptions : option LoopOptions) (e : LoopEngine)
    (r : LoopResult) (e' : LoopEngine) :
  start stopInCooldown taskText loopOptions e = (Resolved r, e') ->
  DB.getLoopRun (nextRunId (client e)) (client e) = None ->
  sessionId e' = sessionId e
  /\ (exists row,
        currentLoopRun e' = Some row
        /\ DB.getLoopRun (nextRunId (client e)) (client e') = Some row
        /\ DB.id row = nextRunId (client e)
        /\ DB.status row = finalStatus (reason r)
        /\ DB.iterations row = iterations r
        /\ DB.ended_at row = Some (clock e'))
  /\ Forall (fun x => DB.session_id x = sessionId e -> DB.status x <> DB.running)
            (DB.loop_runs (client e'))
  /\ exists content,
       DB.observations (client e')
       = DB.observations (client e)
         ++ [DB.mkObservation (sessionId e)
               (if success r then DB.success_obs else DB.note) content
               (if success r then 9 else 7) (Some (nextRunId (client e)))
               (Some (iterations r))].
Proof.
  unfold start.
  destruct (DB.getActiveLoopRun (sessionId e) (client e)) eqn:Hactive;
    [discriminate|].
  cbn [sessionId set_stopRequested config client clock DB.createLoopRun DB.id].
  fold (nextRunId (client e)).
  intros Hrun Hfree.
  apply (mainLoop_final _ _ _ _ _ (sessionId e) (DB.observations (client e)))
    in Hrun; [exact Hrun|].
  engine_simpl. split; [reflexivity|].
  split; [eexists; split; reflexivity|]. split; [reflexivity|].
  split.
  - apply Forall_app. split.
    + apply Forall_forall. intros x Hin. apply list_elem_of_In in Hin. split.
      * intros Hx. exfalso.
        pose proof (find_none _ _ Hfree x Hin) as Hf. cbn in Hf.
        apply str_eqb_false in Hf. contradiction.
      * intros Hsess Hrunning. exfalso.
        unfold DB.getActiveLoopRun in Hactive.
        pose proof (find_none _ _ Hactive x (proj1 (in_rev _ _) Hin)) as Hf.
        cbn in Hf. rewrite Hsess, str_eqb_refl, bool_decide_eq_true_2 in Hf
          by exact Hrunning. discriminate.
    + constructor; [|constructor]. cbn. auto.
  - apply Exists_app. right. constructor. reflexivity.
Qed.

Lemma find_all_false {A : Type} (f : A -> bool) (l : list A) :
  (forall x, In x l -> f x = false) -> find f l = None.
Proof.
  induction l as [|x l IH]; intros H; [reflexivity|].
  cbn [find]. rewrite (H x (or_introl eq_refl)). apply IH.
  intros y Hy. apply H. now right.
Qed.

Lemma quiet_no_active (sid : jsstring) (c : DB.Client) :
  Forall (fun x => DB.session_id x = sid -> DB.status x <> DB.running)
         (DB.loop_runs c) ->
  DB.getActiveLoopRun sid c = None.
Proof.
  intros H. unfold DB.getActiveLoopRun. apply find_all_false.
  intros x Hin. apply in_rev, list_elem_of_In in Hin.
  rewrite Forall_forall in H. specialize (H x Hin).
  destruct (str_eqb (DB.session_id x) sid) eqn:E; [|reflexivity].
  apply str_eqb_true in E. cbn [andb].
  apply bool_decide_eq_false_2. auto.
Qed.

Lemma finalStatus_not_running (r : LoopReason) : finalStatus r <> DB.running.
Proof. destruct r; discriminate. Qed.

Lemma start_loopRunId (stopInCooldown : Z -> bool) (taskText : jsstring)
    (loopOptions : option LoopOptions) (e : LoopEngine)
    (r : LoopResult) (e' : LoopEngine) :
  start stopInCooldown taskText loopOptions e = (Resolved r, e') ->
  loopRunId r = nextRunId (client e).
Proof.
  unfold start.
  destruct (DB.getActiveLoopRun (sessionId e) (client e)); [discriminate|].
  cbn [sessionId set_stopRequested config client clock DB.createLoopRun].
  intros Hrun. apply mainLoop_result in Hrun; [|discriminate].
  exact (proj1 Hrun).
Qed.



(** X17: when [start] has resolved (the id of its run not having been
    in use before), the row of the run read back through the engine
    agrees with the result: it has the id of the result, the number of
    iterations of the result, the status success, stopped or failed for
    the reason "success", "stopped" or anything else, and an end time. *)
Theorem start_persists_result (stopInCooldown : Z -> bool)
    (taskText : jsstring) (loopOptions : option LoopOptions) (e : LoopEngine)
    (r : LoopResult) (e' : LoopEngine) :
  start stopInCooldown taskText loopOptions e = (Resolved r, e') ->
  DB.getLoopRun (nextRunId (client e)) (client e) = None ->
  exists row,
    getCurrentRun e' = Some row
    /\ DB.id row = loopRunId r
    /\ DB.iterations row = iterations r
    /\ DB.status row = finalStatus (reason r)
    /\ DB.ended_at row = Some (clock e').
Proof.
  intros Hrun Hfree.
  destruct (start_final _ _ _ _ _ _ Hrun Hfree)
    as (_ & (row & Hcur & Hrow & Hid & Hst & Hit & Hend) & _ & _).
  pose proof (start_loopRunId _ _ _ _ _ _ Hrun) as Hrid.
  exists row. unfold getCurrentRun. rewrite Hcur, Hid, Hrow.
  split; [reflexivity|]. split; [now rewrite Hrid|].
  split; [exact Hit|]. split; [exact Hst|exact Hend].
Qed.

Lemma start_persists_result_witness :
  let out := start noStop (lit "task")
               (Some (mkLoopOptions None (Some 3) (Some 0)))
               (onIteration succeedsFromSecond idleEngine) in
  exists row,
    getCurrentRun (snd out) = Some row
    /\ DB.id row = lit "loop-0"
    /\ DB.iterations row = 2
    /\ DB.status row = DB.success.
Proof.
  intros out.
  assert (E : out = (Resolved (mkLoopResult true 2 reason_success (lit "loop-0")
                                None), snd out))
    by (vm_compute; reflexivity).
  destruct (start_persists_result _ _ _ _ _ _ E)
    as (row & H1 & H2 & H3 & H4 & _); [vm_compute; reflexivity|].
  exists row. auto.
Defined.



(** ** Stopping *)

Lemma endLoopRun_not_running (s : DB.LoopStatus) (e : LoopEngine) :
  s <> DB.running ->
  run_is_running (currentLoopRun e) = true ->
  run_is_running (currentLoopRun (endLoopRun s e)) = false.
Proof.
  intros Hs Hrun. unfold endLoopRun.
  destruct (currentLoopRun e) as [run|]; [|discriminate]. engine_simpl.
  rewrite getLoopRun_updateLoopRun.
  destruct (DB.getLoopRun (DB.id run) (client e)) as [row|]; [|reflexivity].
  cbn. now apply bool_decide_eq_false_2.
Qed.

Lemma set_stopRequested_same (e : LoopEngine) :
  stopRequested e = true -> set_stopRequested true e = e.
Proof. destruct e. cbn. now intros ->. Qed.

(** X19: [stop] sets the stop flag and leaves the engine not running
    and without loop context; on an engine that is not running it
    changes nothing else, the database included; on one that is running
    it records the run as stopped, with the time, in the database; and
    stopping twice is stopping once. *)
Theorem stop_marks_run_stopped (e : LoopEngine) :
  stopRequested (stop e) = true
  /\ isRunning (stop e) = false
  /\ getLoopContext (stop e) = None
  /\ stop (stop e) = stop e
  /\ (isRunning e = false -> stop e = set_stopRequested true e)
  /\ (forall run, isRunning e = true -> currentLoopRun e = Some run ->
      client (stop e)
      = DB.updateLoopRun (DB.id run)
          (DB.mkUpdate (Some DB.stopped) None (Some (clock e))) (client e)).
Proof.
  assert (Hnr : isRunning (stop e) = false).
  { unfold isRunning, stop. cbn [set_stopRequested currentLoopRun].
    destruct (run_is_running (currentLoopRun e)) eqn:R; [|exact R].
    apply endLoopRun_not_running; [discriminate|exact R]. }
  split; [apply stop_stopRequested|]. split; [exact Hnr|].
  split.
  { unfold isRunning, run_is_running in Hnr. unfold getLoopContext.
    destruct (currentLoopRun (stop e)); [now rewrite Hnr|reflexivity]. }
  split.
  { unfold stop at 1. cbn [set_stopRequested currentLoopRun].
    unfold isRunning in Hnr. rewrite Hnr.
    apply set_stopRequested_same, stop_stopRequested. }
  split.
  { unfold isRunning, stop. cbn [set_stopRequested currentLoopRun].
    now intros ->. }
  intros run Hrun Hcur. unfold isRunning in Hrun. unfold stop.
  cbn [set_stopRequested currentLoopRun]. rewrite Hrun.
  unfold endLoopRun. cbn [set_stopRequested currentLoopRun]. rewrite Hcur.
  reflexivity.
Qed.

Lemma stop_marks_run_stopped_witness :
  stop idleEngine = set_stopRequested true idleEngine
  /\ client (stop (set_currentLoopRun (Some earlierRun) busyEngine))
     = DB.updateLoopRun (lit "loop-0")
         (DB.mkUpdate (Some DB.stopped) None (Some 0)) busyClient.
Proof.
  split.
  - destruct (stop_marks_run_stopped idleEngine) as (_ & _ & _ & _ & H & _).
    apply H. reflexivity.
  - destruct (stop_marks_run_stopped
                (set_currentLoopRun (Some earlierRun) busyEngine))
      as (_ & _ & _ & _ & _ & H).
    apply (H earlierRun); reflexivity.
Defined.

(** ** What the loop computes *)

Lemma endLoopRun_clock (s : DB.LoopStatus) (e : LoopEngine) :
  clock (endLoopRun s e) = clock e.
Proof. unfold endLoopRun. destruct (currentLoopRun e); reflexivity. Qed.

Lemma stop_clock (e : LoopEngine) : clock (stop e) = clock e.
Proof.
  unfold stop. destruct (run_is_running _); [|reflexivity].
  now rewrite endLoopRun_clock.
Qed.

Section Scenarios.
Variable stopInCooldown : Z -> bool.
Variable taskText run_id : jsstring.
Variable maxIterations cooldownMs : Z.
Variable cb : IterationCallback.

Abbreviation body :=
  (loopBody stopInCooldown taskText run_id maxIterations cooldownMs).
Abbreviation loop :=
  (mainLoop stopInCooldown taskText run_id maxIterations cooldownMs).
Abbreviation runOf j := (cb (mkContext j taskText run_id)).

Lemma finish_clock (s : DB.LoopStatus) (r : LoopResult) (e : LoopEngine) :
  clock (snd (finish taskText run_id s r e)) = clock e.
Proof.
  unfold finish, fireComplete, createLoopSummary. cbn [snd].
  destruct (completeCallback _); engine_simpl; apply endLoopRun_clock.
Qed.

Lemma prepared_clock (iter : Z) (e : LoopEngine) :
  clock (prepared taskText run_id iter e) = clock e.
Proof. cbv zeta. destruct (iterationStartCallback e); reflexivity. Qed.

Lemma inFlight_clock (run : CallbackRun) (e : LoopEngine) :
  clock (inFlight run e) = clock e + Z.max 0 (duration run).
Proof. destruct (callsStop run); rewrite ?stop_clock; reflexivity. Qed.

Lemma ended_clock (iter : Z) (res : IterationResult) (e : LoopEngine) :
  clock (ended taskText run_id iter res e) = clock e.
Proof. destruct (iterationEndCallback e); reflexivity. Qed.

(** A pass whose callback reports failure, nobody calling [stop()]. *)
Lemma pass_quiet (iter : Z) (lastError : option jsstring) (e : LoopEngine)
    (res : IterationResult) :
  stopRequested e = false ->
  iterationCallback e = Some cb ->
  settles (runOf (iter + 1)) = Fulfilled res ->
  it_success res = false ->
  callsStop (runOf (iter + 1)) = false ->
  stopInCooldown (iter + 1) = false ->
  exists e',
    body iter lastError e
    = Continue (if error_truthy (it_error res) then it_error res
                else lastError) e'
    /\ stopRequested e' = false
    /\ iterationCallback e' = Some cb
    /\ clock e'
       = clock e + Z.max 0 (duration (runOf (iter + 1)))
         + (if iter + 1 <? maxIterations then Z.max 0 cooldownMs else 0).
Proof.
  intros Hflag Hcb Hres Hfail Hquiet Hcool.
  rewrite loopBody_stages, Hflag, Hcb. cbv zeta.
  rewrite Hres, Hfail, Hquiet, Hcool.
  eexists. split; [reflexivity|].
  destruct (iterationStartCallback e) as [h|]; engine_simpl;
    (destruct (iterationEndCallback e) as [h'|]; engine_simpl);
    rewrite Hflag; cbn [negb]; rewrite andb_true_r;
    destruct (iter + 1 <? maxIterations); engine_simpl;
    (split; [exact Hflag|]); (split; [exact Hcb|]); lia.
Qed.

(** The last pass the limit allows, its callback reporting failure. *)
Lemma pass_last (iter : Z) (lastError : option jsstring) (e : LoopEngine)
    (res : IterationResult) :
  stopRequested e = false ->
  iterationCallback e = Some cb ->
  settles (runOf (iter + 1)) = Fulfilled res ->
  it_success res = false ->
  maxIterations <= iter + 1 ->
  exists e',
    body iter lastError e
    = Continue (if error_truthy (it_error res) then it_error res
                else lastError) e'
    /\ clock e' = clock e + Z.max 0 (duration (runOf (iter + 1))).
Proof.
  intros Hflag Hcb Hres Hfail Hlast.
  rewrite loopBody_stages, Hflag, Hcb. cbv zeta. rewrite Hres, Hfail.
  eexists. split; [reflexivity|].
  destruct (Z.ltb_spec (iter + 1) maxIterations); [lia|]. cbn [andb].
  rewrite ended_clock, inFlight_clock, prepared_clock. reflexivity.
Qed.

Lemma pass_success (iter : Z) (lastError : option jsstring) (e : LoopEngine)
    (res : IterationResult) :
  stopRequested e = false ->
  iterationCallback e = Some cb ->
  settles (runOf (iter + 1)) = Fulfilled res ->
  it_success res = true ->
  exists e',
    body iter lastError e
    = Return (Resolved (mkLoopResult true (iter + 1) reason_success run_id None),
              e').
Proof.
  intros Hflag Hcb Hres Hok.
  rewrite loopBody_stages, Hflag, Hcb. cbv zeta. rewrite Hres, Hok.
  unfold finish. eauto.
Qed.

Lemma pass_rejected (iter : Z) (lastError : option jsstring) (e : LoopEngine)
    (message : jsstring) :
  stopRequested e = false ->
  iterationCallback e = Some cb ->
  settles (runOf (iter + 1)) = RejectedWith message ->
  exists e',
    body iter lastError e
    = Return (Resolved (mkLoopResult false (iter + 1) reason_error run_id
                          (Some message)),
              e').
Proof.
  intros Hflag Hcb Hres.
  rewrite loopBody_stages, Hflag, Hcb. cbv zeta. rewrite Hres.
  unfold catchError, finish. eauto.
Qed.

(** A run of [n] quiet failing passes, each followed by its cooldown. *)
Lemma quiet_prefix (n : nat) :
  forall (fuel : nat) (iter : Z) (lastError : option jsstring) (e : LoopEngine),
    stopRequested e = false ->
    iterationCallback e = Some cb ->
    iter + Z.of_nat n < maxIterations ->
    (forall j, iter < j <= iter + Z.of_nat n ->
       (exists res, settles (runOf j) = Fulfilled res /\ it_success res = false)
       /\ callsStop (runOf j) = false /\ stopInCooldown j = false) ->
    exists lastError' e',
      loop (n + fuel) iter lastError e
      = loop fuel (iter + Z.of_nat n) lastError' e'
      /\ stopRequested e' = false
      /\ iterationCallback e' = Some cb
      /\ ((forall j res, iter < j <= iter + Z.of_nat n ->
             settles (runOf j) = Fulfilled res ->
             error_truthy (it_error res) = false) ->
          lastError' = lastError)
      /\ (forall d,
            (forall j, iter < j <= iter + Z.of_nat n -> duration (runOf j) = d) ->
            clock e'
            = clock e + Z.of_nat n * (Z.max 0 d + Z.max 0 cooldownMs)).
Proof.
  induction n as [|n IH]; intros fuel iter lastError e Hflag Hcb Hlim Hquiet.
  - exists lastError, e. rewrite Z.add_0_r. cbn [Nat.add].
    repeat split; auto. intros d _. cbn. lia.
  - destruct (Hquiet (iter + 1)) as ((res & Hres & Hfail) & Hq & Hc); [lia|].
    destruct (pass_quiet iter lastError e res Hflag Hcb Hres Hfail Hq Hc)
      as (e1 & Hpass & Hflag1 & Hcb1 & Hclock1).
    destruct (IH fuel (iter + 1)
                (if error_truthy (it_error res) then it_error res
                 else lastError) e1 Hflag1 Hcb1)
      as (le' & e' & Hloop & Hflag' & Hcb' & Hle & Hclock); [lia| |].
    { intros j Hj. apply Hquiet. lia. }
    exists le', e'. split.
    { cbn [Nat.add mainLoop].
      destruct (Z.ltb_spec iter maxIterations); [|lia].
      rewrite Hpass, Hloop. f_equal. lia. }
    split; [exact Hflag'|]. split; [exact Hcb'|]. split.
    + intros Hnone. rewrite Hle.
      * now rewrite (Hnone (iter + 1) res) by (lia || assumption).
      * intros j r Hj. apply Hnone. lia.
    + intros d Hd. rewrite (Hclock d) by (intros j Hj; apply Hd; lia).
      rewrite Hclock1, (Hd (iter + 1)) by lia.
      destruct (Z.ltb_spec (iter + 1) maxIterations); lia.
Qed.
End Scenarios.

Lemma start_unfold (stopInCooldown : Z -> bool) (taskText : jsstring)
    (loopOptions : option LoopOptions) (e : LoopEngine) :
  DB.getActiveLoopRun (sessionId e) (client e) = None ->
  exists e0,
    start stopInCooldown taskText loopOptions e
    = mainLoop stopInCooldown taskText (nextRunId (client e))
        (default (max_iterations (config e)) (loopOptions ≫= opt_maxIterations))
        (default (cooldown_ms (config e)) (loopOptions ≫= opt_cooldownMs))
        (Z.to_nat (default (max_iterations (config e))
                           (loopOptions ≫= opt_maxIterations)))
        0 None e0
    /\ stopRequested e0 = false
    /\ iterationCallback e0 = iterationCallback e
    /\ clock e0 = clock e.
Proof.
  intros Hactive. unfold start. rewrite Hactive.
  cbn [sessionId set_stopRequested config client clock DB.createLoopRun DB.id].
  eexists. split; [reflexivity|]. repeat split.
Qed.







(** ** What the observers are shown *)

Abbreviation observers e :=
  (iterationStartCallback e, iterationEndCallback e, completeCallback e,
   notified e).

Lemma endLoopRun_observers (s : DB.LoopStatus) (e : LoopEngine) :
  observers (endLoopRun s e) = observers e.
Proof. unfold endLoopRun. destruct (currentLoopRun e); reflexivity. Qed.

Lemma stop_observers (e : LoopEngine) : observers (stop e) = observers e.
Proof.
  unfold stop. destruct (run_is_running _); [|reflexivity].
  now rewrite endLoopRun_observers.
Qed.

Section Observers.
Variable stopInCooldown : Z -> bool.
Variable taskText run_id : jsstring.
Variable maxIterations cooldownMs : Z.

Lemma prepared_observers (iter : Z) (e : LoopEngine) :
  observers (prepared taskText run_id iter e)
  = (iterationStartCallback e, iterationEndCallback e, completeCallback e,
     notified e
     ++ match iterationStartCallback e with
        | Some h => [IterationStarted h (context taskText run_id iter)]
        | None => []
        end).
Proof.
  cbv zeta. destruct (iterationStartCallback e) eqn:E; engine_simpl;
    rewrite ?E, ?app_nil_r; reflexivity.
Qed.

Lemma inFlight_observers (run : CallbackRun) (e : LoopEngine) :
  observers (inFlight run e) = observers e.
Proof. destruct (callsStop run); rewrite ?stop_observers; reflexivity. Qed.

Lemma ended_observers (iter : Z) (res : IterationResult) (e : LoopEngine) :
  observers (ended taskText run_id iter res e)
  = (iterationStartCallback e, iterationEndCallback e, completeCallback e,
     notified e
     ++ match iterationEndCallback e with
        | Some h => [IterationEnded h (context taskText run_id iter) res]
        | None => []
        end).
Proof.
  destruct (iterationEndCallback e) eqn:E; engine_simpl;
    rewrite ?E, ?app_nil_r; reflexivity.
Qed.

Lemma cooled_observers (iter : Z) (e : LoopEngine) :
  observers (cooled stopInCooldown maxIterations cooldownMs iter e)
  = observers e.
Proof.
  destruct (_ && _); [|reflexivity].
  destruct (stopInCooldown _); rewrite ?stop_observers; reflexivity.
Qed.

Lemma finish_observers (s : DB.LoopStatus) (r : LoopResult) (e : LoopEngine) :
  observers (snd (finish taskText run_id s r e))
  = (iterationStartCallback e, iterationEndCallback e, completeCallback e,
     notified e
     ++ match completeCallback e with
        | Some h => [Completed h r]
        | None => []
        end).
Proof.
  pose proof (endLoopRun_observers s e) as [= H1 H2 H3 H4].
  unfold finish, fireComplete, createLoopSummary. cbn [snd]. engine_simpl.
  rewrite H3. destruct (completeCallback e); engine_simpl;
    rewrite H1, H2, ?H3, H4, ?app_nil_r; reflexivity.
Qed.

Variables (hs he hc : option nat).
Variables (started0 ended0 : list Z) (completed0 : list LoopResult).

(** What a pass keeps: the observers registered, and what they have
    been shown of the iterations so far. *)
Abbreviation Shown i e :=
  (0 <= i
   /\ iterationStartCallback e = hs
   /\ iterationEndCallback e = he
   /\ completeCallback e = hc
   /\ startedIterations (notified e)
      = started0 ++ match hs with Some _ => seqZ 1 i | None => [] end
   /\ endedIterations (notified e)
      = ended0 ++ match he with Some _ => seqZ 1 i | None => [] end
   /\ completions (notified e) = completed0).

Abbreviation ShownAll r e :=
  (startedIterations (notified e)
   = started0 ++ match hs with Some _ => seqZ 1 (iterations r) | None => [] end
   /\ endedIterations (notified e)
      = ended0
        ++ match he with
           | Some _ => seqZ 1 (match reason r with
                               | reason_error => iterations r - 1
                               | _ => iterations r
                               end)
           | None => []
           end
   /\ completions (notified e)
      = completed0 ++ match hc with Some _ => [r] | None => [] end
   /\ forall h, hc = Some h -> last (notified e) = Some (Completed h r)).

Lemma seqZ_snoc (i : Z) : 0 <= i -> seqZ 1 (i + 1) = seqZ 1 i ++ [i + 1].
Proof.
  intros Hi. rewrite seqZ_app by lia. f_equal.
  change (seqZ (1 + i) 1) with [1 + i]. f_equal. lia.
Qed.

Lemma shown_transfer (i : Z) (e e' : LoopEngine) :
  observers e' = observers e -> Shown i e -> Shown i e'.
Proof. intros [= -> -> -> ->]. auto. Qed.

Lemma shown_prepared (i : Z) (e : LoopEngine) :
  Shown i e ->
  0 <= i + 1
  /\ iterationStartCallback (prepared taskText run_id i e) = hs
  /\ iterationEndCallback (prepared taskText run_id i e) = he
  /\ completeCallback (prepared taskText run_id i e) = hc
  /\ startedIterations (notified (prepared taskText run_id i e))
     = started0 ++ match hs with Some _ => seqZ 1 (i + 1) | None => [] end
  /\ endedIterations (notified (prepared taskText run_id i e))
     = ended0 ++ match he with Some _ => seqZ 1 i | None => [] end
  /\ completions (notified (prepared taskText run_id i e)) = completed0.
Proof.
  intros (Hi & H1 & H2 & H3 & H4 & H5 & H6).
  pose proof (prepared_observers i e) as [= G1 G2 G3 G4].
  cbv zeta in *. rewrite G1, G2, G3, G4. clear G1 G2 G3 G4.
  unfold startedIterations, endedIterations, completions in *.
  rewrite !omap_app, H4, H5, H6, H1.
  split; [lia|]. split; [reflexivity|]. split; [exact H2|]. split; [exact H3|].
  destruct hs; cbn [omap list_omap]; rewrite ?app_nil_r;
    [rewrite seqZ_snoc, app_assoc by exact Hi|]; auto.
Qed.

Lemma shown_ended (i : Z) (res : IterationResult) (e : LoopEngine) :
  0 <= i ->
  iterationStartCallback e = hs -> iterationEndCallback e = he ->
  completeCallback e = hc ->
  startedIterations (notified e)
  = started0 ++ match hs with Some _ => seqZ 1 (i + 1) | None => [] end ->
  endedIterations (notified e)
  = ended0 ++ match he with Some _ => seqZ 1 i | None => [] end ->
  completions (notified e) = completed0 ->
  Shown (i + 1) (ended taskText run_id i res e).
Proof.
  intros Hi H1 H2 H3 H4 H5 H6.
  pose proof (ended_observers i res e) as [= G1 G2 G3 G4].
  rewrite G1, G2, G3, G4. clear G1 G2 G3 G4.
  unfold startedIterations, endedIterations, completions in *.
  rewrite !omap_app, H4, H5, H6, H2.
  split; [lia|]. split; [exact H1|]. split; [reflexivity|]. split; [exact H3|].
  destruct he; cbn [omap list_omap]; rewrite ?app_nil_r;
    [rewrite seqZ_snoc, app_assoc by exact Hi|]; auto.
Qed.

Lemma shown_finish (s : DB.LoopStatus) (r : LoopResult) (e : LoopEngine) :
  iterationStartCallback e = hs -> iterationEndCallback e = he ->
  completeCallback e = hc ->
  startedIterations (notified e)
  = started0 ++ match hs with Some _ => seqZ 1 (iterations r) | None => [] end ->
  endedIterations (notified e)
  = ended0
    ++ match he with
       | Some _ => seqZ 1 (match reason r with
                           | reason_error => iterations r - 1
                           | _ => iterations r
                           end)
       | None => []
       end ->
  completions (notified e) = completed0 ->
  ShownAll r (snd (finish taskText run_id s r e)).
Proof.
  intros H1 H2 H3 H4 H5 H6.
  pose proof (finish_observers s r e) as [= _ _ _ G4].
  unfold finish. cbn [snd]. rewrite G4. clear G4.
  unfold startedIterations, endedIterations, completions in *.
  rewrite !omap_app, H4, H5, H6, H3.
  destruct hc; cbn [omap list_omap]; rewrite ?app_nil_r;
    (split; [reflexivity|]); (split; [reflexivity|]);
    (split; [reflexivity|]); intros h [= <-]. apply last_snoc.
Qed.

Lemma mainLoop_shown (fuel : nat) (lastError : option jsstring)
    (e : LoopEngine) (r : LoopResult) (e' : LoopEngine) :
  Shown 0 e ->
  mainLoop stopInCooldown taskText run_id maxIterations cooldownMs
           fuel 0 lastError e = (Resolved r, e') ->
  ShownAll r e'.
Proof.
  intros HS Hrun.
  refine (mainLoop_ind stopInCooldown taskText run_id maxIterations cooldownMs
            (fun i _ e0 => Shown i e0) (fun r0 e0 => ShownAll r0 e0)
            _ _ fuel 0 lastError e r e' HS Hrun).
  - intros i le e0 H _. rewrite loopBody_stages.
    destruct (stopRequested e0).
    { intros r0 [= <-]. destruct H as (_ & H1 & H2 & H3 & H4 & H5 & H6).
      now apply shown_finish. }
    pose proof (shown_prepared i e0 H) as (Hi & P1 & P2 & P3 & P4 & P5 & P6).
    destruct H as (Hi0 & _).
    destruct (iterationCallback e0) as [cb|].
    2:{ intros r0 [= <-]. unfold catchError. apply shown_finish; auto.
        cbn [reason iterations]. now replace (i + 1 - 1) with i by lia. }
    cbv zeta.
    pose proof (inFlight_observers (cb (context taskText run_id i))
                  (prepared taskText run_id i e0)) as [= F1 F2 F3 F4].
    destruct (settles _) as [res|m].
    2:{ intros r0 [= <-]. unfold catchError.
        apply shown_finish; rewrite ?F1, ?F2, ?F3, ?F4; auto.
        cbn [reason iterations]. now replace (i + 1 - 1) with i by lia. }
    assert (HS3 : Shown (i + 1)
                    (ended taskText run_id i res
                       (inFlight (cb (context taskText run_id i))
                          (prepared taskText run_id i e0)))).
    { cbv zeta in *. apply shown_ended; rewrite ?F1, ?F2, ?F3, ?F4; auto. }
    destruct (it_success res).
    { intros r0 [= <-]. destruct HS3 as (_ & H1 & H2 & H3 & H4 & H5 & H6).
      now apply shown_finish. }
    revert HS3. apply shown_transfer, cooled_observers.
  - intros i le e0 (_ & H1 & H2 & H3 & H4 & H5 & H6) _.
    now apply shown_finish.
Qed.
End Observers.



End EngineMore.
